(** * NanoClaw: the host-side orchestration kernel, embedded in Rocq

    The development follows the TypeScript sources module by module, first
    the programs, then what is proved of them.

    Programs:
    - [Js]          the string built-ins of the runtime the sources call
                    ([trim], [trimEnd], [split], [includes], [startsWith],
                    [slice], the [<internal>] regular-expression replace);
    - [Store]       the two message queries of [db.ts];
    - [Types]       the records of [types.ts] and [container-runner.ts];
    - [Router]      [index.ts]: [saveState], [processGroupMessages] with its
                    streaming callback, and one iteration of
                    [startMessageLoop];
    - [Startup]     [index.ts]: [recoverPendingMessages];
    - [Discord]     [index.ts]: [processDiscordIncoming] with
                    [buildPromptFromMessages] and the admin command;
    - [OpenCode]    [opencode-runner.ts]: [extractOpenCodeResponse] and the
                    event handlers of [runOpenCodeAgent];
    - [Tart]        [tart-runner.ts] with the polling loops of
                    [tart-ssh-helper.ts]: [runTartAgent];
    - [Vibe]        [vibe-runner.ts] and [vibe-helper.ts]: the mounts of a
                    run and the command line of [vibe];
    - [VibeRun]     [vibe-runner.ts] and [vibe-helper.ts]: the image of a
                    group, the script, [runVibeAgent] and [resetVibeImage]
                    on a disk of paths;
    - [MountPolicy] the allowlist validation of the specification;
    - [Samples]     concrete chats, runs and hosts.

    Facts: [JsFacts], [TextFacts], [StoreFacts], [RouterFacts],
    [OpenCodeFacts], [TartFacts], [VibeFacts], [LoopFacts], [SessionFacts],
    [OpenCodeBounds], [OpenCodeText], [TartBoot], [TartCommand],
    [VibeRunFacts], [DiscordFacts].

    Strings are sequences of code units in the range 0..255 ([string] of the
    Standard Library); the module-level variables of [index.ts] are the
    fields of one record threaded through a state-and-exception monad; what
    a program does to its collaborators (store, channel, queue, child
    process, host commands) is recorded as a list of events in program
    order. *)

From Stdlib Require Import String Ascii List ZArith Bool Lia.
From stdpp Require Import gmap strings pretty.
From Equations Require Import Equations.
From Equations.Prop Require Import Logic.

Import ListNotations.
Local Open Scope string_scope.

(* ===================================================================== *)
(** * Runtime string built-ins *)
(* ===================================================================== *)

Module Js.

(** [s.length] *)
Definition len (s : string) : nat := String.length s.

(** White space as [String.prototype.trim] and the [\s] class see it, on
    code units up to 255: TAB, LF, VT, FF, CR, SPACE and NBSP. *)
Definition is_ws (c : ascii) : bool :=
  let n := nat_of_ascii c in
  (Nat.leb 9 n && Nat.leb n 13) || Nat.eqb n 32 || Nat.eqb n 160.

(** Truthiness of a string: [if (s)] holds when [s] is not empty. *)
Definition truthy (s : string) : bool :=
  match s with EmptyString => false | String _ _ => true end.

(** [s.trimStart()] *)
Fixpoint trimStart (s : string) : string :=
  match s with
  | EmptyString => EmptyString
  | String c s' => if is_ws c then trimStart s' else s
  end.

(** [s.trimEnd()] *)
Fixpoint trimEnd (s : string) : string :=
  match s with
  | EmptyString => EmptyString
  | String c s' =>
      match trimEnd s' with
      | EmptyString => if is_ws c then EmptyString else String c EmptyString
      | r => String c r
      end
  end.

(** [s.trim()] *)
Definition trim (s : string) : string := trimEnd (trimStart s).

(** [s.startsWith(p)] *)
Definition startsWith (s p : string) : bool := String.prefix p s.

(** [s.includes(p)] *)
Fixpoint includes (s p : string) : bool :=
  String.prefix p s ||
  match s with
  | EmptyString => false
  | String _ s' => includes s' p
  end.

(** [s.slice(n)] for [0 <= n] *)
Fixpoint drop (n : nat) (s : string) : string :=
  match n, s with
  | O, _ => s
  | S _, EmptyString => EmptyString
  | S n', String _ s' => drop n' s'
  end.

(** [s.slice(0, n)] for [0 <= n] *)
Fixpoint take (n : nat) (s : string) : string :=
  match n, s with
  | O, _ => EmptyString
  | S _, EmptyString => EmptyString
  | S n', String c s' => String c (take n' s')
  end.

(** [s.slice(-n)] for [0 < n]: the last [n] code units (all of [s] when it
    is shorter). *)
Definition takeLast (n : nat) (s : string) : string :=
  drop (String.length s - n) s.

(** [s.split(sep)] for a one-character separator: never the empty list. *)
Fixpoint split (sep : ascii) (s : string) : list string :=
  match s with
  | EmptyString => [EmptyString]
  | String c s' =>
      if Ascii.eqb c sep then EmptyString :: split sep s'
      else match split sep s' with
           | [] => [String c EmptyString]
           | l :: ls => String c l :: ls
           end
  end.

(** [s.replace(/\r$/, '')]: one trailing carriage return is removed. *)
Fixpoint dropTrailingCR (s : string) : string :=
  match s with
  | EmptyString => EmptyString
  | String c EmptyString => if Nat.eqb (nat_of_ascii c) 13 then EmptyString else s
  | String c s' => String c (dropTrailingCR s')
  end.

(** [ls.join(sep)] *)
Definition join (sep : string) (ls : list string) : string := String.concat sep ls.

(** The suffix of [s] that follows the first occurrence of [pat], if any. *)
Fixpoint after_first (pat s : string) : option string :=
  if String.prefix pat s then Some (drop (String.length pat) s)
  else match s with
       | EmptyString => None
       | String _ s' => after_first pat s'
       end.

Lemma drop_length (n : nat) (s : string) :
  String.length (drop n s) = String.length s - n.
Proof.
  revert s; induction n as [|n IH]; intros [|c s]; simpl; auto.
Qed.

Lemma after_first_length (pat s r : string) :
  after_first pat s = Some r -> String.length r + String.length pat <= String.length s \/ pat = EmptyString.
Proof.
  induction s as [|c s IH]; simpl.
  - destruct pat; simpl; [intros _; right; reflexivity | discriminate].
  - destruct pat as [|p pat]; [intros _; right; reflexivity|].
    destruct (ascii_dec p c) as [->|Hne].
    + destruct (String.prefix pat s) eqn:Hp.
      * intros [= <-]. left. simpl. rewrite drop_length.
        apply String.prefix_correct in Hp.
        assert (String.length pat <= String.length s).
        { rewrite <- Hp at 1. clear. revert s. induction pat; intros [|? s]; simpl; try lia.
          specialize (IHpat s). lia. }
        lia.
      * intros H. destruct (IH H) as [IH'|IH']; [left; simpl in *; lia|discriminate].
    + intros H. destruct (IH H) as [IH'|IH']; [left; simpl in *; lia|discriminate].
Qed.

Definition open_tag : string := "<internal>".
Definition close_tag : string := "</internal>".

(** Where the regular expression [/<internal>[\s\S]*?<\/internal>/] matches
    at the very start of [s]: the rest of [s] after that (shortest) match. *)
Definition match_internal_here (s : string) : option string :=
  if String.prefix open_tag s
  then after_first close_tag (drop (String.length open_tag) s)
  else None.

Lemma match_internal_here_shorter (s r : string) :
  match_internal_here s = Some r -> String.length r < String.length s.
Proof.
  unfold match_internal_here. destruct (String.prefix open_tag s) eqn:Hp; [|discriminate].
  intros H. apply after_first_length in H. rewrite drop_length in H.
  destruct H as [H|H]; [|discriminate]. unfold close_tag, open_tag in *. simpl in H. lia.
Qed.

(** [s.replace(/<internal>[\s\S]*?<\/internal>/g, '')]: one pass from left
    to right; at each position either the pattern matches (the match is
    dropped and the scan resumes right after it) or one code unit is kept. *)
Equations strip_internal (s : string) : string by wf (String.length s) lt :=
  strip_internal EmptyString := EmptyString;
  strip_internal (String c s') with inspect (match_internal_here (String c s')) := {
    | @exist (Some rest) _ := strip_internal rest;
    | @exist None _ := String c (strip_internal s') }.
Next Obligation.
  intros; match goal with H : _ = Some _ |- _ => exact (match_internal_here_shorter _ _ H) end.
Qed.

Arguments strip_internal : simpl never.

(** [s.indexOf(p)]; [None] is [-1]. *)
Fixpoint indexOf (s p : string) : option nat :=
  if String.prefix p s then Some 0
  else match s with
       | EmptyString => None
       | String _ s' => option_map S (indexOf s' p)
       end.

(** [s.slice(a, b)] for [0 <= a] and [0 <= b]: empty when [b <= a]. *)
Definition slice (a b : nat) (s : string) : string := take (b - a) (drop a s).

(** [s.endsWith(p)] *)
Definition endsWith (s p : string) : bool :=
  Nat.leb (String.length p) (String.length s)
  && String.eqb (drop (String.length s - String.length p) s) p.

(** [s.replace(/c/g, by)] for a pattern of one literal code unit. *)
Fixpoint replace_char (c : ascii) (by_ : string) (s : string) : string :=
  match s with
  | EmptyString => EmptyString
  | String x s' =>
      if Ascii.eqb x c then by_ ++ replace_char c by_ s'
      else String x (replace_char c by_ s')
  end.

(** [ls.slice(-n)] on an array, for [0 < n]: the last [n] elements. *)
Definition lastN {A} (n : nat) (ls : list A) : list A := skipn (length ls - n) ls.

End Js.

(* ===================================================================== *)
(** * The message store *)
(* ===================================================================== *)

Module Store.

(** A row of the [messages] table ([NewMessage] of [types.ts]).  Time stamps
    are ISO-8601 strings and are compared as strings. *)
Record NewMessage : Type := mkMessage {
  id : string;
  chat_jid : string;
  sender : string;
  sender_name : string;
  content : string;
  timestamp : string;
}.

Definition ts_lt (a b : string) : bool := String.ltb a b.
Definition ts_le (a b : string) : bool := String.leb a b.
Definition ts_max (a b : string) : string := if ts_lt a b then b else a.

(** Modelled from the spec: the order of the rows both queries of [db.ts]
    return, "ordered by timestamp ascending"; a stable insertion sort. *)
Fixpoint insert_by_timestamp (m : NewMessage) (l : list NewMessage) : list NewMessage :=
  match l with
  | [] => [m]
  | x :: xs =>
      if ts_le (timestamp m) (timestamp x) then m :: l
      else x :: insert_by_timestamp m xs
  end.

Fixpoint order_by_timestamp (l : list NewMessage) : list NewMessage :=
  match l with
  | [] => []
  | m :: ms => insert_by_timestamp m (order_by_timestamp ms)
  end.

(** Modelled from the spec: the filter both queries of [db.ts] share,
    "strictly after [sinceTs]" and "[senderName] is not [selfName]". *)
Definition is_new (sinceTs selfName : string) (m : NewMessage) : bool :=
  ts_lt sinceTs (timestamp m) && negb (String.eqb (sender_name m) selfName).

(** Modelled from the spec: [getMessagesSince] of [db.ts], which is not among
    the sources.  Section 4.1: the messages of one chat strictly after
    [sinceTs] whose sender name is not [selfName], ordered by time stamp
    ascending. *)
Definition getMessagesSince (messages : list NewMessage)
    (chatJid sinceTimestamp selfName : string) : list NewMessage :=
  order_by_timestamp
    (List.filter (fun m => String.eqb (chat_jid m) chatJid && is_new sinceTimestamp selfName m)
       messages).

(** Modelled from the spec: the second component of [getNewMessages] of
    [db.ts], "[max(msgs.timestamp)] or [sinceTs] if empty". *)
Definition newMaxTs (sinceTs : string) (msgs : list NewMessage) : string :=
  match msgs with
  | [] => sinceTs
  | m :: rest => fold_left (fun acc x => ts_max acc (timestamp x)) rest (timestamp m)
  end.

(** Modelled from the spec: [getNewMessages] of [db.ts], which is not among
    the sources.  Section 4.1: the messages strictly after [sinceTs] whose
    chat is one of [jids] and whose sender name is not [selfName], ordered
    by time stamp ascending, together with [newMaxTs]. *)
Definition getNewMessages (messages : list NewMessage)
    (jids : list string) (lastTimestamp selfName : string)
    : list NewMessage * string :=
  let msgs :=
    order_by_timestamp
      (List.filter (fun m => existsb (String.eqb (chat_jid m)) jids
                        && is_new lastTimestamp selfName m)
         messages) in
  (msgs, newMaxTs lastTimestamp msgs).

End Store.

(* ===================================================================== *)
(** * Shared types ([types.ts], [container-runner.ts]) *)
(* ===================================================================== *)

Module Types.

Record AdditionalMount : Type := mkAdditionalMount {
  hostPath : string;
  containerPath : string;
  readonly : option bool;
}.

(** [group.containerConfig]; an absent field is [None]. *)
Record ContainerConfig : Type := mkContainerConfig {
  additionalMounts : option (list AdditionalMount);
  timeout : option Z;
  env_AGENT_RUNTIME : option string;
  cpus : option Z;
  ram : option Z;
  vibeImage : option string;
}.

Record RegisteredGroup : Type := mkGroup {
  name : string;
  folder : string;
  trigger : string;
  added_at : string;
  requiresTrigger : option bool;
  containerConfig : option ContainerConfig;
}.

Record ContainerInput : Type := mkInput {
  prompt : string;
  sessionId : option string;
  groupFolder : string;
  chatJid : string;
  isMain : bool;
}.

Inductive Status : Type := Success | Error.

(** [{status, result: string | null, newSessionId?, error?}] *)
Record ContainerOutput : Type := mkOutput {
  status : Status;
  result : option string;
  newSessionId : option string;
  error : option string;
}.

Definition is_error (s : Status) : bool :=
  match s with Error => true | Success => false end.

(** [if (o)] for an optional string: present and not empty. *)
Definition truthy_opt (o : option string) : option string :=
  match o with
  | Some s => if Js.truthy s then Some s else None
  | None => None
  end.

End Types.

(* ===================================================================== *)
(** * The router ([index.ts]) *)
(* ===================================================================== *)

Module Router.
Import Store Types.

(** What the router does to its collaborators, in program order.  Logging
    and the idle timer (which only schedules [queue.closeStdin]) are left
    out; the channel calls are recorded and taken to return normally. *)
Inductive Event : Type :=
| EvSaveState (lastTs : string) (agentTs : gmap string string)
| EvSetSession (groupFolder sessionId : string)
| EvSetTyping (jid : string) (isTyping : bool)
| EvSendMessage (jid text : string)
| EvWriteTasksSnapshot (groupFolder : string) (isMain : bool)
| EvWriteGroupsSnapshot (groupFolder : string) (isMain : bool)
| EvRunAgent (groupFolder : string) (input : ContainerInput)
| EvPiped (jid text : string)
| EvEnqueueMessageCheck (jid : string).

(** The module-level variables of [index.ts], the tables of the store they
    are written through to, and the effects so far.  The JSON text kept
    under [last_agent_timestamp] is represented by the object it denotes. *)
Record World : Type := mkWorld {
  lastTimestamp : string;
  sessions : gmap string string;
  registeredGroups : gmap string RegisteredGroup;
  lastAgentTimestamp : gmap string string;
  db_messages : list NewMessage;
  db_last_timestamp : string;
  db_last_agent_timestamp : gmap string string;
  db_sessions : gmap string string;
  trace : list Event;
}.

Definition with_lastTimestamp (v : string) (w : World) : World :=
  mkWorld v (sessions w) (registeredGroups w) (lastAgentTimestamp w)
    (db_messages w) (db_last_timestamp w) (db_last_agent_timestamp w)
    (db_sessions w) (trace w).

Definition with_lastAgentTimestamp (v : gmap string string) (w : World) : World :=
  mkWorld (lastTimestamp w) (sessions w) (registeredGroups w) v
    (db_messages w) (db_last_timestamp w) (db_last_agent_timestamp w)
    (db_sessions w) (trace w).

Definition with_sessions (v : gmap string string) (w : World) : World :=
  mkWorld (lastTimestamp w) v (registeredGroups w) (lastAgentTimestamp w)
    (db_messages w) (db_last_timestamp w) (db_last_agent_timestamp w)
    (db_sessions w) (trace w).

Definition with_router_state (ts : string) (agentTs : gmap string string) (w : World) : World :=
  mkWorld (lastTimestamp w) (sessions w) (registeredGroups w) (lastAgentTimestamp w)
    (db_messages w) ts agentTs (db_sessions w) (trace w).

Definition with_db_sessions (v : gmap string string) (w : World) : World :=
  mkWorld (lastTimestamp w) (sessions w) (registeredGroups w) (lastAgentTimestamp w)
    (db_messages w) (db_last_timestamp w) (db_last_agent_timestamp w) v (trace w).

Definition with_db_messages (v : list NewMessage) (w : World) : World :=
  mkWorld (lastTimestamp w) (sessions w) (registeredGroups w) (lastAgentTimestamp w)
    v (db_last_timestamp w) (db_last_agent_timestamp w) (db_sessions w) (trace w).

Definition log (e : Event) (w : World) : World :=
  mkWorld (lastTimestamp w) (sessions w) (registeredGroups w) (lastAgentTimestamp w)
    (db_messages w) (db_last_timestamp w) (db_last_agent_timestamp w)
    (db_sessions w) (trace w ++ [e]).

(** ** State and exceptions *)

Inductive Outcome (A : Type) : Type :=
| Returned (a : A)
| Thrown.
Arguments Returned {A} a.
Arguments Thrown {A}.

Definition M (A : Type) : Type := World -> Outcome A * World.

Definition ret {A} (a : A) : M A := fun w => (Returned a, w).

Definition bind {A B} (m : M A) (k : A -> M B) : M B :=
  fun w => match m w with
           | (Returned a, w') => k a w'
           | (Thrown, w') => (Thrown, w')
           end.

Definition throw {A} : M A := fun w => (Thrown, w).

(** [try { m } catch { h }]: what [m] did to the state before it threw stays. *)
Definition try_catch {A} (m : M A) (h : M A) : M A :=
  fun w => match m w with
           | (Returned a, w') => (Returned a, w')
           | (Thrown, w') => h w'
           end.

Definition get : M World := fun w => (Returned w, w).
Definition modify (f : World -> World) : M unit := fun w => (Returned tt, f w).
Definition emit (e : Event) : M unit := modify (log e).

Notation "x <- m ;; k" := (bind m (fun x => k))
  (at level 90, m at level 89, right associativity).
Notation "m ;;; k" := (bind m (fun _ => k))
  (at level 90, right associativity).

(** [for (const x of xs) body(x)] *)
Fixpoint for_each {A} (xs : list A) (body : A -> M unit) : M unit :=
  match xs with
  | [] => ret tt
  | x :: rest => body x ;;; for_each rest body
  end.

(** A loop whose body updates a local variable of the enclosing function. *)
Fixpoint fold_each {A L} (xs : list A) (body : L -> A -> M L) (l : L) : M L :=
  match xs with
  | [] => ret l
  | x :: rest => l' <- body l x ;; fold_each rest body l'
  end.

(** ** Configuration ([config.ts]) and the formatter ([router.ts])

    Neither file is among the sources; their exports are parameters.
    [TRIGGER_PATTERN] stands for [TRIGGER_PATTERN.test], a pattern without
    the [g] flag, so a pure predicate. *)
Record Config : Type := mkConfig {
  ASSISTANT_NAME : string;
  MAIN_GROUP_FOLDER : string;
  REQUIRE_TRIGGER : bool;
  TRIGGER_PATTERN : string -> bool;
  formatMessages : list NewMessage -> string;
}.

(** What [runAgent] of [container-runner.ts] does during one call, seen from
    the caller: the frames it streams to the callback, then the output it
    resolves to, or [None] when it rejects. *)
Record AgentRun : Type := mkAgentRun {
  frames : list ContainerOutput;
  final : option ContainerOutput;
}.

(** What [GroupQueue.sendMessage] answers for a chat: piped into a live
    process, no live process, or an exception. *)
Inductive QueueReply : Type := QPiped | QNoActive | QThrows.

Record QueueEnv : Type := mkQueueEnv {
  queue_sendMessage : string -> string -> QueueReply;
  queue_enqueue_ok : string -> bool;
}.

Section WithConfig.
Variable cfg : Config.

(** [lastAgentTimestamp[chatJid] || ''] *)
Definition cursor (w : World) (chatJid : string) : string :=
  default EmptyString (lastAgentTimestamp w !! chatJid).

(** [saveState()]: both router cursors are written to the store. *)
Definition saveState : M unit :=
  w <- get ;;
  modify (with_router_state (lastTimestamp w) (lastAgentTimestamp w)) ;;;
  emit (EvSaveState (lastTimestamp w) (lastAgentTimestamp w)).

(** [lastAgentTimestamp[chatJid] = ts] *)
Definition set_cursor (chatJid ts : string) : M unit :=
  w <- get ;;
  modify (with_lastAgentTimestamp (<[chatJid := ts]> (lastAgentTimestamp w))).

(** [sessions[folder] = id; setSession(folder, id)] *)
Definition recordSession (groupFolder sid : string) : M unit :=
  w <- get ;;
  modify (with_sessions (<[groupFolder := sid]> (sessions w))) ;;;
  w <- get ;;
  modify (with_db_sessions (<[groupFolder := sid]> (db_sessions w))) ;;;
  emit (EvSetSession groupFolder sid).

(** [!isMainGroup && REQUIRE_TRIGGER && group.requiresTrigger !== false] *)
Definition needsTrigger (group : RegisteredGroup) : bool :=
  negb (String.eqb (folder group) (MAIN_GROUP_FOLDER cfg))
  && REQUIRE_TRIGGER cfg
  && match requiresTrigger group with Some false => false | _ => true end.

(** [msgs.some((m) => TRIGGER_PATTERN.test(m.content.trim()))] *)
Definition hasTrigger (msgs : list NewMessage) : bool :=
  existsb (fun m => TRIGGER_PATTERN cfg (Js.trim (content m))) msgs.

(** The text a result frame surfaces: the [<internal>] blocks are cut out
    and the rest is trimmed. *)
Definition reply_text (raw : string) : string :=
  Js.trim (Js.strip_internal raw).

(** The streaming callback of [processGroupMessages]; [hadError] is the
    local variable of the enclosing call.  [result.result] is a string or
    [null] by its type, so [raw] is the string itself. *)
Definition onOutput (group : RegisteredGroup) (chatJid : string)
    (hadError : bool) (result : ContainerOutput) : M bool :=
  match truthy_opt (newSessionId result) with
  | Some sid => recordSession (folder group) sid
  | None => ret tt
  end ;;;
  match truthy_opt (Types.result result) with
  | Some raw =>
      let text := reply_text raw in
      if Js.truthy text
      then emit (EvSendMessage chatJid text) ;;; saveState
      else ret tt
  | None => ret tt
  end ;;;
  ret (if is_error (status result) then true else hadError).

(** [runAgent(group, input, onProcess, onOutput)] as the caller sees it. *)
Definition runAgent (group : RegisteredGroup) (input : ContainerInput)
    (agent : AgentRun) (callback : bool -> ContainerOutput -> M bool)
    (hadError : bool) : M (bool * ContainerOutput) :=
  emit (EvRunAgent (folder group) input) ;;;
  hadError' <- fold_each (frames agent) callback hadError ;;
  match final agent with
  | Some output => ret (hadError', output)
  | None => throw
  end.

(** [processGroupMessages(chatJid)] *)
Definition processGroupMessages (chatJid : string) (agent : AgentRun) : M bool :=
  w <- get ;;
  match registeredGroups w !! chatJid with
  | None => ret true
  | Some group =>
    let isMainGroup := String.eqb (folder group) (MAIN_GROUP_FOLDER cfg) in
    let sinceTimestamp := cursor w chatJid in
    let missedMessages :=
      getMessagesSince (db_messages w) chatJid sinceTimestamp (ASSISTANT_NAME cfg) in
    match missedMessages with
    | [] => ret true
    | m0 :: _ =>
      if needsTrigger group && negb (hasTrigger missedMessages) then ret true
      else
        let prompt := formatMessages cfg missedMessages in
        let previousCursor := cursor w chatJid in
        set_cursor chatJid (timestamp (List.last missedMessages m0)) ;;;
        saveState ;;;
        emit (EvSetTyping chatJid true) ;;;
        w1 <- get ;;
        let sessionId := sessions w1 !! folder group in
        emit (EvWriteTasksSnapshot (folder group) isMainGroup) ;;;
        emit (EvWriteGroupsSnapshot (folder group) isMainGroup) ;;;
        hadError <-
          try_catch
            (r <- runAgent group
                    (mkInput prompt sessionId (folder group) chatJid isMainGroup)
                    agent (onOutput group chatJid) false ;;
             let '(hadError, output) := r in
             match truthy_opt (newSessionId output) with
             | Some sid => recordSession (folder group) sid
             | None => ret tt
             end ;;;
             ret (if is_error (status output) then true else hadError))
            (ret true) ;;
        emit (EvSetTyping chatJid false) ;;;
        if hadError
        then set_cursor chatJid previousCursor ;;; saveState ;;; ret false
        else ret true
    end
  end.

(** [messagesByGroup]: a [Map] keeps its keys in insertion order. *)
Fixpoint add_to_group (msg : NewMessage) (groups : list (string * list NewMessage))
    : list (string * list NewMessage) :=
  match groups with
  | [] => [(chat_jid msg, [msg])]
  | (k, existing) :: rest =>
      if String.eqb k (chat_jid msg) then (k, (existing ++ [msg])%list) :: rest
      else (k, existing) :: add_to_group msg rest
  end.

Definition messagesByGroup (messages : list NewMessage) : list (string * list NewMessage) :=
  fold_left (fun acc msg => add_to_group msg acc) messages [].

(** The body of the [for (const [chatJid, groupMessages] of messagesByGroup)]
    loop of [startMessageLoop]. *)
Definition loopGroup (q : QueueEnv) (entry : string * list NewMessage) : M unit :=
  let '(chatJid, groupMessages) := entry in
  w <- get ;;
  match registeredGroups w !! chatJid with
  | None => ret tt
  | Some group =>
    if needsTrigger group && negb (hasTrigger groupMessages) then ret tt
    else
      let allPending :=
        getMessagesSince (db_messages w) chatJid (cursor w chatJid) (ASSISTANT_NAME cfg) in
      let messagesToSend :=
        match allPending with [] => groupMessages | _ :: _ => allPending end in
      let formatted := formatMessages cfg messagesToSend in
      match queue_sendMessage q chatJid formatted with
      | QThrows => throw
      | QPiped =>
          emit (EvPiped chatJid formatted) ;;;
          match List.last (map Some messagesToSend) None with
          | Some m => set_cursor chatJid (timestamp m) ;;; saveState
          | None => throw
          end
      | QNoActive =>
          if queue_enqueue_ok q chatJid
          then emit (EvEnqueueMessageCheck chatJid)
          else throw
      end
  end.

(** One iteration of the [while (true)] loop of [startMessageLoop], up to
    the sleep. *)
Definition messageLoopTick (q : QueueEnv) : M unit :=
  try_catch
    (w <- get ;;
     let jids := (map_to_list (registeredGroups w)).*1 in
     let '(messages, newTimestamp) :=
       getNewMessages (db_messages w) jids (lastTimestamp w) (ASSISTANT_NAME cfg) in
     match messages with
     | [] => ret tt
     | _ :: _ =>
         modify (with_lastTimestamp newTimestamp) ;;;
         saveState ;;;
         for_each (messagesByGroup messages) (loopGroup q)
     end)
    (ret tt).

End WithConfig.

End Router.

(* ===================================================================== *)
(** * Start-up recovery ([index.ts]) *)
(* ===================================================================== *)

Module Startup.
Import Store Types Router.

Section WithConfig.
Variable cfg : Config.

(** The body of the loop of [recoverPendingMessages] for one entry of
    [registeredGroups]. *)
Definition recoverGroup (q : QueueEnv) (entry : string * RegisteredGroup) : M unit :=
  let '(chatJid, group) := entry in
  w <- get ;;
  let sinceTimestamp := cursor w chatJid in
  let pending :=
    getMessagesSince (db_messages w) chatJid sinceTimestamp (ASSISTANT_NAME cfg) in
  match pending with
  | [] => ret tt
  | _ :: _ =>
      if queue_enqueue_ok q chatJid
      then emit (EvEnqueueMessageCheck chatJid)
      else throw
  end.

(** [recoverPendingMessages()].  The entries are visited in the order of
    the map's listing, which need not be the order of [Object.entries]. *)
Definition recoverPendingMessages (q : QueueEnv) : M unit :=
  w <- get ;;
  for_each (map_to_list (registeredGroups w)) (recoverGroup q).

End WithConfig.

End Startup.

(* ===================================================================== *)
(** * The Discord handler ([index.ts]) *)
(* ===================================================================== *)

Module Discord.
Import Store Types Router.

Definition dq : string := String "034" EmptyString.
Definition LF : string := String "010" EmptyString.

(** ** The prompt *)

(** The local [escapeXml] of [buildPromptFromMessages]: four replaces, one
    after the other, the ampersand first. *)
Definition escapeXml (s : string) : string :=
  Js.replace_char "034" "&quot;"
    (Js.replace_char ">" "&gt;"
       (Js.replace_char "<" "&lt;"
          (Js.replace_char "&" "&amp;" s))).

(** One [<message>] element. *)
Definition message_line (m : NewMessage) : string :=
  "<message sender=" ++ dq ++ escapeXml (sender_name m) ++ dq
  ++ " time=" ++ dq ++ timestamp m ++ dq ++ ">"
  ++ escapeXml (content m) ++ "</message>".

(** The text [buildPromptFromMessages] makes of the rows it fetched. *)
Definition prompt_of (missedMessages : list NewMessage) : string :=
  "<messages>" ++ LF ++ Js.join LF (map message_line missedMessages) ++ LF ++ "</messages>".

(** ** The admin command *)

(** The lower-case form of a code unit, for the letters A to Z. *)
Definition lower (c : ascii) : ascii :=
  let n := nat_of_ascii c in
  if Nat.leb 65 n && Nat.leb n 90 then ascii_of_nat (n + 32) else c.

Fixpoint toLowerCase (s : string) : string :=
  match s with
  | EmptyString => EmptyString
  | String c s' => String (lower c) (toLowerCase s')
  end.

(** What is left of [s] after a literal, matched without regard to case;
    the literal is given in lower case. *)
Fixpoint after_literal (literal s : string) : option string :=
  match literal, s with
  | EmptyString, _ => Some s
  | String p literal', String c s' =>
      if Ascii.eqb (lower c) p then after_literal literal' s' else None
  | String _ _, EmptyString => None
  end.

(** [content.match(/^!runtime\s+(claude|codex|opencode|status)$/i)]: the
    first capture group in lower case, or [None] when there is no match.
    On code units up to 255 the flag [i] folds the letters A to Z only. *)
Definition match_runtime_command (content : string) : option string :=
  match after_literal "!runtime" content with
  | Some (String c rest) =>
      if Js.is_ws c then
        let word := toLowerCase (Js.trimStart (String c rest)) in
        if String.eqb word "claude" || String.eqb word "codex"
           || String.eqb word "opencode" || String.eqb word "status"
        then Some word
        else None
      else None
  | _ => None
  end.

(** ** The handler *)

(** [DiscordIncomingMessage] of [discord.ts] *)
Record DiscordIncomingMessage : Type := mkDiscordMessage {
  msg_id : string;
  scopeId : string;
  authorId : string;
  authorName : string;
  msg_content : string;
  msg_timestamp : string;
  channelName : option string;
  isMainChannel : bool;
  isDM : bool;
}.

(** What the handler does, in program order.  The events of the router
    are those of [Router]; the two replies to the admin command are
    recorded by what they report, their texts hold characters outside the
    code units modelled here. *)
Inductive DEvent : Type :=
| DRouter (ev : Event)
| DSendStatus (scope current : string)
| DSendSwitched (scope cmd : string)
| DSendMessage (scope text : string)
| DSetTyping (scope : string) (isTyping : bool)
| DSetSetting (key value : string)
| DStoreChatMetadata (scope time name : string)
| DStoreMessage (msg : DiscordIncomingMessage)
| DRegisterGroup (jid : string) (group : RegisteredGroup).

(** The router's state, the [settings] table of the store, and the
    effects so far. *)
Record DWorld : Type := mkDWorld {
  world : World;
  settings_table : gmap string string;
  dtrace : list DEvent;
}.

(** What [db.ts] and the module's start contribute: how
    [storeDiscordMessage] changes the [messages] table and the time
    [DISCORD_GROUP.added_at] was taken at. *)
Record DEnv : Type := mkDEnv {
  storeDiscordMessage : DiscordIncomingMessage -> list NewMessage -> list NewMessage;
  started_at : string;
}.

Definition D (A : Type) : Type := DWorld -> Outcome A * DWorld.

Definition dret {A} (a : A) : D A := fun s => (Returned a, s).
Definition dthrow {A} : D A := fun s => (Thrown, s).
Definition dbind {A B} (m : D A) (k : A -> D B) : D B :=
  fun s => match m s with
           | (Returned a, s') => k a s'
           | (Thrown, s') => (Thrown, s')
           end.
Definition dtry {A} (m : D A) (h : D A) : D A :=
  fun s => match m s with
           | (Returned a, s') => (Returned a, s')
           | (Thrown, s') => h s'
           end.
Definition dget : D DWorld := fun s => (Returned s, s).
Definition demit (ev : DEvent) : D unit :=
  fun s => (Returned tt, mkDWorld (world s) (settings_table s) (dtrace s ++ [ev])%list).
Definition with_world (f : World -> World) : D unit :=
  fun s => (Returned tt, mkDWorld (f (world s)) (settings_table s) (dtrace s)).

(** A step of the router, its events passed on in order. *)
Definition lift {A} (m : M A) : D A :=
  fun s =>
    let '(r, w') := m (world s) in
    (r, mkDWorld w' (settings_table s)
          (dtrace s ++ map DRouter (skipn (length (trace (world s))) (trace w')))%list).

Declare Scope discord_scope.
Delimit Scope discord_scope with discord.
Notation "x <- m ;; k" := (dbind m (fun x => k))
  (at level 90, m at level 89, right associativity) : discord_scope.
Notation "m ;;; k" := (dbind m (fun _ => k))
  (at level 90, right associativity) : discord_scope.
Local Open Scope discord_scope.

Section WithConfig.
Variable cfg : Config.
Variable env : DEnv.

(** [DISCORD_GROUP] *)
Definition DISCORD_GROUP : RegisteredGroup :=
  mkGroup "Discord" "discord" ".*" (started_at env) (Some false) None.

(** [buildPromptFromMessages(chatJid, sinceTimestamp)] *)
Definition buildPromptFromMessages (w : World) (chatJid sinceTimestamp : string) : string :=
  prompt_of (getMessagesSince (db_messages w) chatJid sinceTimestamp (ASSISTANT_NAME cfg)).

(** [registerGroup(jid, group)] *)
Definition registerGroup (jid : string) (group : RegisteredGroup) : D unit :=
  with_world (fun w =>
    mkWorld (lastTimestamp w) (sessions w) (<[jid := group]> (registeredGroups w))
      (lastAgentTimestamp w) (db_messages w) (db_last_timestamp w)
      (db_last_agent_timestamp w) (db_sessions w) (trace w)) ;;;
  demit (DRegisterGroup jid group).

(** The branch of the admin command. *)
Definition runtime_command (scope cmd : string) : D unit :=
  if String.eqb cmd "status" then
    s <- dget ;;
    let current :=
      match truthy_opt (settings_table s !! "agent_runtime") with
      | Some r => r
      | None => "claude (default)"
      end in
    demit (DSendStatus scope current)
  else
    (fun s => (Returned tt,
               mkDWorld (world s) (<["agent_runtime" := cmd]> (settings_table s))
                 (dtrace s))) ;;;
    demit (DSetSetting "agent_runtime" cmd) ;;;
    demit (DSendSwitched scope cmd).

(** [processDiscordIncoming(msg)]; [agent] is what [runAgent] does when
    it is called.  The handler passes no streaming callback, so only the
    final output of the run is looked at.  The store and the Discord
    channel are taken to return; [runAgent] may reject. *)
Definition processDiscordIncoming (msg : DiscordIncomingMessage) (agent : AgentRun)
    : D unit :=
  match match_runtime_command (msg_content msg) with
  | Some cmd => runtime_command (scopeId msg) cmd
  | None =>
      demit (DStoreChatMetadata (scopeId msg) (msg_timestamp msg)
               match truthy_opt (channelName msg) with
               | Some name => "discord:" ++ name
               | None => scopeId msg
               end) ;;;
      with_world (fun w => with_db_messages (storeDiscordMessage env msg (db_messages w)) w) ;;;
      demit (DStoreMessage msg) ;;;
      s <- dget ;;
      let sinceTimestamp := cursor (world s) (scopeId msg) in
      let prompt := buildPromptFromMessages (world s) (scopeId msg) sinceTimestamp in
      if negb (Js.truthy prompt) then dret tt
      else
        demit (DSetTyping (scopeId msg) true) ;;;
        (match registeredGroups (world s) !! "discord" with
         | Some _ => dret tt
         | None => registerGroup "discord" DISCORD_GROUP
         end) ;;;
        s1 <- dget ;;
        match registeredGroups (world s1) !! "discord" with
        | None => dthrow
        | Some group =>
            let sessionId := sessions (world s1) !! folder group in
            lift (emit (EvWriteTasksSnapshot (folder group) false)) ;;;
            dtry
              (lift (emit (EvRunAgent (folder group)
                             (mkInput prompt sessionId (folder group) (scopeId msg) false))) ;;;
               output <- match final agent with
                         | Some output => dret output
                         | None => dthrow
                         end ;;
               demit (DSetTyping (scopeId msg) false) ;;;
               match truthy_opt (newSessionId output) with
               | Some sid => lift (recordSession (folder group) sid)
               | None => dret tt
               end ;;;
               match truthy_opt (result output) with
               | Some text =>
                   lift (set_cursor (scopeId msg) (msg_timestamp msg)) ;;;
                   lift saveState ;;;
                   demit (DSendMessage (scopeId msg) text)
               | None => dret tt
               end)
              (demit (DSetTyping (scopeId msg) false))
        end
  end.

End WithConfig.

End Discord.

(* ===================================================================== *)
(** * The OpenCode runner ([opencode-runner.ts]) *)
(* ===================================================================== *)

Module OpenCode.
Import Types.

(** A parsed JSON text.  Numbers are kept as integers. *)
#[warnings="-register-all"]
Inductive json : Type :=
| JNull
| JBool (b : bool)
| JNum (n : Z)
| JStr (s : string)
| JArr (items : list json)
| JObj (fields : list (string * json)).

(** A value read out of a parsed text: [None] is [undefined]. *)
Abbreviation value := (option json).

(** What the runner takes from the language runtime and from [config.ts]:
    [JSON.parse] ([None] when it throws), the string conversion of a value
    that is not a string, and the three constants it imports. *)
Record Runtime : Type := mkRuntime {
  JSON_parse : string -> option json;
  ToString : json -> string;
  CONTAINER_MAX_OUTPUT_SIZE : N;
  CONTAINER_TIMEOUT : Z;
  OPENCODE_MODEL : string;
}.

(** [if (v)] *)
Definition truthy (v : value) : bool :=
  match v with
  | None | Some JNull => false
  | Some (JBool b) => b
  | Some (JNum n) => negb (Z.eqb n 0)
  | Some (JStr s) => Js.truthy s
  | Some (JArr _) | Some (JObj _) => true
  end.

Fixpoint lookup_field (k : string) (fields : list (string * json)) : value :=
  match fields with
  | [] => None
  | (k', v) :: rest => if String.eqb k' k then Some v else lookup_field k rest
  end.

(** [v.k]: a [TypeError] (outer [None]) on [null] and [undefined]; the keys
    the runner reads are no properties of booleans, numbers, strings or
    arrays. *)
Definition get (v : value) (k : string) : option value :=
  match v with
  | None | Some JNull => None
  | Some (JObj fields) => Some (lookup_field k fields)
  | Some _ => Some None
  end.

(** [v?.k] *)
Definition get_opt (v : value) (k : string) : value :=
  match get v k with
  | Some r => r
  | None => None
  end.

(** [v === 'lit'] *)
Definition is_str (v : value) (lit : string) : bool :=
  match v with
  | Some (JStr s) => String.eqb s lit
  | _ => false
  end.

Section WithRuntime.
Variable rt : Runtime.

(** The string a value contributes to a concatenation. *)
Definition str (v : value) : string :=
  match v with
  | Some (JStr s) => s
  | Some j => ToString rt j
  | None => "undefined"
  end.

(** The string an array element contributes to [join]: [null] and
    [undefined] give the empty string. *)
Definition join_str (v : value) : string :=
  match v with
  | None | Some JNull => EmptyString
  | other => str other
  end.

(** [content.filter((c) => c.type === 'text').map((c) => c.text)], or a
    [TypeError] on an element that is [null]. *)
Fixpoint textParts (items : list json) : option (list value) :=
  match items with
  | [] => Some []
  | c :: rest =>
      match get (Some c) "type" with
      | None => None
      | Some ty =>
          match textParts rest with
          | None => None
          | Some parts =>
              if is_str ty "text" then Some (get_opt (Some c) "text" :: parts)
              else Some parts
          end
      end
  end.

(** The first [if] of the loop body: text chunks are appended. *)
Definition text_chunk (json : value) (result : string) : option string :=
  match get json "type" with
  | None => None
  | Some ty =>
      if is_str ty "text" then
        if truthy (get_opt json "text")
        then Some (result ++ str (get_opt json "text"))
        else if truthy (get_opt json "part") && truthy (get_opt (get_opt json "part") "text")
        then Some (result ++ str (get_opt (get_opt json "part") "text"))
        else Some result
      else Some result
  end.

(** The second [if]: an assistant message replaces what was collected. *)
Definition assistant_message (json : value) (result : string) : option string :=
  match get json "type", get json "role" with
  | Some ty, Some role =>
      if is_str ty "message" && is_str role "assistant" then
        match get_opt json "content" with
        | Some (JStr s) => if Js.truthy s then Some s else Some result
        | Some (JArr items) =>
            match textParts items with
            | None => None
            | Some [] => Some result
            | Some parts => Some (Js.join (String "010" EmptyString) (map join_str parts))
            end
        | _ => Some result
        end
      else Some result
  | _, _ => None
  end.

(** One round of the [for (const line of lines)] loop; an exception leaves
    the loop body where the assignments made so far stand. *)
Definition extract_line (result line : string) : string :=
  if negb (Js.truthy (Js.trim line)) then result
  else match JSON_parse rt line with
       | None => result
       | Some j =>
           match text_chunk (Some j) result with
           | None => result
           | Some r1 =>
               match assistant_message (Some j) r1 with
               | None => r1
               | Some r2 => r2
               end
           end
       end.

(** The fallback scan from the last line upwards. *)
Fixpoint last_plain_line (reversed : list string) : string :=
  match reversed with
  | [] => EmptyString
  | line :: rest =>
      let l := Js.trim line in
      if negb (Js.truthy l) then last_plain_line rest
      else if Js.includes l "tokens used" || Js.includes l "session:"
              || Js.startsWith l "http://"
      then last_plain_line rest
      else l
  end.

(** [extractOpenCodeResponse(rawStdout)] *)
Definition extractOpenCodeResponse (rawStdout : string) : string :=
  let lines :=
    map Js.trimEnd (map Js.dropTrailingCR (Js.split "010" rawStdout)) in
  let result := fold_left extract_line lines EmptyString in
  if Js.truthy result then result
  else last_plain_line (rev lines).

(** ** [runOpenCodeAgent] *)

Inductive Signal : Type := SIGTERM | SIGKILL.

(** The variables the handlers of one call share, the two kinds of timers
    the call sets, the signals it has sent and the value its promise is
    settled with. *)
Record Proc : Type := mkProc {
  stdout : string;
  stderr : string;
  stdoutTruncated : bool;
  stderrTruncated : bool;
  capturedSessionId : option string;
  timeout_armed : bool;
  sigterm_timers : nat;
  signals : list Signal;
  settled : option ContainerOutput;
}.

(** What the event loop delivers to the call. *)
Inductive ProcEvent : Type :=
| ev_stdout (chunk : string)
| ev_stderr (chunk : string)
| ev_timeout
| ev_sigterm_timer
| ev_close (code : option Z)
| ev_error (message : string).

(** [opts?.timeoutMs ?? group.containerConfig?.timeout ?? CONTAINER_TIMEOUT] *)
Definition timeoutMs (group : RegisteredGroup) (opts_timeoutMs : option Z) : Z :=
  match opts_timeoutMs with
  | Some t => t
  | None =>
      match containerConfig group with
      | Some c =>
          match timeout c with
          | Some t => t
          | None => CONTAINER_TIMEOUT rt
          end
      | None => CONTAINER_TIMEOUT rt
      end
  end.

Definition spawned : Proc :=
  mkProc EmptyString EmptyString false false None true 0 [] None.

(** [resolve(output)]: a promise keeps the first value it is settled with. *)
Definition resolve (output : ContainerOutput) (p : Proc) : Proc :=
  match settled p with
  | Some _ => p
  | None =>
      mkProc (stdout p) (stderr p) (stdoutTruncated p) (stderrTruncated p)
        (capturedSessionId p) (timeout_armed p) (sigterm_timers p) (signals p)
        (Some output)
  end.

(** [proc.kill(sig)] *)
Definition kill (sig : Signal) (p : Proc) : Proc :=
  mkProc (stdout p) (stderr p) (stdoutTruncated p) (stderrTruncated p)
    (capturedSessionId p) (timeout_armed p) (sigterm_timers p) (signals p ++ [sig])
    (settled p).

(** [clearTimeout(timeout)], and the timer once it has fired. *)
Definition disarm (p : Proc) : Proc :=
  mkProc (stdout p) (stderr p) (stdoutTruncated p) (stderrTruncated p)
    (capturedSessionId p) false (sigterm_timers p) (signals p) (settled p).

Definition set_sigterm_timers (n : nat) (p : Proc) : Proc :=
  mkProc (stdout p) (stderr p) (stdoutTruncated p) (stderrTruncated p)
    (capturedSessionId p) (timeout_armed p) n (signals p) (settled p).

Definition set_capturedSessionId (sid : string) (p : Proc) : Proc :=
  mkProc (stdout p) (stderr p) (stdoutTruncated p) (stderrTruncated p)
    (Some sid) (timeout_armed p) (sigterm_timers p) (signals p) (settled p).

Definition set_stdout (s : string) (truncated : bool) (p : Proc) : Proc :=
  mkProc s (stderr p) truncated (stderrTruncated p)
    (capturedSessionId p) (timeout_armed p) (sigterm_timers p) (signals p) (settled p).

Definition set_stderr (s : string) (truncated : bool) (p : Proc) : Proc :=
  mkProc (stdout p) s (stdoutTruncated p) truncated
    (capturedSessionId p) (timeout_armed p) (sigterm_timers p) (signals p) (settled p).

(** The body of the real-time scan for one line of a chunk.  The declared
    type of [capturedSessionId] is [string | undefined]: an [id] that is
    not a string is not captured. *)
Definition scan_line (p : Proc) (line : string) : Proc :=
  if negb (Js.truthy (Js.trim line)) then p
  else match JSON_parse rt line with
       | None => p
       | Some j =>
           match get (Some j) "type" with
           | None => p
           | Some ty =>
               let p1 :=
                 if is_str ty "session" && truthy (get_opt (Some j) "id")
                 then match get_opt (Some j) "id" with
                      | Some (JStr sid) => set_capturedSessionId sid p
                      | _ => p
                      end
                 else p in
               let reason := get_opt (get_opt (Some j) "part") "reason" in
               if is_str ty "step_finish" && (is_str reason "stop" || is_str reason "error")
               then set_sigterm_timers (S (sigterm_timers p1)) p1
               else p1
           end
       end.

(** [buf += chunk], cut at [CONTAINER_MAX_OUTPUT_SIZE]. *)
Definition capped (buf chunk : string) : string * bool :=
  let remaining := (CONTAINER_MAX_OUTPUT_SIZE rt - N.of_nat (String.length buf))%N in
  if (remaining <? N.of_nat (String.length chunk))%N
  then (buf ++ Js.take (N.to_nat remaining) chunk, true)
  else (buf ++ chunk, false).

(** [proc.stdout.on('data', ...)] *)
Definition on_stdout (chunk : string) (p : Proc) : Proc :=
  if stdoutTruncated p then p
  else
    let p1 := fold_left scan_line (Js.split "010" chunk) p in
    let '(buf, truncated) := capped (stdout p1) chunk in
    set_stdout buf truncated p1.

(** [proc.stderr.on('data', ...)] *)
Definition on_stderr (chunk : string) (p : Proc) : Proc :=
  if stderrTruncated p then p
  else
    let '(buf, truncated) := capped (stderr p) chunk in
    set_stderr buf truncated p.

(** The output of a timeout.  [ms] is printed in decimal, as
    JavaScript prints a whole number below 10^21. *)
Definition timeout_output (ms : Z) : ContainerOutput :=
  mkOutput Error None None (Some ("OpenCode timed out after " ++ pretty ms ++ "ms")).

(** The callback of [setTimeout(..., timeoutMs)]. *)
Definition on_timeout (ms : Z) (p : Proc) : Proc :=
  resolve (timeout_output ms) (kill SIGKILL (disarm p)).

(** The callback of [setTimeout(() => proc.kill('SIGTERM'), 100)]. *)
Definition on_sigterm_timer (p : Proc) : Proc :=
  kill SIGTERM (set_sigterm_timers (pred (sigterm_timers p)) p).

Definition code_text (code : option Z) : string :=
  match code with
  | Some c => pretty c
  | None => "null"
  end.

Definition exit_output (code : option Z) (p : Proc) : ContainerOutput :=
  mkOutput Error None None
    (Some ("OpenCode exited with code " ++ code_text code
           ++ ". Stdout: " ++ Js.takeLast 500 (Js.trim (stdout p))
           ++ ". Stderr: " ++ Js.takeLast 500 (Js.trim (stderr p)))).

Definition empty_output (p : Proc) : ContainerOutput :=
  mkOutput Error None None
    (Some ("OpenCode returned empty output. Stderr: "
           ++ Js.takeLast 500 (Js.trim (stderr p)))).

(** [proc.on('close', (code) => ...)] *)
Definition on_close (code : option Z) (p : Proc) : Proc :=
  let p := disarm p in
  match code with
  | Some c =>
      if negb (Z.eqb c 0) then resolve (exit_output code p) p
      else
        let text := extractOpenCodeResponse (stdout p) in
        if negb (Js.truthy text) then resolve (empty_output p) p
        else resolve (mkOutput Success (Some text) (capturedSessionId p) None) p
  | None =>
      let text := extractOpenCodeResponse (stdout p) in
      if negb (Js.truthy text) then resolve (empty_output p) p
      else resolve (mkOutput Success (Some text) (capturedSessionId p) None) p
  end.

(** [proc.on('error', (err) => ...)] *)
Definition on_error (message : string) (p : Proc) : Proc :=
  resolve (mkOutput Error None None (Some ("Failed to spawn opencode: " ++ message)))
    (disarm p).

(** One event.  A timer that was cleared or has fired is not delivered, and
    neither is a kill timer that was never set. *)
Definition handle (ms : Z) (p : Proc) (e : ProcEvent) : Proc :=
  match e with
  | ev_stdout chunk => on_stdout chunk p
  | ev_stderr chunk => on_stderr chunk p
  | ev_timeout => if timeout_armed p then on_timeout ms p else p
  | ev_sigterm_timer =>
      match sigterm_timers p with
      | O => p
      | S _ => on_sigterm_timer p
      end
  | ev_close code => on_close code p
  | ev_error message => on_error message p
  end.

(** [runOpenCodeAgent(group, input, opts)] after the events [evs]. *)
Definition runOpenCodeAgent (group : RegisteredGroup) (opts_timeoutMs : option Z)
    (evs : list ProcEvent) : Proc :=
  fold_left (handle (timeoutMs group opts_timeoutMs)) evs spawned.

End WithRuntime.

End OpenCode.

(* ===================================================================== *)
(** * The ephemeral-VM runner ([tart-runner.ts], [tart-ssh-helper.ts]) *)
(* ===================================================================== *)

Module Tart.
Import Types.

(** The double quote, which a string literal of this file cannot hold. *)
Definition dq : string := String "034" EmptyString.

(** [s.replace(/"/g, '\\"')] *)
Fixpoint escape_quotes (s : string) : string :=
  match s with
  | EmptyString => EmptyString
  | String c s' =>
      if Nat.eqb (nat_of_ascii c) 34
      then String "092" (String c (escape_quotes s'))
      else String c (escape_quotes s')
  end.

(** [{stdout, stderr, exitCode}] of [executeSSH] *)
Record SSHResult : Type := mkSSHResult {
  ssh_stdout : string;
  ssh_stderr : string;
  exitCode : Z;
}.

(** What the runner does on the host, in program order. *)
Inductive Cmd : Type :=
| TartList
| TartClone (base vmName : string)
| Mkdir (path : string)
| TartRun (vmName groupDir : string)
| TartIp (vmName : string)
| Ssh (ip command : string)
| UploadConfigs (ip : string)
| ExportEnvVars (ip : string)
| TartStop (vmName : string)
| Sleep (ms : Z)
| TartDelete (vmName : string).

(** A call returns, or throws an error with a message. *)
Inductive Result (A : Type) : Type :=
| Ok (a : A)
| Err (message : string).
Arguments Ok {A} a.
Arguments Err {A} message.

(** The host as the runner meets it during one call: the clock, the
    environment variables it reads, and how each command ends: whether it
    throws (it exits with a status other than 0, cannot be spawned or times
    out) and with which message.  [tart_ip] and [ssh_echo] answer the
    polling rounds of [waitForVMIP] and [waitForSSH]; the pauses between
    the rounds are left out, and so are the steps inside [uploadConfigs]
    and [exportEnvVars]. *)
Record Host : Type := mkHost {
  now : Z;
  TART_BASE_IMAGE : string;
  GROUPS_DIR : string;
  DATA_DIR : string;
  env_AGENT_RUNTIME : option string;
  tart_list : Result string;
  throws : Cmd -> option string;
  tart_ip : nat -> option string;
  ssh_echo : nat -> option Z;
  ssh_agent : string -> Result SSHResult;
  JSON_parse : string -> option OpenCode.json;
}.

(** State (the commands so far) and exceptions. *)
Definition T (A : Type) : Type := list Cmd -> Result A * list Cmd.

Definition ret {A} (a : A) : T A := fun tr => (Ok a, tr).
Definition raise {A} (message : string) : T A := fun tr => (Err message, tr).
Definition bind {A B} (m : T A) (k : A -> T B) : T B :=
  fun tr => match m tr with
            | (Ok a, tr') => k a tr'
            | (Err e, tr') => (Err e, tr')
            end.
Definition issue (c : Cmd) : T unit := fun tr => (Ok tt, (tr ++ [c])%list).

Notation "x <- m ;; k" := (bind m (fun x => k))
  (at level 90, m at level 89, right associativity).
Notation "m ;;; k" := (bind m (fun _ => k))
  (at level 90, right associativity).

Definition path_join (a b : string) : string := a ++ "/" ++ b.

Section WithHost.
Variable h : Host.

(** A command that returns or throws. *)
Definition exec (c : Cmd) : T unit :=
  issue c ;;;
  match throws h c with
  | None => ret tt
  | Some message => raise message
  end.

(** [getAgentRuntime(group)] *)
Definition getAgentRuntime (group : RegisteredGroup) : string :=
  match truthy_opt (match containerConfig group with
                    | Some c => Types.env_AGENT_RUNTIME c
                    | None => None
                    end) with
  | Some r => r
  | None =>
      match truthy_opt (env_AGENT_RUNTIME h) with
      | Some r => r
      | None => "claude"
      end
  end.

(** [waitForVMIP(vmName)]: up to [attempts] rounds of [tart ip]. *)
Fixpoint waitForVMIP (vmName : string) (attempts i : nat) : T string :=
  match attempts with
  | O => raise ("Failed to get IP address for VM " ++ vmName ++ " after 30 attempts")
  | S n =>
      issue (TartIp vmName) ;;;
      match truthy_opt (option_map Js.trim (tart_ip h i)) with
      | Some ip => ret ip
      | None => waitForVMIP vmName n (S i)
      end
  end.

(** [waitForSSH(ip, config)]: up to [attempts] rounds of [echo hello]. *)
Fixpoint waitForSSH (ip : string) (attempts i : nat) : T unit :=
  match attempts with
  | O => raise ("Failed to establish SSH connectivity to " ++ ip ++ " after 30 attempts")
  | S n =>
      issue (Ssh ip "echo hello") ;;;
      match ssh_echo h i with
      | Some 0%Z => ret tt
      | _ => waitForSSH ip n (S i)
      end
  end.

(** The command line [executeAgentInVM] builds, or the unknown runtime. *)
Definition agent_command (runtime : string) (input : ContainerInput) : option string :=
  let quoted := dq ++ escape_quotes (prompt input) ++ dq in
  if String.eqb runtime "claude" then
    Some match truthy_opt (sessionId input) with
         | Some sid =>
             "cd ~/project && claude --dangerously-skip-permissions --session "
             ++ sid ++ " exec " ++ quoted
         | None => "cd ~/project && claude --dangerously-skip-permissions exec " ++ quoted
         end
  else if String.eqb runtime "codex" then
    Some ("cd ~/project && codex --yolo exec " ++ quoted)
  else if String.eqb runtime "opencode" then
    Some match truthy_opt (sessionId input) with
         | Some sid =>
             "cd ~/project && OPENCODE_YOLO=true opencode run --session "
             ++ sid ++ " " ++ quoted
         | None => "cd ~/project && OPENCODE_YOLO=true opencode run " ++ quoted
         end
  else None.

(** The loop of [extractSessionId]: the first line that is no JSON text
    ends it through the [catch].  An [id] that is not a string is outside
    the declared result type and is not returned. *)
Fixpoint session_in_lines (lines : list string) : option string :=
  match lines with
  | [] => None
  | line :: rest =>
      match JSON_parse h line with
      | None => None
      | Some j =>
          match OpenCode.get (Some j) "type" with
          | None => None
          | Some ty =>
              if OpenCode.is_str ty "session"
                 && OpenCode.truthy (OpenCode.get_opt (Some j) "id")
              then match OpenCode.get_opt (Some j) "id" with
                   | Some (OpenCode.JStr sid) => Some sid
                   | _ => None
                   end
              else session_in_lines rest
          end
      end
  end.

(** [extractSessionId(output, runtime)] *)
Definition extractSessionId (output runtime : string) : option string :=
  if String.eqb runtime "opencode"
  then session_in_lines (Js.split "010" output)
  else None.

(** [executeAgentInVM(ip, sshConfig, group, input, runtime)] *)
Definition executeAgentInVM (ip : string) (input : ContainerInput) (runtime : string)
    : T (string * option string) :=
  match agent_command runtime input with
  | None => raise ("Unknown runtime: " ++ runtime)
  | Some command =>
      issue (Ssh ip command) ;;;
      match ssh_agent h command with
      | Err message => raise message
      | Ok r =>
          if negb (Z.eqb (exitCode r) 0)
          then raise ("Agent execution failed with exit code " ++ pretty (exitCode r)
                      ++ ": " ++ Js.takeLast 500 (ssh_stderr r))
          else ret (ssh_stdout r, extractSessionId (ssh_stdout r) runtime)
      end
  end.

(** [nanoclaw-${group.folder}-${Date.now()}] *)
Definition vmName (group : RegisteredGroup) : string :=
  "nanoclaw-" ++ folder group ++ "-" ++ pretty (now h).

Definition symlink_command : string :=
  "ln -sfn " ++ dq ++ "/Volumes/My Shared Files/project" ++ dq ++ " ~/project".

(** The [try] block of [runTartAgent]. *)
Definition attempt (group : RegisteredGroup) (input : ContainerInput)
    : T ContainerOutput :=
  let vm := vmName group in
  issue TartList ;;;
  images <- match tart_list h with
            | Ok s => ret s
            | Err message => raise message
            end ;;
  (if Js.includes images (TART_BASE_IMAGE h) then ret tt
   else raise ("Tart base image '" ++ TART_BASE_IMAGE h
               ++ "' not found. Run scripts/prepare-tart-base.sh first.")) ;;;
  exec (TartClone (TART_BASE_IMAGE h) vm) ;;;
  let groupDir := path_join (GROUPS_DIR h) (folder group) in
  exec (Mkdir groupDir) ;;;
  exec (TartRun vm groupDir) ;;;
  vmIP <- waitForVMIP vm 30 0 ;;
  waitForSSH vmIP 30 0 ;;;
  exec (Ssh vmIP symlink_command) ;;;
  exec (UploadConfigs vmIP) ;;;
  exec (ExportEnvVars vmIP) ;;;
  let groupIpcDir := path_join (path_join (DATA_DIR h) "ipc") (folder group) in
  let groupSessionsDir :=
    path_join (path_join (path_join (DATA_DIR h) "sessions") (folder group)) ".claude" in
  exec (Mkdir (path_join groupIpcDir "messages")) ;;;
  exec (Mkdir (path_join groupIpcDir "tasks")) ;;;
  exec (Mkdir groupSessionsDir) ;;;
  result <- executeAgentInVM vmIP input (getAgentRuntime group) ;;
  ret (mkOutput Success (Some (fst result)) (snd result) None).

(** The [finally] block: [tart delete] stands in the same [try] as
    [tart stop], behind it; what the block throws is logged and dropped. *)
Definition cleanup (vm : string) : T unit :=
  fun tr =>
    match (exec (TartStop vm) ;;;
           issue (Sleep 2000) ;;;
           exec (TartDelete vm)) tr with
    | (_, tr') => (Ok tt, tr')
    end.

(** [runTartAgent(group, input)]: the output and the commands issued. *)
Definition runTartAgent (group : RegisteredGroup) (input : ContainerInput)
    : ContainerOutput * list Cmd :=
  let '(r, tr) := attempt group input [] in
  let output :=
    match r with
    | Ok output => output
    | Err message => mkOutput Error None None (Some message)
    end in
  let '(_, tr') := cleanup (vmName group) tr in
  (output, tr').

End WithHost.

End Tart.

(* ===================================================================== *)
(** * The persistent-VM runner ([vibe-runner.ts], [vibe-helper.ts]) *)
(* ===================================================================== *)

Module Vibe.
Import Types.

(** An entry of [VibeOptions.mounts]. *)
Record Mount : Type := mkMount {
  hostPath : string;
  guestPath : string;
  readonly : bool;
}.

Record VibeOptions : Type := mkVibeOptions {
  cpus : option Z;
  ram : option Z;
  mounts : option (list Mount);
  script : option string;
  timeout : option Z;
}.

(** The constants of [vibe-runner.ts] and of [config.ts]. *)
Record Settings : Type := mkSettings {
  GROUPS_DIR : string;
  DATA_DIR : string;
  VIBE_CPUS : Z;
  VIBE_RAM : Z;
  VIBE_TIMEOUT : Z;
}.

Definition path_join (a b : string) : string := a ++ "/" ++ b.

(** [x || d] on numbers: 0 is falsy. *)
Definition or_default (x : option Z) (d : Z) : Z :=
  match x with
  | Some n => if Z.eqb n 0 then d else n
  | None => d
  end.

(** [if (x)] on an optional number. *)
Definition truthy_num (x : option Z) : option Z :=
  match x with
  | Some n => if Z.eqb n 0 then None else Some n
  | None => None
  end.

Section WithSettings.
Variable st : Settings.

(** [getVibeConfig(group)] *)
Definition getVibeConfig (group : RegisteredGroup) : Z * Z * Z :=
  match containerConfig group with
  | Some c =>
      (or_default (Types.cpus c) (VIBE_CPUS st),
       or_default (Types.ram c) (VIBE_RAM st),
       or_default (Types.timeout c) (VIBE_TIMEOUT st))
  | None => (VIBE_CPUS st, VIBE_RAM st, VIBE_TIMEOUT st)
  end.

(** [mount.readonly || false] *)
Definition requested_readonly (m : AdditionalMount) : bool :=
  match Types.readonly m with
  | Some b => b
  | None => false
  end.

(** Step 4 of [runVibeAgent], "Configure mounts": the workspace, the IPC
    directory, the session directory if it exists, and then every
    additional mount of the group's configuration, as requested. *)
Definition configure_mounts (group : RegisteredGroup) (sessions_dir_exists : bool)
    : list Mount :=
  let groupDir := path_join (GROUPS_DIR st) (folder group) in
  let groupIpcDir := path_join (path_join (DATA_DIR st) "ipc") (folder group) in
  let groupSessionsDir :=
    path_join (path_join (path_join (DATA_DIR st) "sessions") (folder group)) ".claude" in
  ([ mkMount groupDir "/workspace" false;
     mkMount groupIpcDir "/ipc" false ]
   ++ (if sessions_dir_exists
       then [mkMount groupSessionsDir "/home/user/.claude" false]
       else [])
   ++ match containerConfig group with
      | Some c =>
          match additionalMounts c with
          | Some extra =>
              map (fun m => mkMount (Types.hostPath m) (containerPath m)
                              (requested_readonly m)) extra
          | None => []
          end
      | None => []
      end)%list.

(** Steps 5 and 6: the options [executeVibe] is called with. *)
Definition vibeOptions (group : RegisteredGroup) (sessions_dir_exists : bool)
    (scriptPath : string) : VibeOptions :=
  let '(c, r, t) := getVibeConfig group in
  mkVibeOptions (Some c) (Some r) (Some (configure_mounts group sessions_dir_exists))
    (Some scriptPath) (Some t).

End WithSettings.

(** The [--mount] argument of one mount. *)
Definition mount_arg (m : Mount) : string :=
  hostPath m ++ ":" ++ guestPath m ++ (if readonly m then ":read-only" else ":read-write").

(** The argument list [executeVibe(imagePath, options)] spawns [vibe] with. *)
Definition executeVibe_args (imagePath : string) (options : VibeOptions) : list string :=
  (match truthy_num (cpus options) with
   | Some n => ["--cpus"; pretty n]
   | None => []
   end
   ++ match truthy_num (ram options) with
      | Some n => ["--ram"; pretty n]
      | None => []
      end
   ++ match mounts options with
      | Some ms => concat (map (fun m => ["--mount"; mount_arg m]) ms)
      | None => []
      end
   ++ match truthy_opt (script options) with
      | Some s => ["--script"; s]
      | None => []
      end
   ++ [imagePath])%list.

End Vibe.

(* ===================================================================== *)
(** * The mount policy of the specification *)
(* ===================================================================== *)

Module MountPolicy.

Record AllowedRoot : Type := mkAllowedRoot {
  path : string;
  allowReadWrite : bool;
  description : string;
}.

(** The allowlist file: [allowedRoots], [blockedPatterns], [nonMainReadOnly]. *)
Record Allowlist : Type := mkAllowlist {
  allowedRoots : list AllowedRoot;
  blockedPatterns : list string;
  nonMainReadOnly : bool;
}.

(** Modelled from the spec: the path components the rules of
    [mount-security.ts] (not among the sources) speak of: what stands
    between the slashes. *)
Definition components (p : string) : list string :=
  List.filter Js.truthy (Js.split "/" p).

(** Modelled from the spec: a blocked pattern of [mount-security.ts] (not
    among the sources) is a glob; [*] stands for any run of characters and
    the pattern is matched against a whole component. *)
Fixpoint glob (pattern s : string) (fuel : nat) : bool :=
  match fuel with
  | O => false
  | S fuel' =>
      match pattern, s with
      | EmptyString, EmptyString => true
      | EmptyString, String _ _ => false
      | String p pattern', _ =>
          if Ascii.eqb p "*"
          then glob pattern' s fuel'
               || match s with
                  | EmptyString => false
                  | String _ s' => glob pattern s' fuel'
                  end
          else match s with
               | EmptyString => false
               | String c s' => Ascii.eqb p c && glob pattern' s' fuel'
               end
      end
  end.

Definition glob_match (pattern s : string) : bool :=
  glob pattern s (S (String.length pattern + String.length s)).

Fixpoint is_prefix (a b : list string) : bool :=
  match a, b with
  | [], _ => true
  | _ :: _, [] => false
  | x :: a', y :: b' => String.eqb x y && is_prefix a' b'
  end.

(** Modelled from the spec: rule 2 of the validation of
    [mount-security.ts] (not among the sources), "reject if any path
    component matches any [blockedPatterns]". *)
Definition blocked (policy : Allowlist) (canonical : string) : bool :=
  existsb (fun comp => existsb (fun pat => glob_match pat comp) (blockedPatterns policy))
    (components canonical).

(** Modelled from the spec: rule 3 of the validation of
    [mount-security.ts] (not among the sources), the allowed root the
    resolved path lies under, if any. *)
Definition root_of (policy : Allowlist) (canonical : string) : option AllowedRoot :=
  List.find (fun r => is_prefix (components (path r)) (components canonical))
    (allowedRoots policy).

(** Modelled from the spec: the validation of a requested mount by the
    mount policy ([mount-security.ts] is not among the sources), section
    4.2, rules 2 to 5, on a host path that rule 1 has already resolved to
    its canonical form.  [None] is [MountRejected]; otherwise the result is
    the read-only flag the mount is given. *)
Definition validate (policy : Allowlist) (privileged : bool)
    (canonical : string) (readonly : bool) : option bool :=
  if blocked policy canonical then None
  else match root_of policy canonical with
       | None => None
       | Some root =>
           Some (readonly
                 || (negb privileged && nonMainReadOnly policy)
                 || negb (allowReadWrite root))
       end.

(** Property P8 for one mount handed to a sandbox. *)
Definition safe (policy : Allowlist) (privileged : bool)
    (canonical : string) (mounted_readonly : bool) : bool :=
  negb (blocked policy canonical)
  && match root_of policy canonical with Some _ => true | None => false end
  && (if negb privileged && nonMainReadOnly policy then mounted_readonly else true).

End MountPolicy.

(* ===================================================================== *)
(** * A run in the persistent VM ([vibe-runner.ts], [vibe-helper.ts]) *)
(* ===================================================================== *)

Module VibeRun.
Import Types Vibe.

Definition LF : string := String "010" EmptyString.
Definition dq : string := String "034" EmptyString.

(** ** The output of the script ([vibe-helper.ts]) *)

Definition startMarker : string := "NANOCLAW_OUTPUT_START".
Definition endMarker : string := "NANOCLAW_OUTPUT_END".

(** The fallback of [extractVibeOutput]: the last ten lines that are
    neither blank nor noise of [vibe]. *)
Definition lastLines (stdout : string) : string :=
  let lines := List.filter Js.truthy (map Js.trim (Js.split "010" stdout)) in
  let filteredLines :=
    List.filter
      (fun l => negb (Js.startsWith l "[vibe]")
                && negb (Js.includes l "Virtualization.framework")
                && negb (String.eqb l startMarker)
                && negb (String.eqb l endMarker))
      lines in
  Js.join LF (Js.lastN 10 filteredLines).

(** [extractVibeOutput(stdout)] *)
Definition extractVibeOutput (stdout : string) : string :=
  match Js.indexOf stdout startMarker, Js.indexOf stdout endMarker with
  | Some startIdx, Some endIdx =>
      if Nat.ltb startIdx endIdx
      then Js.trim (Js.slice (startIdx + String.length startMarker) endIdx stdout)
      else lastLines stdout
  | _, _ => lastLines stdout
  end.

(** The command [createAgentScript] puts into the script, or [None] for a
    runtime it does not know. *)
Definition agent_command (prompt runtime : string) (sessionId : option string)
    : option string :=
  let quoted := dq ++ Tart.escape_quotes prompt ++ dq in
  if String.eqb runtime "claude" then
    Some match truthy_opt sessionId with
         | Some sid =>
             "claude --dangerously-skip-permissions --session " ++ sid ++ " exec " ++ quoted
         | None => "claude --dangerously-skip-permissions exec " ++ quoted
         end
  else if String.eqb runtime "codex" then
    Some ("codex --yolo exec " ++ quoted)
  else if String.eqb runtime "opencode" then
    Some match truthy_opt sessionId with
         | Some sid => "OPENCODE_YOLO=true opencode run --session " ++ sid ++ " " ++ quoted
         | None => "OPENCODE_YOLO=true opencode run " ++ quoted
         end
  else None.

(** The text of the script around the command. *)
Definition script_text (command : string) : string :=
  Js.join LF
    [ "#!/bin/bash";
      "set -e";
      "";
      "# Output markers for parsing";
      "echo " ++ dq ++ startMarker ++ dq;
      "";
      "# Source environment";
      "source ~/.bashrc 2>/dev/null || true";
      "source ~/.profile 2>/dev/null || true";
      "";
      "# Change to workspace";
      "cd /workspace || exit 1";
      "";
      "# Execute agent";
      command;
      "";
      "# End marker";
      "echo " ++ dq ++ endMarker ++ dq;
      "" ].

(** ** The host during one call *)

(** What a call does to the file system and to [vibe], in program order. *)
Inductive Op : Type :=
| MkdirP (path : string)
| CopyFile (src dst : string) (clone : bool)
| WriteScript (path text : string)
| SpawnVibe (args : list string)
| Unlink (path : string)
| CleanupTempScripts.

(** The paths that exist, and the operations so far.  [mkdirSync] with
    [recursive] is recorded for the directory it is given; the parents it
    makes on the way are not looked up by the runner. *)
Record Disk : Type := mkDisk {
  files : gset string;
  ops : list Op;
}.

(** [{exitCode, stdout, stderr}] of [executeVibe] *)
Record VibeResult : Type := mkVibeResult {
  exitCode : Z;
  vibe_stdout : string;
  vibe_stderr : string;
}.

(** The constants of [vibe-runner.ts], the clock, and how the things the
    runner starts end: whether making a directory throws (and with which
    message), whether a copy of a file that exists throws, whether the
    script cannot be written, whether [vibe] cannot be spawned, whether it
    is still running after a given number of milliseconds, the code,
    standard output and standard error it closes with when it is left to
    run, and whether [Math.random()] came out below 0.1. *)
Record Env : Type := mkEnv {
  settings : Settings;
  VIBE_BASE_IMAGE : string;
  VIBE_IMAGES_DIR : string;
  env_AGENT_RUNTIME : option string;
  now : Z;
  mkdir_throws : string -> option string;
  clone_throws : option string;
  copy_throws : option string;
  write_throws : option string;
  spawn_error : option string;
  outlives : Z -> bool;
  closes : option Z * string * string;
  random_below_tenth : bool;
  JSON_parse : string -> option OpenCode.json;
}.

(** A call returns or throws an error with a message. *)
Inductive Res (A : Type) : Type :=
| Done (a : A)
| Fail (message : string).
Arguments Done {A} a.
Arguments Fail {A} message.

Definition V (A : Type) : Type := Disk -> Res A * Disk.

Definition ret {A} (a : A) : V A := fun d => (Done a, d).
Definition raise {A} (message : string) : V A := fun d => (Fail message, d).
Definition bind {A B} (m : V A) (k : A -> V B) : V B :=
  fun d => match m d with
           | (Done a, d') => k a d'
           | (Fail e, d') => (Fail e, d')
           end.
(** [try { m } catch { h }] *)
Definition try_catch {A} (m : V A) (h : string -> V A) : V A :=
  fun d => match m d with
           | (Done a, d') => (Done a, d')
           | (Fail e, d') => h e d'
           end.
Definition record (o : Op) : V unit :=
  fun d => (Done tt, mkDisk (files d) (ops d ++ [o])%list).

Notation "x <- m ;; k" := (bind m (fun x => k))
  (at level 90, m at level 89, right associativity).
Notation "m ;;; k" := (bind m (fun _ => k))
  (at level 90, right associativity).

(** [fs.existsSync(path)] *)
Definition existsSync (path : string) : V bool :=
  fun d => (Done (bool_decide (path ∈ files d)), d).

(** [fs.mkdirSync(path, { recursive: true })]: it throws when the host
    says so ([EACCES], [ENOTDIR], ...), and makes the directory
    otherwise. *)
Definition mkdirSync (throws : option string) (path : string) : V unit :=
  record (MkdirP path) ;;;
  match throws with
  | Some message => raise message
  | None => fun d => (Done tt, mkDisk ({[ path ]} ∪ files d) (ops d))
  end.

(** [fs.copyFileSync(src, dst)], with [COPYFILE_FICLONE] or without: it
    throws [ENOENT] when the source is not there, and otherwise when the
    host says so. *)
Definition copyFileSync (throws : option string) (src dst : string) (clone : bool) : V unit :=
  record (CopyFile src dst clone) ;;;
  fun d =>
    if bool_decide (src ∈ files d)
    then match throws with
         | Some message => (Fail message, d)
         | None => (Done tt, mkDisk ({[ dst ]} ∪ files d) (ops d))
         end
    else (Fail ("ENOENT: no such file or directory, copyfile '" ++ src
                ++ "' -> '" ++ dst ++ "'"), d).

(** [fs.unlinkSync(path)] *)
Definition unlinkSync (path : string) : V unit :=
  record (Unlink path) ;;;
  fun d =>
    if bool_decide (path ∈ files d)
    then (Done tt, mkDisk (files d ∖ {[ path ]}) (ops d))
    else (Fail ("ENOENT: no such file or directory, unlink '" ++ path ++ "'"), d).

(** A file of [/tmp] whose name starts with [nanoclaw-vibe-agent-]. *)
Definition is_temp_script (path : string) : bool :=
  Js.startsWith path "/tmp/nanoclaw-vibe-agent-"
  && negb (Js.includes (Js.drop 5 path) "/").

(** [cleanupTempScripts()]: every file of [/tmp] with that prefix is
    removed; a failure to list or to unlink is swallowed by the function
    and is not modelled. *)
Definition cleanupTempScripts : V unit :=
  record CleanupTempScripts ;;;
  fun d => (Done tt, mkDisk (filter (fun p => is_temp_script p = false) (files d)) (ops d)).

Section WithEnv.
Variable e : Env.

(** [getAgentRuntime(group)] *)
Definition getAgentRuntime (group : RegisteredGroup) : string :=
  match truthy_opt (match containerConfig group with
                    | Some c => Types.env_AGENT_RUNTIME c
                    | None => None
                    end) with
  | Some r => r
  | None =>
      match truthy_opt (env_AGENT_RUNTIME e) with
      | Some r => r
      | None => "claude"
      end
  end.

(** [path.isAbsolute(VIBE_BASE_IMAGE) ? VIBE_BASE_IMAGE
     : path.join(VIBE_IMAGES_DIR, VIBE_BASE_IMAGE)] *)
Definition baseImagePath : string :=
  if Js.startsWith (VIBE_BASE_IMAGE e) "/" then VIBE_BASE_IMAGE e
  else path_join (VIBE_IMAGES_DIR e) (VIBE_BASE_IMAGE e).

(** The copy of the base image: the clone first, the plain copy if the
    clone throws. *)
Definition copy_base (imagePath : string) : V unit :=
  try_catch (copyFileSync (clone_throws e) baseImagePath imagePath true)
    (fun _ => copyFileSync (copy_throws e) baseImagePath imagePath false).

(** [getVibeImagePath(group)] *)
Definition getVibeImagePath (group : RegisteredGroup) : V string :=
  mkdirSync (mkdir_throws e (VIBE_IMAGES_DIR e)) (VIBE_IMAGES_DIR e) ;;;
  let customImage :=
    truthy_opt (match containerConfig group with
                | Some c => vibeImage c
                | None => None
                end) in
  custom <- match customImage with
            | Some image =>
                let customPath := path_join (VIBE_IMAGES_DIR e) image in
                there <- existsSync customPath ;;
                ret (if there then Some customPath else None)
            | None => ret None
            end ;;
  match custom with
  | Some customPath => ret customPath
  | None =>
      let imagePath := path_join (VIBE_IMAGES_DIR e) (folder group ++ ".raw") in
      there <- existsSync imagePath ;;
      (if there then ret tt
       else
         base_there <- existsSync baseImagePath ;;
         if base_there then copy_base imagePath
         else raise ("Vibe base image not found: " ++ baseImagePath
                     ++ ". Run scripts/prepare-vibe-base.sh first.")) ;;;
      ret imagePath
  end.

(** [createAgentScript(prompt, runtime, sessionId)] *)
Definition createAgentScript (prompt runtime : string) (sessionId : option string)
    : V string :=
  let scriptPath := "/tmp/nanoclaw-vibe-agent-" ++ pretty (now e) ++ ".sh" in
  match agent_command prompt runtime sessionId with
  | None => raise ("Unknown runtime: " ++ runtime)
  | Some command =>
      record (WriteScript scriptPath (script_text command)) ;;;
      match write_throws e with
      | Some message => raise message
      | None => fun d => (Done tt, mkDisk ({[ scriptPath ]} ∪ files d) (ops d))
      end ;;;
      ret scriptPath
  end.

(** [code || 0] *)
Definition exit_code (code : option Z) : Z :=
  match code with
  | Some c => c
  | None => 0
  end.

(** [executeVibe(imagePath, options)]: the promise is rejected when
    [vibe] cannot be spawned or, with a timer set, is still running when
    the timer fires; it is resolved when [vibe] closes. *)
Definition executeVibe (imagePath : string) (options : VibeOptions) : V VibeResult :=
  record (SpawnVibe (executeVibe_args imagePath options)) ;;;
  match spawn_error e with
  | Some message => raise message
  | None =>
      let '(code, out, err) := closes e in
      match truthy_num (timeout options) with
      | Some t =>
          if outlives e t
          then raise ("Vibe execution timed out after " ++ pretty t ++ "ms")
          else ret (mkVibeResult (exit_code code) out err)
      | None => ret (mkVibeResult (exit_code code) out err)
      end
  end.

(** The loop of [extractSessionIdFromVibeOutput]; the first line that is
    no JSON text ends it through the [catch].  An [id] that is not a
    string is outside the declared result type and is not returned. *)
Fixpoint session_in_lines (lines : list string) : option string :=
  match lines with
  | [] => None
  | line :: rest =>
      match JSON_parse e line with
      | None => None
      | Some j =>
          match OpenCode.get (Some j) "type" with
          | None => None
          | Some ty =>
              if OpenCode.is_str ty "session"
                 && OpenCode.truthy (OpenCode.get_opt (Some j) "id")
              then match OpenCode.get_opt (Some j) "id" with
                   | Some (OpenCode.JStr sid) => Some sid
                   | _ => None
                   end
              else session_in_lines rest
          end
      end
  end.

(** [extractSessionIdFromVibeOutput(output, runtime)] *)
Definition extractSessionIdFromVibeOutput (output runtime : string) : option string :=
  if String.eqb runtime "opencode"
  then session_in_lines (Js.split "010" output)
  else None.

(** The [try] block of [runVibeAgent]. *)
Definition attempt (group : RegisteredGroup) (input : ContainerInput) : V ContainerOutput :=
  let st := settings e in
  imagePath <- getVibeImagePath group ;;
  let groupDir := path_join (GROUPS_DIR st) (folder group) in
  mkdirSync (mkdir_throws e groupDir) groupDir ;;;
  let groupIpcDir := path_join (path_join (DATA_DIR st) "ipc") (folder group) in
  mkdirSync (mkdir_throws e (path_join groupIpcDir "messages"))
    (path_join groupIpcDir "messages") ;;;
  mkdirSync (mkdir_throws e (path_join groupIpcDir "tasks"))
    (path_join groupIpcDir "tasks") ;;;
  let groupSessionsDir :=
    path_join (path_join (path_join (DATA_DIR st) "sessions") (folder group)) ".claude" in
  mkdirSync (mkdir_throws e groupSessionsDir) groupSessionsDir ;;;
  let runtime := getAgentRuntime group in
  scriptPath <- createAgentScript (prompt input) runtime (sessionId input) ;;
  sessions_dir_exists <- existsSync groupSessionsDir ;;
  result <- executeVibe imagePath (vibeOptions st group sessions_dir_exists scriptPath) ;;
  try_catch (unlinkSync scriptPath) (fun _ => ret tt) ;;;
  (if random_below_tenth e then cleanupTempScripts else ret tt) ;;;
  if negb (Z.eqb (exitCode result) 0)
  then ret (mkOutput Error None None
              (Some ("Vibe exited with code " ++ pretty (exitCode result) ++ ": "
                     ++ Js.takeLast 200 (vibe_stderr result))))
  else
    let output := extractVibeOutput (vibe_stdout result) in
    ret (mkOutput Success (Some output)
           (extractSessionIdFromVibeOutput output runtime) None).

(** [runVibeAgent(group, input)] *)
Definition runVibeAgent (group : RegisteredGroup) (input : ContainerInput) (d : Disk)
    : ContainerOutput * Disk :=
  match attempt group input d with
  | (Done output, d') => (output, d')
  | (Fail message, d') => (mkOutput Error None None (Some message), d')
  end.


End WithEnv.

End VibeRun.

(* ===================================================================== *)
(** * Concrete workspaces, messages and hosts for the examples *)
(* ===================================================================== *)

Module Samples.
Import Store Types.

(** A registered group that is not the main one and has no sandbox
    configuration of its own. *)
Definition family : RegisteredGroup :=
  mkGroup "Family" "family" "@Andy" "2024-01-01T00:00:00.000Z" None None.

(** ** The router *)

Section Chat.
Import Router.

(** A concrete chat.

    The first end-to-end scenario of the specification: trigger [@Andy],
    three messages in chat [G1], the last one with the trigger. *)

Definition cfg0 : Config :=
  mkConfig "Andy" "main" true
    (fun s => Js.startsWith s "@Andy")
    (fun msgs => Js.join "|" (map content msgs)).

Definition msg0 : NewMessage :=
  mkMessage "m0" "G1@g.us" "alice@s" "Alice" "pizza tonight?" "2024-01-02T10:00:00.000Z".
Definition msg1 : NewMessage :=
  mkMessage "m1" "G1@g.us" "bob@s" "Bob" "sure" "2024-01-02T10:00:01.000Z".
Definition msg2 : NewMessage :=
  mkMessage "m2" "G1@g.us" "alice@s" "Alice" "  @Andy toppings?" "2024-01-02T10:00:02.000Z".

Definition world0 : World :=
  mkWorld EmptyString ∅ {[ "G1@g.us" := family ]} ∅ [msg2; msg0; msg1]
    EmptyString ∅ ∅ [].

(** Before the trigger arrived. *)
Definition world_quiet : World :=
  mkWorld EmptyString ∅ {[ "G1@g.us" := family ]} ∅ [msg0; msg1]
    EmptyString ∅ ∅ [].

Definition frame_hello : ContainerOutput :=
  mkOutput Success (Some "<internal>thinking</internal> hello ") (Some "S1") None.
Definition frame_silent : ContainerOutput :=
  mkOutput Success (Some " <internal>nothing to say</internal> ") None None.
Definition output_done : ContainerOutput := mkOutput Success None None None.
Definition output_timeout : ContainerOutput :=
  mkOutput Error None None (Some "Container timed out after 300000ms").

Definition agent_ok : AgentRun := mkAgentRun [frame_hello; frame_silent] (Some output_done).

(** A runner that streams nothing and resolves to an output with a reply
    that holds a block of internal reasoning. *)
Definition agent_reasoning : AgentRun := mkAgentRun [] (Some frame_hello).
Definition agent_timeout : AgentRun := mkAgentRun [frame_hello] (Some output_timeout).

(** The second scenario of the specification: two messages without the
    trigger move the watermark and nothing else; the trigger that follows
    brings all three to the agent. *)
Definition msg3 : NewMessage :=
  mkMessage "m3" "G1@g.us" "alice@s" "Alice" "hi" "2024-01-02T11:00:03.000Z".
Definition msg4 : NewMessage :=
  mkMessage "m4" "G1@g.us" "bob@s" "Bob" "yo" "2024-01-02T11:00:04.000Z".
Definition msg5 : NewMessage :=
  mkMessage "m5" "G1@g.us" "alice@s" "Alice" "@Andy?" "2024-01-02T11:00:05.000Z".

Definition world_t2 (messages : list NewMessage) : World :=
  mkWorld "2024-01-02T10:00:02.000Z" ∅ {[ "G1@g.us" := family ]}
    {[ "G1@g.us" := "2024-01-02T10:00:02.000Z" ]} messages
    "2024-01-02T10:00:02.000Z" {[ "G1@g.us" := "2024-01-02T10:00:02.000Z" ]} ∅ [].

Definition idle_queue : QueueEnv := mkQueueEnv (fun _ _ => QNoActive) (fun _ => true).
Definition broken_queue : QueueEnv := mkQueueEnv (fun _ _ => QThrows) (fun _ => false).
Definition live_queue : QueueEnv := mkQueueEnv (fun _ _ => QPiped) (fun _ => true).

End Chat.

(** ** The OpenCode runner *)

Section OpenCodeRun.
Import OpenCode.

(** A runtime for the examples: its [JSON.parse] knows the lines an
    OpenCode process printed in them. *)
Definition text_line : string := "{'type':'text','text':'Hi there'}".
Definition stop_line : string := "{'type':'step_finish','part':{'reason':'stop'}}".

Definition rt0 : Runtime :=
  mkRuntime
    (fun line =>
       if String.eqb line text_line
       then Some (JObj [("type", JStr "text"); ("text", JStr "Hi there")])
       else if String.eqb line stop_line
       then Some (JObj [("type", JStr "step_finish");
                        ("part", JObj [("reason", JStr "stop")])])
       else None)
    (fun _ => "[object Object]")
    10485760 300000 "opencode/default".

Definition LF : string := String "010" EmptyString.

(** The same runtime with an output cap of four code units. *)
Definition rt_tiny : Runtime :=
  mkRuntime (JSON_parse rt0) (ToString rt0) 4 300000 "opencode/default".

(** An output in the plain format: the answer, then a blank line, the
    session line and the token count. *)
Definition plain_output : string :=
  ("Thinking" ++ LF ++ "  The answer is 42" ++ LF ++ LF ++ "session: abc" ++ LF
   ++ "1234 tokens used")%string.

End OpenCodeRun.

(** ** The ephemeral-VM runner *)

Section TartRun.
Import Tart.

(** The base image is there and the clone is made, but the machine never
    gets an address; [tart stop] then fails on a machine that is not
    running. *)
Definition stuck_host : Host :=
  mkHost 1700000000000 "tart_nanoclaw_base" "/srv/groups" "/srv/data" None
    (Ok "local  tart_nanoclaw_base  20  stopped")
    (fun c => match c with
              | TartStop _ => Some "Command failed: tart stop nanoclaw-family-1700000000000"
              | _ => None
              end)
    (fun _ => None)
    (fun _ => None)
    (fun _ => Err "unreachable")
    (fun _ => None).

Definition hello : ContainerInput := mkInput "hello" None "family" "G1@g.us" false.

(** [tart list] does not show the base image. *)
Definition bare_host : Host :=
  mkHost 1700000000000 "tart_nanoclaw_base" "/srv/groups" "/srv/data" None
    (Ok "local  other_image  20  stopped")
    (fun _ => None)
    (fun _ => None)
    (fun _ => None)
    (fun _ => Err "unreachable")
    (fun _ => None).

(** Everything goes through: the clone has an address at the third poll,
    answers over SSH at the second, and the agent's command exits with
    code 0. *)
Definition ready_host : Host :=
  mkHost 1700000000000 "tart_nanoclaw_base" "/srv/groups" "/srv/data" None
    (Ok "local  tart_nanoclaw_base  20  stopped")
    (fun _ => None)
    (fun i => if Nat.ltb i 2 then None else Some "192.168.64.5")
    (fun i => if Nat.ltb i 1 then None else Some 0%Z)
    (fun _ => Ok (mkSSHResult "done" "" 0))
    (fun _ => None).

End TartRun.

(** ** The persistent-VM runner and the mount policy *)

Section VibeRun.
Import Vibe.

Definition settings0 : Settings :=
  mkSettings "/srv/groups" "/srv/data" 2 2048 300000.

(** The allowlist of the documentation. *)
Definition policy0 : MountPolicy.Allowlist :=
  MountPolicy.mkAllowlist
    [MountPolicy.mkAllowedRoot "/Users/me/projects" true "Development projects"]
    [".ssh"; ".gnupg"; "*.key"; ".env"]
    true.

(** A workspace that is not the main one and asks for the user's SSH
    directory, read-write. *)
Definition keys_mount : AdditionalMount :=
  mkAdditionalMount "/Users/me/.ssh" "/mnt/keys" (Some false).

Definition curious : RegisteredGroup :=
  mkGroup "Curious" "curious" "@Andy" "2024-01-01T00:00:00.000Z" None
    (Some (mkContainerConfig (Some [keys_mount]) None None None None None)).

End VibeRun.

Section VibeCall.
Import VibeRun.

(** What a [vibe] that ran the script prints. *)
Definition marked_stdout : string :=
  ("booting" ++ VibeRun.LF ++ "NANOCLAW_OUTPUT_START" ++ VibeRun.LF ++ "all done"
   ++ VibeRun.LF ++ "NANOCLAW_OUTPUT_END" ++ VibeRun.LF)%string.

(** A host on which nothing throws: [vibe] closes with code 0 before the
    timer and the clean-up of old scripts is not drawn. *)
Definition vibe_env : Env :=
  mkEnv settings0 "/srv/base.raw" "/srv/data/vibe-images" None 1700000000000
    (fun _ => None) None None None None (fun _ => false)
    (Some 0%Z, marked_stdout, EmptyString) false (fun _ => None).

(** A disk with the base image and nothing else. *)
Definition disk0 : Disk := mkDisk {[ "/srv/base.raw" ]} [].



End VibeCall.

Section DiscordChat.
Import Router Discord.

(** [storeDiscordMessage] appends the row of the message. *)
Definition discord_env : DEnv :=
  mkDEnv
    (fun msg rows =>
       (rows ++ [mkMessage (msg_id msg) (scopeId msg) (authorId msg) (authorName msg)
                   (msg_content msg) (msg_timestamp msg)])%list)
    "2024-01-01T00:00:00.000Z".

Definition dworld0 : DWorld := mkDWorld world0 ∅ [].

Definition dmsg_hello : DiscordIncomingMessage :=
  mkDiscordMessage "d1" "discord:42" "u7" "Carol" "hello <there>"
    "2024-01-03T09:00:00.000Z" (Some "general") true false.

Definition dmsg_switch : DiscordIncomingMessage :=
  mkDiscordMessage "d2" "discord:42" "u7" "Carol" "!Runtime  CODEX"
    "2024-01-03T09:01:00.000Z" (Some "general") true false.

End DiscordChat.

End Samples.

(* ===================================================================== *)
(** * Facts about the string built-ins *)
(* ===================================================================== *)

Module JsFacts.
Import Js.

Lemma truthy_true (s : string) : truthy s = true <-> s <> EmptyString.
Proof. destruct s; simpl; split; congruence. Qed.

Lemma truthy_false (s : string) : truthy s = false <-> s = EmptyString.
Proof. destruct s; simpl; split; congruence. Qed.

Lemma includes_cons (c : ascii) (s p : string) :
  includes (String c s) p = false ->
  String.prefix p (String c s) = false /\ includes s p = false.
Proof. simpl. intros H. apply orb_false_iff in H. exact H. Qed.

Lemma drop_append (a b : string) : drop (String.length a) (a ++ b) = b.
Proof. induction a as [|c a IH]; simpl; [destruct b; reflexivity|exact IH]. Qed.

Lemma prefix_append (a b : string) : String.prefix a (a ++ b) = true.
Proof.
  induction a as [|c a IH]; simpl; [destruct b; reflexivity|].
  destruct (ascii_dec c c); [exact IH|congruence].
Qed.

Lemma append_cons (c : ascii) (a b : string) : String c a ++ b = String c (a ++ b).
Proof. reflexivity. Qed.

Lemma append_nil (b : string) : EmptyString ++ b = b.
Proof. reflexivity. Qed.

(** One step of a prefix test against a pattern whose head is known. *)
Ltac prefix_step H :=
  rewrite ?append_cons, ?append_nil in H;
  cbn [String.prefix] in H |- *;
  match type of H with
  | context [ascii_dec ?x ?a] =>
      let E := fresh "E" in
      destruct (ascii_dec x a) as [E|E];
      [first [discriminate E | subst] | discriminate H]
  end.

Ltac prefix_char H p :=
  destruct p as [|? p]; [prefix_step H | prefix_step H].

(** The opening tag has its only [<] in front, so an occurrence of it cannot
    start before an occurrence and run into it. *)
Lemma open_tag_no_overlap (c : ascii) (p r : string) :
  String.prefix open_tag (String c p ++ open_tag ++ r) = true ->
  String.prefix open_tag (String c p) = true.
Proof.
  unfold open_tag. intros H. prefix_step H.
  do 9 (prefix_char H p).
  destruct p; reflexivity.
Qed.

Lemma close_tag_no_overlap (c : ascii) (p r : string) :
  String.prefix close_tag (String c p ++ close_tag ++ r) = true ->
  String.prefix close_tag (String c p) = true.
Proof.
  unfold close_tag. intros H. prefix_step H.
  do 10 (prefix_char H p).
  destruct p; reflexivity.
Qed.

Lemma after_first_body (body post : string) :
  includes body close_tag = false ->
  after_first close_tag (body ++ close_tag ++ post) = Some post.
Proof.
  induction body as [|c body IH]; intros H.
  - change (EmptyString ++ close_tag ++ post) with (close_tag ++ post).
    unfold after_first.
    destruct (close_tag ++ post) eqn:E; [discriminate E|]. rewrite <- E.
    fold after_first. rewrite prefix_append, drop_append. reflexivity.
  - apply includes_cons in H as [Hp Hi].
    change (String c body ++ close_tag ++ post)
      with (String c (body ++ close_tag ++ post)).
    cbn [after_first].
    destruct (String.prefix close_tag (String c (body ++ close_tag ++ post))) eqn:E.
    + apply (close_tag_no_overlap c body post) in E. congruence.
    + apply IH, Hi.
Qed.

(** The defining equation of the replace, without the proof argument. *)
Lemma strip_internal_cons (c : ascii) (s : string) :
  strip_internal (String c s) =
  match match_internal_here (String c s) with
  | Some rest => strip_internal rest
  | None => String c (strip_internal s)
  end.
Proof.
  simp strip_internal.
  destruct (inspect (match_internal_here (String c s))) as [[r|] e];
    simp strip_internal; rewrite e; reflexivity.
Qed.

(** The replace drops a block [<internal>body</internal>] that is the first
    one in the string, keeps what stands before it, and goes on after it. *)
Lemma strip_internal_block (pre body post : string) :
  includes pre open_tag = false ->
  includes body close_tag = false ->
  strip_internal (pre ++ open_tag ++ body ++ close_tag ++ post)
  = pre ++ strip_internal post.
Proof.
  intros Hpre Hbody. induction pre as [|c pre IH].
  - rewrite !append_nil.
    change (open_tag ++ body ++ close_tag ++ post)
      with (String "<" ("internal>" ++ body ++ close_tag ++ post)).
    rewrite strip_internal_cons.
    change (String "<" ("internal>" ++ body ++ close_tag ++ post))
      with (open_tag ++ body ++ close_tag ++ post).
    unfold match_internal_here.
    rewrite prefix_append, drop_append, (after_first_body body post Hbody).
    reflexivity.
  - apply includes_cons in Hpre as [Hp Hi].
    rewrite !append_cons, strip_internal_cons.
    unfold match_internal_here.
    destruct (String.prefix open_tag (String c (pre ++ open_tag ++ body ++ close_tag ++ post)))
      eqn:E.
    + apply (open_tag_no_overlap c pre (body ++ close_tag ++ post)) in E. congruence.
    + rewrite (IH Hi). reflexivity.
Qed.

(** A string without an opening tag passes through unchanged. *)
Lemma strip_internal_plain (s : string) :
  includes s open_tag = false -> strip_internal s = s.
Proof.
  induction s as [|c s IH]; intros H; [reflexivity|].
  apply includes_cons in H as [Hp Hi].
  rewrite strip_internal_cons. unfold match_internal_here. rewrite Hp, (IH Hi).
  reflexivity.
Qed.

End JsFacts.

(* ===================================================================== *)
(** * Lengths, slices and lines *)
(* ===================================================================== *)

Module TextFacts.
Import Js.

Lemma length_append (a b : string) :
  String.length (a ++ b) = String.length a + String.length b.
Proof.
  induction a as [|c a IH]; [reflexivity|].
  rewrite JsFacts.append_cons. cbn [String.length]. rewrite IH. reflexivity.
Qed.

Lemma take_length (n : nat) (s : string) :
  String.length (take n s) = Nat.min n (String.length s).
Proof.
  revert s. induction n as [|n IH]; intros [|c s]; simpl; try reflexivity.
  rewrite IH. reflexivity.
Qed.

Lemma append_empty_r (a : string) : a ++ EmptyString = a.
Proof.
  induction a as [|c a IH]; [reflexivity|].
  rewrite JsFacts.append_cons, IH. reflexivity.
Qed.

Lemma append_assoc (a b c : string) : (a ++ b) ++ c = a ++ (b ++ c).
Proof.
  induction a as [|x a IH]; [reflexivity|].
  rewrite !JsFacts.append_cons, IH. reflexivity.
Qed.

(** ** Lines *)

(** The code unit [c] occurs in [s]. *)
Fixpoint has_char (c : ascii) (s : string) : bool :=
  match s with
  | EmptyString => false
  | String x s' => Ascii.eqb x c || has_char c s'
  end.

Lemma split_nonempty (sep : ascii) (s : string) : split sep s <> [].
Proof.
  induction s as [|c s IH]; cbn [split]; [discriminate|].
  destruct (Ascii.eqb c sep); [discriminate|].
  destruct (split sep s); [contradiction|discriminate].
Qed.

(** A first line that holds no separator is the first piece. *)
Lemma split_first_line (sep : ascii) (line rest : string) :
  has_char sep line = false ->
  split sep (line ++ String sep rest) = line :: split sep rest.
Proof.
  induction line as [|c line IH]; intros H.
  - rewrite JsFacts.append_nil. cbn [split]. rewrite Ascii.eqb_refl. reflexivity.
  - cbn [has_char] in H. apply orb_false_iff in H as [Hc Hl].
    rewrite JsFacts.append_cons. cbn [split]. rewrite Hc, (IH Hl). reflexivity.
Qed.

Lemma split_no_separator (sep : ascii) (line : string) :
  has_char sep line = false -> split sep line = [line].
Proof.
  induction line as [|c line IH]; intros H; [reflexivity|].
  cbn [has_char] in H. apply orb_false_iff in H as [Hc Hl].
  cbn [split]. rewrite Hc, (IH Hl). reflexivity.
Qed.

(** ** The first occurrence of a marker *)

Lemma indexOf_unfold (s p : string) :
  indexOf s p =
  if String.prefix p s then Some 0
  else match s with
       | EmptyString => None
       | String _ s' => option_map S (indexOf s' p)
       end.
Proof. destruct s; reflexivity. Qed.

(** A pattern that cannot overlap a later occurrence of itself: an
    occurrence that starts in [p] and would run into the pattern lies in
    [p] altogether. *)
Definition unbordered (pat : string) : Prop :=
  forall c p r,
    String.prefix pat (String c p ++ pat ++ r) = true ->
    String.prefix pat (String c p) = true.

Lemma indexOf_first (pat pre rest : string) :
  unbordered pat ->
  includes pre pat = false ->
  indexOf (pre ++ pat ++ rest) pat = Some (String.length pre).
Proof.
  intros Hno. induction pre as [|c pre IH]; intros H.
  - rewrite JsFacts.append_nil, indexOf_unfold, JsFacts.prefix_append. reflexivity.
  - apply JsFacts.includes_cons in H as [Hp Hi].
    rewrite indexOf_unfold.
    destruct (String.prefix pat (String c pre ++ pat ++ rest)) eqn:E.
    + apply Hno in E. congruence.
    + rewrite JsFacts.append_cons, (IH Hi). reflexivity.
Qed.

Lemma take_append (a b : string) : take (String.length a) (a ++ b) = a.
Proof.
  induction a as [|c a IH]; [destruct b; reflexivity|].
  rewrite JsFacts.append_cons. cbn [String.length take]. rewrite IH. reflexivity.
Qed.

Lemma drop_add (n m : nat) (s : string) : drop (n + m) s = drop m (drop n s).
Proof.
  revert s. induction n as [|n IH]; intros s; [reflexivity|].
  destruct s as [|c s]; cbn [Nat.add drop]; [destruct m; reflexivity|apply IH].
Qed.

End TextFacts.

(* ===================================================================== *)
(** * Facts about the store queries *)
(* ===================================================================== *)

Module StoreFacts.
Import Store.

(** ** Time stamps are totally ordered *)

Lemma ascii_compare_refl (c : ascii) : Ascii.compare c c = Eq.
Proof. unfold Ascii.compare. apply N.compare_refl. Qed.

Lemma ascii_compare_lt_trans (a b c : ascii) :
  Ascii.compare a b = Lt -> Ascii.compare b c = Lt -> Ascii.compare a c = Lt.
Proof.
  unfold Ascii.compare. rewrite !N.compare_lt_iff. apply N.lt_trans.
Qed.

Lemma compare_refl (s : string) : String.compare s s = Eq.
Proof.
  induction s as [|c s IH]; simpl; [reflexivity|].
  rewrite ascii_compare_refl. exact IH.
Qed.

Lemma compare_lt_trans (a b c : string) :
  String.compare a b = Lt -> String.compare b c = Lt -> String.compare a c = Lt.
Proof.
  revert b c. induction a as [|x a IH]; intros [|y b] [|z c]; simpl; try congruence.
  destruct (Ascii.compare x y) eqn:Hxy; try discriminate.
  - apply Ascii.compare_eq_iff in Hxy. subst y.
    destruct (Ascii.compare x z) eqn:Hxz; try congruence. apply IH.
  - destruct (Ascii.compare y z) eqn:Hyz; try discriminate.
    + apply Ascii.compare_eq_iff in Hyz. subst z. rewrite Hxy. reflexivity.
    + rewrite (ascii_compare_lt_trans x y z Hxy Hyz). reflexivity.
Qed.

Lemma ts_le_refl (a : string) : ts_le a a = true.
Proof. unfold ts_le, String.leb. rewrite compare_refl. reflexivity. Qed.

Lemma ts_lt_le (a b : string) : ts_lt a b = true -> ts_le a b = true.
Proof.
  unfold ts_lt, ts_le, String.ltb, String.leb.
  destruct (String.compare a b); congruence.
Qed.

Lemma ts_le_cases (a b : string) :
  ts_le a b = true -> a = b \/ ts_lt a b = true.
Proof.
  unfold ts_lt, ts_le, String.ltb, String.leb.
  destruct (String.compare a b) eqn:H; try discriminate; intros _.
  - left. apply String.compare_eq_iff. exact H.
  - right. reflexivity.
Qed.

Lemma ts_lt_trans (a b c : string) :
  ts_lt a b = true -> ts_lt b c = true -> ts_lt a c = true.
Proof.
  unfold ts_lt, String.ltb.
  destruct (String.compare a b) eqn:Hab; try discriminate.
  destruct (String.compare b c) eqn:Hbc; try discriminate.
  rewrite (compare_lt_trans a b c Hab Hbc). reflexivity.
Qed.

Lemma ts_le_trans (a b c : string) :
  ts_le a b = true -> ts_le b c = true -> ts_le a c = true.
Proof.
  intros Hab Hbc.
  destruct (ts_le_cases _ _ Hab) as [->|Hab']; [exact Hbc|].
  destruct (ts_le_cases _ _ Hbc) as [<-|Hbc']; [exact Hab|].
  apply ts_lt_le. eapply ts_lt_trans; eassumption.
Qed.

Lemma ts_lt_le_trans (a b c : string) :
  ts_lt a b = true -> ts_le b c = true -> ts_lt a c = true.
Proof.
  intros Hab Hbc.
  destruct (ts_le_cases _ _ Hbc) as [<-|Hbc']; [exact Hab|].
  eapply ts_lt_trans; eassumption.
Qed.

Lemma ts_le_not_lt (a b : string) : ts_le a b = true -> ts_lt b a = false.
Proof.
  unfold ts_lt, ts_le, String.ltb, String.leb.
  rewrite (String.compare_antisym b a).
  destruct (String.compare a b); simpl; congruence.
Qed.

Lemma ts_le_total (a b : string) : ts_le a b = false -> ts_le b a = true.
Proof.
  intros H. destruct (String.leb_total a b) as [H'|H']; [|exact H'].
  unfold ts_le in H. congruence.
Qed.

Lemma ts_max_ge_l (a b : string) : ts_le a (ts_max a b) = true.
Proof.
  unfold ts_max. destruct (ts_lt a b) eqn:H; [apply ts_lt_le, H | apply ts_le_refl].
Qed.

(** ** [ORDER BY timestamp] keeps the rows and sorts them *)

Lemma In_insert_by_timestamp (x m : NewMessage) (l : list NewMessage) :
  In x (insert_by_timestamp m l) <-> x = m \/ In x l.
Proof.
  induction l as [|y l IH]; simpl.
  - intuition.
  - destruct (ts_le (timestamp m) (timestamp y)); simpl; rewrite ?IH; intuition.
Qed.

Lemma In_order_by_timestamp (x : NewMessage) (l : list NewMessage) :
  In x (order_by_timestamp l) <-> In x l.
Proof.
  induction l as [|y l IH]; simpl; [tauto|].
  rewrite In_insert_by_timestamp, IH. intuition.
Qed.

(** Ascending order: every row is at most every later row. *)
Inductive ascending : list NewMessage -> Prop :=
| asc_nil : ascending []
| asc_cons m l :
    (forall x, In x l -> ts_le (timestamp m) (timestamp x) = true) ->
    ascending l -> ascending (m :: l).

Lemma insert_ascending (m : NewMessage) (l : list NewMessage) :
  ascending l -> ascending (insert_by_timestamp m l).
Proof.
  induction 1 as [|y l Hy Hl IH]; simpl.
  - constructor; [intros ? []|constructor].
  - destruct (ts_le (timestamp m) (timestamp y)) eqn:Hle.
    + constructor; [|constructor; assumption].
      intros x [<-|Hx]; [exact Hle|].
      eapply ts_le_trans; [exact Hle|apply Hy, Hx].
    + constructor; [|exact IH].
      intros x Hx. apply In_insert_by_timestamp in Hx as [->|Hx]; [|apply Hy, Hx].
      apply ts_le_total, Hle.
Qed.

Lemma order_by_timestamp_ascending (l : list NewMessage) :
  ascending (order_by_timestamp l).
Proof.
  induction l as [|m l IH]; simpl; [constructor|apply insert_ascending, IH].
Qed.

Lemma last_In (y : NewMessage) (l : list NewMessage) (d : NewMessage) :
  In (List.last (y :: l) d) (y :: l).
Proof.
  revert y. induction l as [|z l IH]; intros y; [left; reflexivity|].
  right. apply IH.
Qed.

Lemma ascending_last (l : list NewMessage) (d x : NewMessage) :
  ascending l -> In x l -> ts_le (timestamp x) (timestamp (List.last l d)) = true.
Proof.
  induction 1 as [|m l Hm Hl IH]; [intros []|].
  destruct l as [|y l].
  - intros [<-|[]]. apply ts_le_refl.
  - change (List.last (m :: y :: l) d) with (List.last (y :: l) d).
    intros [<-|Hx]; [apply Hm, last_In|apply IH, Hx].
Qed.

(** ** The two queries *)

Lemma getMessagesSince_In (db : list NewMessage) (jid since self : string) (m : NewMessage) :
  In m (getMessagesSince db jid since self) <->
  In m db /\ chat_jid m = jid /\ ts_lt since (timestamp m) = true /\ sender_name m <> self.
Proof.
  unfold getMessagesSince, is_new.
  rewrite In_order_by_timestamp, filter_In, !andb_true_iff, negb_true_iff.
  rewrite String.eqb_eq, String.eqb_neq. tauto.
Qed.

Lemma getMessagesSince_ascending (db : list NewMessage) (jid since self : string) :
  ascending (getMessagesSince db jid since self).
Proof. apply order_by_timestamp_ascending. Qed.

(** Once the cursor stands at the last row of a catch-up window, none of
    the window's rows is fetched again. *)
Lemma getMessagesSince_after_last (db : list NewMessage) (jid since self : string)
    (d m : NewMessage) :
  In m (getMessagesSince db jid since self) ->
  forall db',
    ~ In m (getMessagesSince db' jid
              (timestamp (List.last (getMessagesSince db jid since self) d)) self).
Proof.
  intros Hm db' Hin.
  apply getMessagesSince_In in Hin as (_ & _ & Hlt & _).
  pose proof (ascending_last _ d m (getMessagesSince_ascending db jid since self) Hm) as Hle.
  apply ts_le_not_lt in Hle. congruence.
Qed.

(** Rows stay in every later catch-up window as long as the cursor does not
    move. *)
Lemma getMessagesSince_grows (db extra : list NewMessage) (jid since self : string)
    (m : NewMessage) :
  In m (getMessagesSince db jid since self) ->
  In m (getMessagesSince (db ++ extra) jid since self).
Proof.
  rewrite !getMessagesSince_In, in_app_iff. tauto.
Qed.

Lemma newMaxTs_In (since : string) (m : NewMessage) (rest : list NewMessage) :
  exists x, In x (m :: rest) /\ newMaxTs since (m :: rest) = timestamp x.
Proof.
  unfold newMaxTs.
  assert (G : forall (l : list NewMessage) (acc : string),
             fold_left (fun a x => ts_max a (timestamp x)) l acc = acc \/
             exists x, In x l /\
               fold_left (fun a x => ts_max a (timestamp x)) l acc = timestamp x).
  { induction l as [|y l IH]; intros acc; simpl; [left; reflexivity|].
    destruct (IH (ts_max acc (timestamp y))) as [E|(x & Hx & E)].
    - rewrite E. unfold ts_max. destruct (ts_lt acc (timestamp y));
        [right; exists y; auto | left; reflexivity].
    - right. exists x. auto. }
  destruct (G rest (timestamp m)) as [E|(x & Hx & E)].
  - exists m. split; [left; reflexivity|exact E].
  - exists x. split; [right; exact Hx|exact E].
Qed.

Lemma getNewMessages_In (db : list NewMessage) (jids : list string) (since self : string)
    (m : NewMessage) :
  In m (fst (getNewMessages db jids since self)) ->
  In m db /\ In (chat_jid m) jids /\ ts_lt since (timestamp m) = true /\ sender_name m <> self.
Proof.
  unfold getNewMessages, is_new. simpl.
  rewrite In_order_by_timestamp, filter_In, !andb_true_iff, negb_true_iff.
  rewrite String.eqb_neq, existsb_exists.
  intros (? & (x & Hx & E) & ? & ?). apply String.eqb_eq in E. subst x. tauto.
Qed.

(** The new watermark is the time stamp of one of the new rows, so it lies
    strictly after the old one. *)
Lemma getNewMessages_advances (db : list NewMessage) (jids : list string) (since self : string) :
  fst (getNewMessages db jids since self) <> [] ->
  ts_lt since (snd (getNewMessages db jids since self)) = true.
Proof.
  intros Hne.
  destruct (fst (getNewMessages db jids since self)) as [|m rest] eqn:E; [congruence|].
  assert (S : snd (getNewMessages db jids since self) = newMaxTs since (m :: rest)).
  { unfold getNewMessages in *. simpl in *. rewrite E. reflexivity. }
  rewrite S. destruct (newMaxTs_In since m rest) as (x & Hx & ->).
  rewrite <- E in Hx. apply getNewMessages_In in Hx. tauto.
Qed.

(** The new watermark is the greatest time stamp of the batch. *)
Lemma newMaxTs_upper (since : string) (msgs : list NewMessage) (x : NewMessage) :
  In x msgs -> ts_le (timestamp x) (newMaxTs since msgs) = true.
Proof.
  destruct msgs as [|m rest]; [intros []|]. unfold newMaxTs.
  assert (G : forall (l : list NewMessage) (acc : string),
             ts_le acc (fold_left (fun a y => ts_max a (timestamp y)) l acc) = true /\
             forall y, In y l ->
               ts_le (timestamp y) (fold_left (fun a y => ts_max a (timestamp y)) l acc) = true).
  { induction l as [|y l IH]; intros acc; simpl; [split; [apply ts_le_refl|intros ? []]|].
    destruct (IH (ts_max acc (timestamp y))) as [IH1 IH2]. split.
    - eapply ts_le_trans; [apply ts_max_ge_l|exact IH1].
    - intros z [<-|Hz]; [|apply IH2, Hz].
      eapply ts_le_trans; [|exact IH1].
      unfold ts_max. destruct (ts_lt acc (timestamp y)) eqn:H; [apply ts_le_refl|].
      unfold ts_lt, ts_le, String.ltb, String.leb in *.
      rewrite (String.compare_antisym (timestamp y) acc).
      destruct (String.compare acc (timestamp y)); simpl; congruence. }
  destruct (G rest (timestamp m)) as [G1 G2].
  intros [<-|Hx]; [exact G1|apply G2, Hx].
Qed.

End StoreFacts.

(* ===================================================================== *)
(** * Facts about the router *)
(* ===================================================================== *)

Module RouterFacts.
Import Store Types Router StoreFacts Samples.
Local Open Scope list_scope.

Section WithConfig.
Variable cfg : Config.

(** The events one call adds to the trace. *)
Definition events_of {A} (m : M A) (w : World) : list Event :=
  skipn (length (trace w)) (trace (snd (m w))).

(** What the streaming callback emits for one frame. *)
Definition session_events (group : RegisteredGroup) (f : ContainerOutput) : list Event :=
  match truthy_opt (newSessionId f) with
  | Some sid => [EvSetSession (folder group) sid]
  | None => []
  end.

Definition reply_events (chatJid lastTs : string) (agentTs : gmap string string)
    (f : ContainerOutput) : list Event :=
  match truthy_opt (result f) with
  | Some raw =>
      if Js.truthy (reply_text raw)
      then [EvSendMessage chatJid (reply_text raw); EvSaveState lastTs agentTs]
      else []
  | None => []
  end.

Definition frame_events (group : RegisteredGroup) (chatJid lastTs : string)
    (agentTs : gmap string string) (f : ContainerOutput) : list Event :=
  session_events group f ++ reply_events chatJid lastTs agentTs f.

Definition any_error (fs : list ContainerOutput) : bool :=
  existsb (fun f => is_error (status f)) fs.

(** The run ends in a terminal error: the runner rejects, its final output
    has status [error], or a streamed frame has. *)
Definition terminal_error (agent : AgentRun) : bool :=
  match final agent with
  | None => true
  | Some output => is_error (status output) || any_error (frames agent)
  end.

(** The fields a streamed frame leaves alone. *)
Definition same_cursors (w w' : World) : Prop :=
  lastTimestamp w' = lastTimestamp w /\
  lastAgentTimestamp w' = lastAgentTimestamp w /\
  registeredGroups w' = registeredGroups w /\
  db_messages w' = db_messages w.

(** The store holds the cursors the router has in memory. *)
Definition synced (w : World) : Prop :=
  db_last_timestamp w = lastTimestamp w /\
  db_last_agent_timestamp w = lastAgentTimestamp w.

Lemma same_cursors_refl (w : World) : same_cursors w w.
Proof. repeat split. Qed.

Lemma same_cursors_trans (a b c : World) :
  same_cursors a b -> same_cursors b c -> same_cursors a c.
Proof. unfold same_cursors. intuition congruence. Qed.

Lemma recordSession_run (groupFolder sid : string) (w : World) :
  exists w', recordSession groupFolder sid w = (Returned tt, w') /\
    trace w' = trace w ++ [EvSetSession groupFolder sid] /\
    same_cursors w w' /\
    db_last_timestamp w' = db_last_timestamp w /\
    db_last_agent_timestamp w' = db_last_agent_timestamp w /\
    sessions w' !! groupFolder = Some sid /\
    db_sessions w' !! groupFolder = Some sid.
Proof.
  eexists. split; [reflexivity|]. simpl.
  repeat split; apply lookup_insert_eq.
Qed.

Lemma saveState_run (w : World) :
  saveState w =
    (Returned tt,
     log (EvSaveState (lastTimestamp w) (lastAgentTimestamp w))
       (with_router_state (lastTimestamp w) (lastAgentTimestamp w) w)).
Proof. reflexivity. Qed.

Ltac finish :=
  repeat split; unfold synced, same_cursors in *;
  first [reflexivity | assumption | tauto | intuition congruence].

Lemma onOutput_run (group : RegisteredGroup) (chatJid : string) (h : bool)
    (f : ContainerOutput) (w : World) :
  exists w',
    onOutput group chatJid h f w =
      (Returned (if is_error (status f) then true else h), w') /\
    trace w' =
      trace w ++ frame_events group chatJid (lastTimestamp w) (lastAgentTimestamp w) f /\
    same_cursors w w' /\
    (synced w -> synced w').
Proof.
  unfold onOutput, frame_events, session_events, reply_events, bind, synced.
  destruct (truthy_opt (newSessionId f)) as [sid|].
  - destruct (recordSession_run (folder group) sid w) as (w1 & -> & Ht & Hs & D1 & D2 & _).
    destruct Hs as (H1 & H2 & H3 & H4).
    destruct (truthy_opt (result f)) as [raw|]; cbn.
    + destruct (Js.truthy (reply_text raw)); cbn.
      * eexists; split; [reflexivity|]. cbn. rewrite Ht, H1, H2, <- !app_assoc.
        finish.
      * eexists; split; [reflexivity|]. rewrite Ht, D1, D2, H1, H2.
        finish.
    + eexists; split; [reflexivity|]. rewrite Ht, D1, D2, H1, H2. finish.
  - destruct (truthy_opt (result f)) as [raw|]; cbn.
    + destruct (Js.truthy (reply_text raw)); cbn.
      * eexists; split; [reflexivity|]. cbn. rewrite <- !app_assoc. finish.
      * eexists; split; [reflexivity|]. rewrite app_nil_r. finish.
    + eexists; split; [reflexivity|]. rewrite app_nil_r. finish.
Qed.

Lemma deliver_run (group : RegisteredGroup) (chatJid : string)
    (fs : list ContainerOutput) (h : bool) (w : World) :
  exists w',
    fold_each fs (onOutput group chatJid) h w = (Returned (h || any_error fs), w') /\
    trace w' =
      trace w ++
      concat (map (frame_events group chatJid (lastTimestamp w) (lastAgentTimestamp w)) fs) /\
    same_cursors w w' /\
    (synced w -> synced w').
Proof.
  revert h w. induction fs as [|f fs IH]; intros h w; simpl.
  - exists w. rewrite orb_false_r, app_nil_r. finish.
  - unfold bind.
    destruct (onOutput_run group chatJid h f w) as (w1 & -> & Ht1 & Hs1 & Hd1).
    destruct (IH (if is_error (status f) then true else h) w1) as (w2 & -> & Ht2 & Hs2 & Hd2).
    exists w2. split; [|split; [|split]].
    + f_equal. f_equal. destruct (is_error (status f)), h; reflexivity.
    + rewrite Ht2, Ht1. destruct Hs1 as (-> & -> & _). rewrite <- app_assoc. reflexivity.
    + eapply same_cursors_trans; eassumption.
    + tauto.
Qed.

(** ** One call of [processGroupMessages] *)

(** The call goes past its three guards: the chat is registered, the
    catch-up window [m0 :: rest] is not empty, and the trigger rule lets it
    through. *)
Definition reaches_agent (w : World) (chatJid : string) (group : RegisteredGroup)
    (m0 : NewMessage) (rest : list NewMessage) : Prop :=
  registeredGroups w !! chatJid = Some group /\
  getMessagesSince (db_messages w) chatJid (cursor w chatJid) (ASSISTANT_NAME cfg)
    = m0 :: rest /\
  (needsTrigger cfg group && negb (hasTrigger cfg (m0 :: rest))) = false.

Definition agent_input (w : World) (chatJid : string) (group : RegisteredGroup)
    (missed : list NewMessage) : ContainerInput :=
  mkInput (formatMessages cfg missed) (sessions w !! folder group) (folder group)
    chatJid (String.eqb (folder group) (MAIN_GROUP_FOLDER cfg)).

(** Everything the call emits up to and including the agent invocation. *)
Definition prelude (w : World) (chatJid : string) (group : RegisteredGroup)
    (advanced : gmap string string) (missed : list NewMessage) : list Event :=
  [ EvSaveState (lastTimestamp w) advanced;
    EvSetTyping chatJid true;
    EvWriteTasksSnapshot (folder group) (String.eqb (folder group) (MAIN_GROUP_FOLDER cfg));
    EvWriteGroupsSnapshot (folder group) (String.eqb (folder group) (MAIN_GROUP_FOLDER cfg));
    EvRunAgent (folder group) (agent_input w chatJid group missed) ].

(** What follows the last streamed frame. *)
Definition epilogue (w : World) (chatJid : string) (group : RegisteredGroup)
    (advanced : gmap string string) (agent : AgentRun) : list Event :=
  match final agent with
  | Some output => session_events group output
  | None => []
  end ++
  [EvSetTyping chatJid false] ++
  (if terminal_error agent
   then [EvSaveState (lastTimestamp w) (<[chatJid := cursor w chatJid]> advanced)]
   else []).

Lemma process_run (chatJid : string) (agent : AgentRun) (w : World)
    (group : RegisteredGroup) (m0 : NewMessage) (rest : list NewMessage) :
  reaches_agent w chatJid group m0 rest ->
  let advanced :=
    <[chatJid := timestamp (List.last (m0 :: rest) m0)]> (lastAgentTimestamp w) in
  let final_cursors :=
    if terminal_error agent then <[chatJid := cursor w chatJid]> advanced else advanced in
  exists w',
    processGroupMessages cfg chatJid agent w = (Returned (negb (terminal_error agent)), w') /\
    trace w' =
      trace w ++ prelude w chatJid group advanced (m0 :: rest) ++
      concat (map (frame_events group chatJid (lastTimestamp w) advanced) (frames agent)) ++
      epilogue w chatJid group advanced agent /\
    lastAgentTimestamp w' = final_cursors /\
    db_last_agent_timestamp w' = final_cursors /\
    lastTimestamp w' = lastTimestamp w /\
    db_last_timestamp w' = lastTimestamp w /\
    registeredGroups w' = registeredGroups w /\
    db_messages w' = db_messages w.
Proof.
  intros (Hg & Hm & Ht) advanced final_cursors.
  unfold processGroupMessages, bind at 1, get at 1. cbn beta iota.
  rewrite Hg, Hm, Ht. clear Hg Hm Ht.
  unfold prelude, epilogue, agent_input, terminal_error in *.
  remember (timestamp (List.last (m0 :: rest) m0)) as tsLast eqn:EtsLast.
  remember (cursor w chatJid) as previousCursor eqn:Eprev.
  remember (formatMessages cfg (m0 :: rest)) as prompt eqn:Eprompt.
  clear EtsLast Eprev Eprompt.
  unfold bind, set_cursor, saveState, emit, modify, get, try_catch, runAgent, bind, ret, throw.
  cbn.
  match goal with
  | |- context [fold_each _ _ _ ?W] =>
      destruct (deliver_run group chatJid (frames agent) false W)
        as (w2 & E & Ht2 & Hs2 & Hd2)
  end.
  rewrite E. clear E. cbn in Ht2. fold advanced in Ht2, Hs2, Hd2 |- *.
  destruct Hs2 as (H1 & H2 & H3 & H4). simpl in H1, H2, H3, H4.
  destruct Hd2 as (D1 & D2); [split; reflexivity|]. rewrite H1 in D1. rewrite H2 in D2.
  destruct (final agent) as [output|]; cbn.
  - destruct (truthy_opt (newSessionId output)) as [sid|] eqn:Esid.
    + destruct (recordSession_run (folder group) sid w2)
        as (w3 & -> & Ht3 & (G1 & G2 & G3 & G4) & G5 & G6 & _).
      unfold session_events. rewrite Esid. cbn.
      destruct (is_error (status output)); cbn;
        [|destruct (any_error (frames agent)); cbn];
        (eexists; split; [reflexivity|]; cbn;
         rewrite ?G5, ?G6, ?Ht3, ?Ht2, ?G1, ?G2, ?G3, ?G4, ?H1, ?H2, ?H3, ?H4, ?D1, ?D2,
           <- ?app_assoc;
         repeat split; reflexivity).
    + unfold session_events. rewrite Esid. cbn.
      destruct (is_error (status output)); cbn;
        [|destruct (any_error (frames agent)); cbn];
        (eexists; split; [reflexivity|]; cbn;
         rewrite ?Ht2, ?H1, ?H2, ?H3, ?H4, ?D1, ?D2, <- ?app_assoc;
         repeat split; reflexivity).
  - eexists; split; [reflexivity|]; cbn.
    rewrite ?Ht2, ?H1, ?H2, ?H3, ?H4, ?D1, ?D2, <- ?app_assoc.
    repeat split; reflexivity.
Qed.

Lemma process_skip (chatJid : string) (agent : AgentRun) (w : World) :
  (registeredGroups w !! chatJid = None \/
   exists group,
     registeredGroups w !! chatJid = Some group /\
     (getMessagesSince (db_messages w) chatJid (cursor w chatJid) (ASSISTANT_NAME cfg) = [] \/
      (needsTrigger cfg group &&
       negb (hasTrigger cfg
               (getMessagesSince (db_messages w) chatJid (cursor w chatJid)
                  (ASSISTANT_NAME cfg)))) = true)) ->
  processGroupMessages cfg chatJid agent w = (Returned true, w).
Proof.
  unfold processGroupMessages, bind at 1, get at 1. cbn beta iota.
  intros [->|(group & -> & [->|H])]; try reflexivity.
  destruct (getMessagesSince _ _ _ _); [reflexivity|]. rewrite H. reflexivity.
Qed.

(** A call either returns at one of its guards, leaving everything as it
    was, or reaches the agent. *)
Lemma process_cases (chatJid : string) (agent : AgentRun) (w : World) :
  processGroupMessages cfg chatJid agent w = (Returned true, w) \/
  exists group m0 rest, reaches_agent w chatJid group m0 rest.
Proof.
  destruct (registeredGroups w !! chatJid) as [group|] eqn:Hg;
    [|left; apply process_skip; left; exact Hg].
  destruct (getMessagesSince (db_messages w) chatJid (cursor w chatJid) (ASSISTANT_NAME cfg))
    as [|m0 rest] eqn:Hm;
    [left; apply process_skip; right; exists group; rewrite Hm; auto|].
  destruct (needsTrigger cfg group && negb (hasTrigger cfg (m0 :: rest))) eqn:Ht.
  - left. apply process_skip. right. exists group. rewrite Hm. auto.
  - right. exists group, m0, rest. repeat split; assumption.
Qed.

Lemma frame_events_no_agent (group : RegisteredGroup) (chatJid lastTs : string)
    (agentTs : gmap string string) (fs : list ContainerOutput) (g : string)
    (i : ContainerInput) :
  ~ In (EvRunAgent g i) (concat (map (frame_events group chatJid lastTs agentTs) fs)).
Proof.
  induction fs as [|f fs IH]; simpl; [tauto|].
  rewrite in_app_iff. intros [H|H]; [|exact (IH H)].
  unfold frame_events, session_events, reply_events in H.
  apply in_app_iff in H as [H|H].
  - destruct (truthy_opt (newSessionId f)); simpl in H; intuition discriminate.
  - destruct (truthy_opt (result f)) as [raw|]; [|destruct H].
    destruct (Js.truthy (reply_text raw)); simpl in H; intuition discriminate.
Qed.

Lemma epilogue_no_agent (w : World) (chatJid : string) (group : RegisteredGroup)
    (advanced : gmap string string) (agent : AgentRun) (g : string) (i : ContainerInput) :
  ~ In (EvRunAgent g i) (epilogue w chatJid group advanced agent).
Proof.
  unfold epilogue, session_events. rewrite !in_app_iff. intros [H|[H|H]].
  - destruct (final agent) as [o|]; [|destruct H].
    destruct (truthy_opt (newSessionId o)); simpl in H; intuition discriminate.
  - simpl in H; intuition discriminate.
  - destruct (terminal_error agent); simpl in H; intuition discriminate.
Qed.

(** ** The claims about [processGroupMessages] *)

(** C1.  A run that ends in a terminal error (the runner rejects, or its
    final output or one of its streamed frames has status [error]) returns
    [false] with [lastAgentTimestamp[chatJid]] set back to [previousCursor]
    and written to the store, the other chats' cursors untouched, so the
    same catch-up window is fetched again; a run that succeeds returns
    [true] and keeps the cursor at the last pending message. *)
Theorem C1_rollback_on_terminal_error (chatJid : string) (agent : AgentRun) (w : World)
    (group : RegisteredGroup) (m0 : NewMessage) (rest : list NewMessage) :
  reaches_agent w chatJid group m0 rest ->
  exists w',
    processGroupMessages cfg chatJid agent w = (Returned (negb (terminal_error agent)), w') /\
    db_last_agent_timestamp w' = lastAgentTimestamp w' /\
    (forall jid, jid <> chatJid ->
       lastAgentTimestamp w' !! jid = lastAgentTimestamp w !! jid) /\
    (terminal_error agent = true ->
       lastAgentTimestamp w' !! chatJid = Some (cursor w chatJid) /\
       getMessagesSince (db_messages w') chatJid (cursor w' chatJid) (ASSISTANT_NAME cfg)
         = m0 :: rest) /\
    (terminal_error agent = false ->
       lastAgentTimestamp w' !! chatJid = Some (timestamp (List.last (m0 :: rest) m0))).
Proof.
  intros Hrun.
  destruct (process_run chatJid agent w group m0 rest Hrun)
    as (w' & Hp & _ & Hc & Hd & _ & _ & _ & Hm).
  exists w'. split; [exact Hp|]. split; [congruence|].
  destruct Hrun as (_ & Hmissed & _). unfold cursor at 2. rewrite Hm, Hc.
  destruct (terminal_error agent); (split; [|split]).
  - intros jid Hne. rewrite !lookup_insert_ne by congruence. reflexivity.
  - intros _. rewrite lookup_insert_eq. split; [reflexivity|exact Hmissed].
  - discriminate.
  - intros jid Hne. rewrite lookup_insert_ne by congruence. reflexivity.
  - discriminate.
  - intros _. apply lookup_insert_eq.
Qed.

(** In every run the first thing the call does is to set
    [lastAgentTimestamp[chatJid]] to the time stamp of the last pending
    message and to save the state; the agent is invoked after that, once,
    and with the cursor there no pending message of the run is fetched
    again by [getMessagesSince], whatever the store holds by then. *)
Lemma cursor_saved_before_agent (chatJid : string) (agent : AgentRun) (w : World)
    (group : RegisteredGroup) (m0 : NewMessage) (rest : list NewMessage) :
  reaches_agent w chatJid group m0 rest ->
  exists w' ok later,
    processGroupMessages cfg chatJid agent w = (Returned ok, w') /\
    trace w' =
      trace w ++
      [ EvSaveState (lastTimestamp w)
          (<[chatJid := timestamp (List.last (m0 :: rest) m0)]> (lastAgentTimestamp w));
        EvSetTyping chatJid true;
        EvWriteTasksSnapshot (folder group) (String.eqb (folder group) (MAIN_GROUP_FOLDER cfg));
        EvWriteGroupsSnapshot (folder group) (String.eqb (folder group) (MAIN_GROUP_FOLDER cfg));
        EvRunAgent (folder group) (agent_input w chatJid group (m0 :: rest)) ] ++ later /\
    (forall g i, ~ In (EvRunAgent g i) later) /\
    (forall db' m, In m (m0 :: rest) ->
       ~ In m (getMessagesSince db' chatJid (timestamp (List.last (m0 :: rest) m0))
                 (ASSISTANT_NAME cfg))).
Proof.
  intros Hrun.
  destruct (process_run chatJid agent w group m0 rest Hrun) as (w' & Hp & Ht & _).
  exists w', (negb (terminal_error agent)),
    (concat (map (frame_events group chatJid (lastTimestamp w)
                    (<[chatJid := timestamp (List.last (m0 :: rest) m0)]>
                       (lastAgentTimestamp w))) (frames agent)) ++
     epilogue w chatJid group
       (<[chatJid := timestamp (List.last (m0 :: rest) m0)]> (lastAgentTimestamp w)) agent).
  split; [exact Hp|]. split; [exact Ht|]. split.
  - intros g i. rewrite in_app_iff. intros [H|H].
    + exact (frame_events_no_agent _ _ _ _ _ _ _ H).
    + exact (epilogue_no_agent _ _ _ _ _ _ _ H).
  - intros db' m Hin. destruct Hrun as (_ & Hmissed & _). rewrite <- Hmissed in *.
    apply getMessagesSince_after_last. exact Hin.
Qed.

(** C3.  For every streamed frame that carries a (non-empty) [newSessionId],
    [setSession] is the first effect of the frame: it comes after the
    effects of the earlier frames and before the frame's own [sendMessage]
    (and the [saveState] that follows it), which come before the effects of
    the later frames. *)
Theorem C3_session_before_reply (chatJid : string) (agent : AgentRun) (w : World)
    (group : RegisteredGroup) (m0 : NewMessage) (rest : list NewMessage)
    (before after : list ContainerOutput) (f : ContainerOutput) (sid : string) :
  reaches_agent w chatJid group m0 rest ->
  frames agent = before ++ f :: after ->
  newSessionId f = Some sid -> sid <> EmptyString ->
  exists w' ok later,
    processGroupMessages cfg chatJid agent w = (Returned ok, w') /\
    trace w' =
      trace w ++
      (prelude w chatJid group
         (<[chatJid := timestamp (List.last (m0 :: rest) m0)]> (lastAgentTimestamp w))
         (m0 :: rest) ++
       concat (map (frame_events group chatJid (lastTimestamp w)
                      (<[chatJid := timestamp (List.last (m0 :: rest) m0)]>
                         (lastAgentTimestamp w))) before)) ++
      EvSetSession (folder group) sid ::
      reply_events chatJid (lastTimestamp w)
        (<[chatJid := timestamp (List.last (m0 :: rest) m0)]> (lastAgentTimestamp w)) f ++
      later /\
    (forall raw, result f = Some raw -> reply_text raw <> EmptyString ->
       reply_events chatJid (lastTimestamp w)
         (<[chatJid := timestamp (List.last (m0 :: rest) m0)]> (lastAgentTimestamp w)) f
       = [ EvSendMessage chatJid (reply_text raw);
           EvSaveState (lastTimestamp w)
             (<[chatJid := timestamp (List.last (m0 :: rest) m0)]> (lastAgentTimestamp w)) ]).
Proof.
  intros Hrun Hfr Hsid Hne.
  destruct (process_run chatJid agent w group m0 rest Hrun) as (w' & Hp & Ht & _).
  set (advanced := <[chatJid := timestamp (List.last (m0 :: rest) m0)]> (lastAgentTimestamp w))
    in *.
  exists w', (negb (terminal_error agent)),
    (concat (map (frame_events group chatJid (lastTimestamp w) advanced) after) ++
     epilogue w chatJid group advanced agent).
  split; [exact Hp|]. split.
  - rewrite Ht, Hfr, map_app, concat_app. cbn [map concat].
    unfold frame_events at 2, session_events. rewrite Hsid.
    destruct sid as [|c sid]; [congruence|]. cbn [truthy_opt Js.truthy].
    rewrite <- !app_assoc. reflexivity.
  - intros raw Hraw Htext. unfold reply_events. rewrite Hraw.
    destruct raw as [|c raw]; [exfalso; apply Htext; reflexivity|]. simpl.
    destruct (reply_text (String c raw)); [congruence|reflexivity].
Qed.

(** ** What a run sends *)

(** The messages among some events, in order. *)
Definition sent (evs : list Event) : list (string * string) :=
  flat_map (fun e => match e with
                     | EvSendMessage jid text => [(jid, text)]
                     | _ => []
                     end) evs.

Lemma sent_app (a b : list Event) : sent (a ++ b) = sent a ++ sent b.
Proof. unfold sent. apply flat_map_app. Qed.

Lemma sent_session_events (group : RegisteredGroup) (f : ContainerOutput) :
  sent (session_events group f) = [].
Proof. unfold session_events. destruct (truthy_opt (newSessionId f)); reflexivity. Qed.

(** What a frame has for the channel: its result with the
    [<internal>...</internal>] blocks cut out, trimmed, unless nothing is
    left. *)
Definition surfaced (chatJid : string) (f : ContainerOutput) : list (string * string) :=
  match result f with
  | Some raw =>
      if Js.truthy (Js.trim (Js.strip_internal raw))
      then [(chatJid, Js.trim (Js.strip_internal raw))]
      else []
  | None => []
  end.

Lemma sent_frame_events (group : RegisteredGroup) (chatJid lastTs : string)
    (agentTs : gmap string string) (f : ContainerOutput) :
  sent (frame_events group chatJid lastTs agentTs f) = surfaced chatJid f.
Proof.
  unfold frame_events. rewrite sent_app, sent_session_events. cbn [app].
  unfold reply_events, surfaced, reply_text.
  destruct (result f) as [[|c raw]|]; cbn [truthy_opt Js.truthy].
  - rewrite (JsFacts.strip_internal_plain EmptyString eq_refl). reflexivity.
  - destruct (Js.truthy (Js.trim (Js.strip_internal (String c raw)))); reflexivity.
  - reflexivity.
Qed.

Lemma sent_prelude (w : World) (chatJid : string) (group : RegisteredGroup)
    (advanced : gmap string string) (missed : list NewMessage) :
  sent (prelude w chatJid group advanced missed) = [].
Proof. reflexivity. Qed.

Lemma sent_epilogue (w : World) (chatJid : string) (group : RegisteredGroup)
    (advanced : gmap string string) (agent : AgentRun) :
  sent (epilogue w chatJid group advanced agent) = [].
Proof.
  unfold epilogue. rewrite !sent_app.
  destruct (final agent); [rewrite sent_session_events|];
    destruct (terminal_error agent); reflexivity.
Qed.

Lemma sent_frames (group : RegisteredGroup) (chatJid lastTs : string)
    (agentTs : gmap string string) (fs : list ContainerOutput) :
  sent (concat (map (frame_events group chatJid lastTs agentTs) fs))
  = flat_map (surfaced chatJid) fs.
Proof.
  induction fs as [|f fs IH]; [reflexivity|].
  cbn [map concat flat_map]. rewrite sent_app, sent_frame_events, IH. reflexivity.
Qed.

(** The messages a run sends are, in the order of the streamed frames,
    the results of the frames with their [<internal>...</internal>]
    blocks cut out, trimmed; a frame of which nothing is left, or which
    has no result, sends nothing, and neither does the final output.
    All of them go to the chat of the run.  The cut removes a block,
    keeps what stands before the first one and goes on behind it. *)
Theorem replies_are_stripped_results (chatJid : string) (agent : AgentRun) (w : World)
    (group : RegisteredGroup) (m0 : NewMessage) (rest : list NewMessage) :
  reaches_agent w chatJid group m0 rest ->
  sent (events_of (processGroupMessages cfg chatJid agent) w) =
    flat_map (fun f =>
                match result f with
                | Some raw =>
                    if Js.truthy (Js.trim (Js.strip_internal raw))
                    then [(chatJid, Js.trim (Js.strip_internal raw))]
                    else []
                | None => []
                end) (frames agent) /\
  (forall pre body post,
     Js.includes pre Js.open_tag = false ->
     Js.includes body Js.close_tag = false ->
     Js.strip_internal (pre ++ Js.open_tag ++ body ++ Js.close_tag ++ post)%string
     = (pre ++ Js.strip_internal post)%string) /\
  (forall s, Js.includes s Js.open_tag = false -> Js.strip_internal s = s).
Proof.
  intros Hrun.
  destruct (process_run chatJid agent w group m0 rest Hrun) as (w' & Hp & Ht & _).
  split; [|split; [exact JsFacts.strip_internal_block|exact JsFacts.strip_internal_plain]].
  assert (E : events_of (processGroupMessages cfg chatJid agent) w =
              prelude w chatJid group
                (<[chatJid := timestamp (List.last (m0 :: rest) m0)]> (lastAgentTimestamp w))
                (m0 :: rest) ++
              concat (map (frame_events group chatJid (lastTimestamp w)
                             (<[chatJid := timestamp (List.last (m0 :: rest) m0)]>
                                (lastAgentTimestamp w))) (frames agent)) ++
              epilogue w chatJid group
                (<[chatJid := timestamp (List.last (m0 :: rest) m0)]> (lastAgentTimestamp w))
                agent).
  { unfold events_of. rewrite Hp. cbn [snd].
    rewrite Ht, List.skipn_app, Nat.sub_diag, List.skipn_all. reflexivity. }
  rewrite E, !sent_app, sent_prelude, sent_epilogue, sent_frames, app_nil_r. reflexivity.
Qed.

Lemma events_of_app {A} (m : M A) (w : World) (evs : list Event) :
  trace (snd (m w)) = trace w ++ evs -> events_of m w = evs.
Proof.
  unfold events_of. intros ->. rewrite skipn_app, skipn_all, Nat.sub_diag. reflexivity.
Qed.

Lemma events_of_skip {A} (m : M A) (w : World) (a : Outcome A) :
  m w = (a, w) -> events_of m w = [].
Proof.
  intros H. apply events_of_app. rewrite H, app_nil_r. reflexivity.
Qed.

Lemma process_events (chatJid : string) (agent : AgentRun) (w : World)
    (group : RegisteredGroup) (m0 : NewMessage) (rest : list NewMessage) :
  reaches_agent w chatJid group m0 rest ->
  forall g i,
    In (EvRunAgent g i) (events_of (processGroupMessages cfg chatJid agent) w) ->
    i = agent_input w chatJid group (m0 :: rest).
Proof.
  intros Hrun g i.
  destruct (process_run chatJid agent w group m0 rest Hrun) as (w' & Hp & Ht & _).
  rewrite (events_of_app _ w _ (eq_trans (f_equal trace (f_equal snd Hp)) Ht)).
  rewrite !in_app_iff. intros [H|[H|H]].
  - unfold prelude in H. simpl in H.
    destruct H as [[=]|[[=]|[[=]|[[=]|[[= _ <-]|[]]]]]]. reflexivity.
  - destruct (frame_events_no_agent _ _ _ _ _ _ _ H).
  - destruct (epilogue_no_agent _ _ _ _ _ _ _ H).
Qed.

Lemma loopGroup_skip (q : QueueEnv) (chatJid : string) (batch : list NewMessage)
    (w : World) (group : RegisteredGroup) :
  registeredGroups w !! chatJid = Some group ->
  needsTrigger cfg group = true ->
  hasTrigger cfg batch = false ->
  loopGroup cfg q (chatJid, batch) w = (Returned tt, w).
Proof.
  intros Hg Hn Ht. unfold loopGroup, bind, get. rewrite Hg, Hn, Ht. reflexivity.
Qed.

(** C4.  For a workspace that needs a trigger: a call of
    [processGroupMessages] invokes the agent only if some pending message,
    trimmed, matches the trigger pattern; when none matches, the call (and
    the message loop's handling of a batch without a trigger) returns with
    the state, the cursors and the store as they were, and an invocation
    that follows later, with more messages in the store, is given a prompt
    made from a catch-up window that still holds every skipped message. *)
Theorem C4_trigger_gate (chatJid : string) (w : World) (group : RegisteredGroup) :
  registeredGroups w !! chatJid = Some group ->
  needsTrigger cfg group = true ->
  (forall agent g i,
     In (EvRunAgent g i) (events_of (processGroupMessages cfg chatJid agent) w) ->
     exists m,
       In m (getMessagesSince (db_messages w) chatJid (cursor w chatJid) (ASSISTANT_NAME cfg)) /\
       TRIGGER_PATTERN cfg (Js.trim (content m)) = true) /\
  (hasTrigger cfg
     (getMessagesSince (db_messages w) chatJid (cursor w chatJid) (ASSISTANT_NAME cfg)) = false ->
   (forall agent, processGroupMessages cfg chatJid agent w = (Returned true, w)) /\
   (forall extra agent g i,
      In (EvRunAgent g i)
        (events_of (processGroupMessages cfg chatJid agent)
           (with_db_messages (db_messages w ++ extra) w)) ->
      exists window,
        prompt i = formatMessages cfg window /\
        forall m,
          In m (getMessagesSince (db_messages w) chatJid (cursor w chatJid)
                  (ASSISTANT_NAME cfg)) ->
          In m window)) /\
  (forall q batch,
     hasTrigger cfg batch = false ->
     loopGroup cfg q (chatJid, batch) w = (Returned tt, w)).
Proof.
  intros Hg Hn. split; [|split].
  - intros agent g i Hin.
    destruct (process_cases chatJid agent w) as [Hskip|(group' & m0 & rest & Hrun)].
    + rewrite (events_of_skip _ _ _ Hskip) in Hin. destruct Hin.
    + destruct Hrun as (Hg' & Hm & Ht). rewrite Hg in Hg'. injection Hg' as <-.
      rewrite Hn in Ht. cbn [andb] in Ht. apply negb_false_iff in Ht.
      unfold hasTrigger in Ht. apply existsb_exists in Ht as (m & Hin' & Hm').
      exists m. rewrite Hm. auto.
  - intros Hno. split.
    + intros agent. apply process_skip. right. exists group. split; [exact Hg|].
      right. rewrite Hn, Hno. reflexivity.
    + intros extra agent g i Hin.
      destruct (process_cases chatJid agent (with_db_messages (db_messages w ++ extra) w))
        as [Hskip|(group' & m0 & rest & Hrun)].
      * rewrite (events_of_skip _ _ _ Hskip) in Hin. destruct Hin.
      * rewrite (process_events _ _ _ _ _ _ Hrun g i Hin).
        exists (m0 :: rest). split; [reflexivity|].
        destruct Hrun as (_ & Hm & _). simpl in Hm.
        change (cursor (with_db_messages (db_messages w ++ extra) w) chatJid)
          with (cursor w chatJid) in Hm.
        rewrite <- Hm. intros m. apply getMessagesSince_grows.
  - intros q batch Hno. exact (loopGroup_skip q chatJid batch w group Hg Hn Hno).
Qed.

(** ** One iteration of the message loop *)

(** What each step of the per-group loop keeps: the watermark, the store's
    copy of it once it is there, the messages, and the events so far. *)
Definition keeps_watermark (w w' : World) : Prop :=
  lastTimestamp w' = lastTimestamp w /\
  (db_last_timestamp w = lastTimestamp w -> db_last_timestamp w' = lastTimestamp w') /\
  db_messages w' = db_messages w /\
  exists evs, trace w' = trace w ++ evs.

Lemma keeps_watermark_refl (w : World) : keeps_watermark w w.
Proof.
  split; [reflexivity|]. split; [tauto|]. split; [reflexivity|].
  exists []. rewrite app_nil_r. reflexivity.
Qed.

Lemma keeps_watermark_trans (a b c : World) :
  keeps_watermark a b -> keeps_watermark b c -> keeps_watermark a c.
Proof.
  intros (H1 & H2 & H3 & e1 & H4) (G1 & G2 & G3 & e2 & G4).
  split; [congruence|]. split; [|split; [congruence|]].
  - intros H. apply G2, H2, H.
  - exists (e1 ++ e2). rewrite G4, H4, app_assoc. reflexivity.
Qed.

Definition preserves {A} (m : M A) : Prop :=
  forall w, keeps_watermark w (snd (m w)).

Lemma preserves_ret {A} (a : A) : preserves (ret a).
Proof. intros w. apply keeps_watermark_refl. Qed.

Lemma preserves_throw {A} : preserves (@throw A).
Proof. intros w. apply keeps_watermark_refl. Qed.

Lemma preserves_emit (e : Event) : preserves (emit e).
Proof.
  intros w. split; [reflexivity|]. split; [intro H; exact H|]. split; [reflexivity|].
  exists [e]. reflexivity.
Qed.

Lemma preserves_set_cursor (chatJid ts : string) : preserves (set_cursor chatJid ts).
Proof.
  intros w. split; [reflexivity|]. split; [intro H; exact H|]. split; [reflexivity|].
  exists []. rewrite app_nil_r. reflexivity.
Qed.

Lemma preserves_saveState : preserves saveState.
Proof.
  intros w. split; [reflexivity|]. split; [reflexivity|]. split; [reflexivity|].
  eexists. reflexivity.
Qed.

Lemma preserves_bind {A B} (m : M A) (k : A -> M B) :
  preserves m -> (forall a, preserves (k a)) -> preserves (bind m k).
Proof.
  intros Hm Hk w. unfold bind. specialize (Hm w).
  destruct (m w) as [[a|] w1]; simpl in *; [|exact Hm].
  eapply keeps_watermark_trans; [exact Hm|apply Hk].
Qed.

Create HintDb preserves.
#[local] Hint Resolve preserves_ret preserves_throw preserves_emit preserves_set_cursor
  preserves_saveState : preserves.

Lemma preserves_loopGroup (q : QueueEnv) (entry : string * list NewMessage) :
  preserves (loopGroup cfg q entry).
Proof.
  destruct entry as [chatJid batch]. intros w.
  unfold loopGroup, bind at 1, get at 1. cbn beta iota.
  destruct (registeredGroups w !! chatJid) as [group|]; [|apply preserves_ret].
  destruct (needsTrigger cfg group && negb (hasTrigger cfg batch)); [apply preserves_ret|].
  destruct (queue_sendMessage q chatJid _).
  - apply preserves_bind; [auto with preserves|]. intros _.
    destruct (List.last _ None); [|auto with preserves].
    apply preserves_bind; [auto with preserves|]. intros _. auto with preserves.
  - destruct (queue_enqueue_ok q chatJid); [apply preserves_emit|apply preserves_throw].
  - apply preserves_throw.
Qed.

Lemma loopGroup_keeps (q : QueueEnv) (entry : string * list NewMessage) (w : World) :
  keeps_watermark w (snd (loopGroup cfg q entry w)).
Proof. apply preserves_loopGroup. Qed.

Lemma for_each_keeps (q : QueueEnv) (entries : list (string * list NewMessage)) (w : World) :
  keeps_watermark w (snd (for_each entries (loopGroup cfg q) w)).
Proof.
  revert w. induction entries as [|e es IH]; intros w; simpl.
  - apply keeps_watermark_refl.
  - unfold bind. pose proof (loopGroup_keeps q e w) as H.
    destruct (loopGroup cfg q e w) as [[[]|] w1]; simpl in H |- *.
    + eapply keeps_watermark_trans; [exact H|apply IH].
    + exact H.
Qed.

(** The state in which the per-group loop of a tick starts. *)
Definition seen (newTimestamp : string) (w : World) : World :=
  log (EvSaveState newTimestamp (lastAgentTimestamp w))
    (with_router_state newTimestamp (lastAgentTimestamp w)
       (with_lastTimestamp newTimestamp w)).

Lemma tick_unfold (q : QueueEnv) (w : World) :
  messageLoopTick cfg q w =
  match getNewMessages (db_messages w) (map_to_list (registeredGroups w)).*1
          (lastTimestamp w) (ASSISTANT_NAME cfg) with
  | ([], _) => (Returned tt, w)
  | (m :: msgs, newTimestamp) =>
      try_catch (for_each (messagesByGroup (m :: msgs)) (loopGroup cfg q)) (ret tt)
        (seen newTimestamp w)
  end.
Proof.
  unfold messageLoopTick, try_catch, bind at 1, get at 1. cbn beta iota.
  destruct (getNewMessages _ _ _ _) as [[|m msgs] newTs]; [reflexivity|].
  unfold bind, modify, saveState, bind, get, emit, modify, ret. cbn.
  unfold seen. destruct (for_each _ _ _) as [[[]|] w']; reflexivity.
Qed.

Lemma try_catch_keeps (q : QueueEnv) (entries : list (string * list NewMessage)) (w : World) :
  fst (try_catch (for_each entries (loopGroup cfg q)) (ret tt) w) = Returned tt /\
  keeps_watermark w (snd (try_catch (for_each entries (loopGroup cfg q)) (ret tt) w)).
Proof.
  pose proof (for_each_keeps q entries w) as H. unfold try_catch, ret.
  destruct (for_each entries (loopGroup cfg q) w) as [[[]|] w']; simpl in *; auto.
Qed.

Lemma tick_monotone (q : QueueEnv) (w : World) :
  ts_le (lastTimestamp w) (lastTimestamp (snd (messageLoopTick cfg q w))) = true.
Proof.
  rewrite tick_unfold.
  destruct (getNewMessages _ _ _ _) as [[|m msgs] newTs] eqn:E; [apply ts_le_refl|].
  destruct (try_catch_keeps q (messagesByGroup (m :: msgs)) (seen newTs w)) as (_ & -> & _).
  simpl. apply ts_lt_le.
  pose proof (getNewMessages_advances (db_messages w) (map_to_list (registeredGroups w)).*1
                (lastTimestamp w) (ASSISTANT_NAME cfg)) as H.
  rewrite E in H. apply H. discriminate.
Qed.

(** The router at work: a channel stores an inbound message, the message
    loop ticks, the queue runs [processGroupMessages] for a chat. *)
Inductive step : World -> World -> Prop :=
| step_store (m : NewMessage) (w : World) :
    step w (with_db_messages (db_messages w ++ [m]) w)
| step_tick (q : QueueEnv) (w : World) :
    step w (snd (messageLoopTick cfg q w))
| step_process (chatJid : string) (agent : AgentRun) (w : World) :
    step w (snd (processGroupMessages cfg chatJid agent w)).

Lemma process_keeps_lastTimestamp (chatJid : string) (agent : AgentRun) (w : World) :
  lastTimestamp (snd (processGroupMessages cfg chatJid agent w)) = lastTimestamp w.
Proof.
  destruct (process_cases chatJid agent w) as [->|(group & m0 & rest & Hrun)];
    [reflexivity|].
  destruct (process_run chatJid agent w group m0 rest Hrun) as (w' & -> & _ & _ & _ & H & _).
  exact H.
Qed.

Lemma step_monotone (w w' : World) :
  step w w' -> ts_le (lastTimestamp w) (lastTimestamp w') = true.
Proof.
  destruct 1.
  - apply ts_le_refl.
  - apply tick_monotone.
  - rewrite process_keeps_lastTimestamp. apply ts_le_refl.
Qed.

Lemma steps_monotone (w w' : World) :
  rtc step w w' -> ts_le (lastTimestamp w) (lastTimestamp w') = true.
Proof.
  induction 1 as [|a b c Hab _ IH]; [apply ts_le_refl|].
  eapply ts_le_trans; [apply step_monotone, Hab|exact IH].
Qed.

(** C6.  In a tick whose batch of new messages is not empty, the first
    effect is [saveState] with [lastTimestamp] already set to the batch's
    greatest time stamp, and the whole per-group loop (trigger checks,
    piping, enqueueing) runs from that state; whether or not a later step
    throws, the tick returns with [lastTimestamp] and its stored copy at
    that value.  Over a tick, and over any sequence of stored messages,
    ticks and runs, [lastTimestamp] never decreases. *)
Theorem C6_seen_watermark_first_and_monotone (q : QueueEnv) (w : World) :
  (forall m msgs newTimestamp,
     getNewMessages (db_messages w) (map_to_list (registeredGroups w)).*1
       (lastTimestamp w) (ASSISTANT_NAME cfg) = (m :: msgs, newTimestamp) ->
     (forall x, In x (m :: msgs) -> ts_le (timestamp x) newTimestamp = true) /\
     (exists x, In x (m :: msgs) /\ newTimestamp = timestamp x) /\
     messageLoopTick cfg q w =
       try_catch (for_each (messagesByGroup (m :: msgs)) (loopGroup cfg q)) (ret tt)
         (log (EvSaveState newTimestamp (lastAgentTimestamp w))
            (with_router_state newTimestamp (lastAgentTimestamp w)
               (with_lastTimestamp newTimestamp w))) /\
     (exists later,
        trace (snd (messageLoopTick cfg q w)) =
          trace w ++ EvSaveState newTimestamp (lastAgentTimestamp w) :: later) /\
     lastTimestamp (snd (messageLoopTick cfg q w)) = newTimestamp /\
     db_last_timestamp (snd (messageLoopTick cfg q w)) = newTimestamp) /\
  fst (messageLoopTick cfg q w) = Returned tt /\
  ts_le (lastTimestamp w) (lastTimestamp (snd (messageLoopTick cfg q w))) = true /\
  (forall w', rtc step w w' -> ts_le (lastTimestamp w) (lastTimestamp w') = true).
Proof.
  split; [|split; [|split]].
  - intros m msgs newTs E.
    assert (EnewTs : newTs = newMaxTs (lastTimestamp w) (m :: msgs)).
    { unfold getNewMessages in E. injection E as E1 E2. rewrite E1 in E2. congruence. }
    split; [|split; [|split; [|split; [|split]]]].
    + intros x Hx. rewrite EnewTs. apply newMaxTs_upper, Hx.
    + destruct (newMaxTs_In (lastTimestamp w) m msgs) as (x & Hx & Ex).
      exists x. split; [exact Hx|congruence].
    + rewrite tick_unfold, E. reflexivity.
    + rewrite tick_unfold, E.
      destruct (try_catch_keeps q (messagesByGroup (m :: msgs)) (seen newTs w))
        as (_ & _ & _ & _ & evs & ->).
      exists evs. simpl. rewrite <- app_assoc. reflexivity.
    + rewrite tick_unfold, E.
      destruct (try_catch_keeps q (messagesByGroup (m :: msgs)) (seen newTs w))
        as (_ & -> & _). reflexivity.
    + rewrite tick_unfold, E.
      destruct (try_catch_keeps q (messagesByGroup (m :: msgs)) (seen newTs w))
        as (_ & Hl & Hd & _). rewrite Hd, Hl; reflexivity.
  - rewrite tick_unfold. destruct (getNewMessages _ _ _ _) as [[|m msgs] newTs];
      [reflexivity|]. apply try_catch_keeps.
  - apply tick_monotone.
  - apply steps_monotone.
Qed.

End WithConfig.

(** ** A concrete chat *)

Lemma world0_reaches_agent : reaches_agent cfg0 world0 "G1@g.us" family msg0 [msg1; msg2].
Proof. split; [|split]; vm_compute; reflexivity. Defined.

Lemma family_needs_trigger : needsTrigger cfg0 family = true.
Proof. reflexivity. Defined.

Example world0_run_ok :
  processGroupMessages cfg0 "G1@g.us" agent_ok world0 =
  (Returned true,
   mkWorld EmptyString {[ "family" := "S1" ]} {[ "G1@g.us" := family ]}
     {[ "G1@g.us" := "2024-01-02T10:00:02.000Z" ]} [msg2; msg0; msg1]
     EmptyString {[ "G1@g.us" := "2024-01-02T10:00:02.000Z" ]} {[ "family" := "S1" ]}
     [ EvSaveState EmptyString {[ "G1@g.us" := "2024-01-02T10:00:02.000Z" ]};
       EvSetTyping "G1@g.us" true;
       EvWriteTasksSnapshot "family" false;
       EvWriteGroupsSnapshot "family" false;
       EvRunAgent "family"
         (mkInput "pizza tonight?|sure|  @Andy toppings?" None "family" "G1@g.us" false);
       EvSetSession "family" "S1";
       EvSendMessage "G1@g.us" "hello";
       EvSaveState EmptyString {[ "G1@g.us" := "2024-01-02T10:00:02.000Z" ]};
       EvSetTyping "G1@g.us" false ]).
Proof. vm_compute. reflexivity. Qed.

Example world0_run_timeout :
  cursor (snd (processGroupMessages cfg0 "G1@g.us" agent_timeout world0)) "G1@g.us"
  = EmptyString /\
  fst (processGroupMessages cfg0 "G1@g.us" agent_timeout world0) = Returned false.
Proof. vm_compute. split; reflexivity. Qed.

Example world_quiet_skipped :
  processGroupMessages cfg0 "G1@g.us" agent_ok world_quiet = (Returned true, world_quiet).
Proof. vm_compute. reflexivity. Qed.

Example tick_without_trigger :
  messageLoopTick cfg0 idle_queue (world_t2 [msg0; msg1; msg2; msg3; msg4]) =
  (Returned tt,
   mkWorld "2024-01-02T11:00:04.000Z" ∅ {[ "G1@g.us" := family ]}
     {[ "G1@g.us" := "2024-01-02T10:00:02.000Z" ]} [msg0; msg1; msg2; msg3; msg4]
     "2024-01-02T11:00:04.000Z" {[ "G1@g.us" := "2024-01-02T10:00:02.000Z" ]} ∅
     [EvSaveState "2024-01-02T11:00:04.000Z" {[ "G1@g.us" := "2024-01-02T10:00:02.000Z" ]}]).
Proof. vm_compute. reflexivity. Qed.

Example tick_with_failing_queue :
  messageLoopTick cfg0 broken_queue (world_t2 [msg0; msg1; msg2; msg3; msg4; msg5]) =
  (Returned tt,
   mkWorld "2024-01-02T11:00:05.000Z" ∅ {[ "G1@g.us" := family ]}
     {[ "G1@g.us" := "2024-01-02T10:00:02.000Z" ]} [msg0; msg1; msg2; msg3; msg4; msg5]
     "2024-01-02T11:00:05.000Z" {[ "G1@g.us" := "2024-01-02T10:00:02.000Z" ]} ∅
     [EvSaveState "2024-01-02T11:00:05.000Z" {[ "G1@g.us" := "2024-01-02T10:00:02.000Z" ]}]).
Proof. vm_compute. reflexivity. Qed.

Example run_after_trigger :
  events_of (processGroupMessages cfg0 "G1@g.us" (mkAgentRun [] (Some output_done)))
    (world_t2 [msg0; msg1; msg2; msg3; msg4; msg5]) =
  [ EvSaveState "2024-01-02T10:00:02.000Z" {[ "G1@g.us" := "2024-01-02T11:00:05.000Z" ]};
    EvSetTyping "G1@g.us" true;
    EvWriteTasksSnapshot "family" false;
    EvWriteGroupsSnapshot "family" false;
    EvRunAgent "family" (mkInput "hi|yo|@Andy?" None "family" "G1@g.us" false);
    EvSetTyping "G1@g.us" false ].
Proof. vm_compute. reflexivity. Qed.

Lemma C1_rollback_witness :
  exists w',
    processGroupMessages cfg0 "G1@g.us" agent_timeout world0
      = (Returned (negb (terminal_error agent_timeout)), w') /\
    db_last_agent_timestamp w' = lastAgentTimestamp w' /\
    (forall jid, jid <> "G1@g.us" ->
       lastAgentTimestamp w' !! jid = lastAgentTimestamp world0 !! jid) /\
    (terminal_error agent_timeout = true ->
       lastAgentTimestamp w' !! "G1@g.us" = Some (cursor world0 "G1@g.us") /\
       getMessagesSince (db_messages w') "G1@g.us" (cursor w' "G1@g.us")
         (ASSISTANT_NAME cfg0) = [msg0; msg1; msg2]) /\
    (terminal_error agent_timeout = false ->
       lastAgentTimestamp w' !! "G1@g.us"
       = Some (timestamp (List.last [msg0; msg1; msg2] msg0))).
Proof.
  exact (C1_rollback_on_terminal_error cfg0 "G1@g.us" agent_timeout world0
           family msg0 [msg1; msg2] world0_reaches_agent).
Defined.

Lemma C3_session_witness :
  exists w' ok later,
    processGroupMessages cfg0 "G1@g.us" agent_ok world0 = (Returned ok, w') /\
    trace w' =
      trace world0 ++
      (prelude cfg0 world0 "G1@g.us" family
         (<["G1@g.us" := timestamp (List.last [msg0; msg1; msg2] msg0)]>
            (lastAgentTimestamp world0))
         [msg0; msg1; msg2] ++
       concat (map (frame_events family "G1@g.us" (lastTimestamp world0)
                      (<["G1@g.us" := timestamp (List.last [msg0; msg1; msg2] msg0)]>
                         (lastAgentTimestamp world0))) [])) ++
      EvSetSession (folder family) "S1" ::
      reply_events "G1@g.us" (lastTimestamp world0)
        (<["G1@g.us" := timestamp (List.last [msg0; msg1; msg2] msg0)]>
           (lastAgentTimestamp world0)) frame_hello ++
      later /\
    (forall raw, result frame_hello = Some raw -> reply_text raw <> EmptyString ->
       reply_events "G1@g.us" (lastTimestamp world0)
         (<["G1@g.us" := timestamp (List.last [msg0; msg1; msg2] msg0)]>
            (lastAgentTimestamp world0)) frame_hello
       = [ EvSendMessage "G1@g.us" (reply_text raw);
           EvSaveState (lastTimestamp world0)
             (<["G1@g.us" := timestamp (List.last [msg0; msg1; msg2] msg0)]>
                (lastAgentTimestamp world0)) ]).
Proof.
  refine (C3_session_before_reply cfg0 "G1@g.us" agent_ok world0
            family msg0 [msg1; msg2] [] [frame_silent] frame_hello "S1"
            world0_reaches_agent _ _ _); [reflexivity|reflexivity|discriminate].
Defined.

Lemma replies_witness :
  sent (events_of (processGroupMessages cfg0 "G1@g.us" agent_ok) world0)
  = [("G1@g.us", "hello")].
Proof.
  destruct (replies_are_stripped_results cfg0 "G1@g.us" agent_ok world0 family msg0
              [msg1; msg2] world0_reaches_agent) as (H & _).
  rewrite H. vm_compute. reflexivity.
Defined.

Lemma C4_gate_witness :
  (forall agent g i,
     In (EvRunAgent g i) (events_of (processGroupMessages cfg0 "G1@g.us" agent) world_quiet) ->
     exists m,
       In m (getMessagesSince (db_messages world_quiet) "G1@g.us"
               (cursor world_quiet "G1@g.us") (ASSISTANT_NAME cfg0)) /\
       TRIGGER_PATTERN cfg0 (Js.trim (content m)) = true) /\
  (hasTrigger cfg0
     (getMessagesSince (db_messages world_quiet) "G1@g.us" (cursor world_quiet "G1@g.us")
        (ASSISTANT_NAME cfg0)) = false ->
   (forall agent,
      processGroupMessages cfg0 "G1@g.us" agent world_quiet = (Returned true, world_quiet)) /\
   (forall extra agent g i,
      In (EvRunAgent g i)
        (events_of (processGroupMessages cfg0 "G1@g.us" agent)
           (with_db_messages (db_messages world_quiet ++ extra) world_quiet)) ->
      exists window,
        prompt i = formatMessages cfg0 window /\
        forall m,
          In m (getMessagesSince (db_messages world_quiet) "G1@g.us"
                  (cursor world_quiet "G1@g.us") (ASSISTANT_NAME cfg0)) ->
          In m window)) /\
  (forall q batch,
     hasTrigger cfg0 batch = false ->
     loopGroup cfg0 q ("G1@g.us", batch) world_quiet = (Returned tt, world_quiet)).
Proof.
  refine (C4_trigger_gate cfg0 "G1@g.us" world_quiet family _ family_needs_trigger).
  vm_compute. reflexivity.
Defined.

End RouterFacts.

(* ===================================================================== *)
(** * Facts about the OpenCode runner *)
(* ===================================================================== *)

Module OpenCodeFacts.
Import Types OpenCode Samples.
Local Open Scope list_scope.

Section WithRuntime.
Variable rt : Runtime.
Variable group : RegisteredGroup.
Variable opts_timeoutMs : option Z.

Abbreviation ms := (timeoutMs rt group opts_timeoutMs).
Abbreviation run := (runOpenCodeAgent rt group opts_timeoutMs).

(** The child is still running and the timer has neither fired nor been
    cleared: no [close], no [error], no expiry so far. *)
Definition child_running (evs : list ProcEvent) : bool :=
  forallb (fun e => match e with
                    | ev_timeout | ev_close _ | ev_error _ => false
                    | _ => true
                    end) evs.

(** A success output carries a text that is not empty. *)
Definition success_has_text (out : ContainerOutput) : Prop :=
  status out = Success -> exists text, result out = Some text /\ text <> EmptyString.

(** What holds of the call after any events. *)
Definition well_formed (p : Proc) : Prop :=
  (timeout_armed p = true -> settled p = None) /\
  (forall out, settled p = Some out -> success_has_text out).

Lemma scan_line_frame (p : Proc) (line : string) :
  stdout (scan_line rt p line) = stdout p /\
  stderr (scan_line rt p line) = stderr p /\
  stdoutTruncated (scan_line rt p line) = stdoutTruncated p /\
  stderrTruncated (scan_line rt p line) = stderrTruncated p /\
  timeout_armed (scan_line rt p line) = timeout_armed p /\
  signals (scan_line rt p line) = signals p /\
  settled (scan_line rt p line) = settled p.
Proof.
  unfold scan_line.
  destruct (negb (Js.truthy (Js.trim line))); [repeat split|].
  destruct (JSON_parse rt line) as [j|]; [|repeat split].
  destruct (get (Some j) "type") as [ty|]; [|repeat split].
  destruct (is_str ty "session" && truthy (get_opt (Some j) "id")).
  - destruct (get_opt (Some j) "id") as [[| | |sid| |]|];
      destruct (is_str ty "step_finish" && _); repeat split.
  - destruct (is_str ty "step_finish" && _); repeat split.
Qed.

Lemma scan_lines_frame (lines : list string) (p : Proc) :
  stdout (fold_left (scan_line rt) lines p) = stdout p /\
  stderr (fold_left (scan_line rt) lines p) = stderr p /\
  stdoutTruncated (fold_left (scan_line rt) lines p) = stdoutTruncated p /\
  stderrTruncated (fold_left (scan_line rt) lines p) = stderrTruncated p /\
  timeout_armed (fold_left (scan_line rt) lines p) = timeout_armed p /\
  signals (fold_left (scan_line rt) lines p) = signals p /\
  settled (fold_left (scan_line rt) lines p) = settled p.
Proof.
  revert p. induction lines as [|l ls IH]; intros p; simpl; [repeat split|].
  destruct (IH (scan_line rt p l)) as (-> & -> & -> & -> & -> & -> & ->).
  apply scan_line_frame.
Qed.

Lemma on_stdout_frame (chunk : string) (p : Proc) :
  stderr (on_stdout rt chunk p) = stderr p /\
  timeout_armed (on_stdout rt chunk p) = timeout_armed p /\
  signals (on_stdout rt chunk p) = signals p /\
  settled (on_stdout rt chunk p) = settled p.
Proof.
  unfold on_stdout. destruct (stdoutTruncated p); [repeat split|].
  destruct (capped rt _ chunk) as [buf truncated]. simpl.
  destruct (scan_lines_frame (Js.split "010" chunk) p) as (_ & -> & _ & _ & -> & -> & ->).
  repeat split.
Qed.

Lemma on_stderr_frame (chunk : string) (p : Proc) :
  stdout (on_stderr rt chunk p) = stdout p /\
  timeout_armed (on_stderr rt chunk p) = timeout_armed p /\
  signals (on_stderr rt chunk p) = signals p /\
  settled (on_stderr rt chunk p) = settled p.
Proof.
  unfold on_stderr. destruct (stderrTruncated p); [repeat split|].
  destruct (capped rt _ chunk) as [buf truncated]. repeat split.
Qed.

Lemma settled_resolve (out : ContainerOutput) (p : Proc) :
  settled (resolve out p) = match settled p with Some o => Some o | None => Some out end.
Proof. unfold resolve. destruct (settled p) eqn:E; [exact E|reflexivity]. Qed.

Lemma resolve_frame (out : ContainerOutput) (p : Proc) :
  timeout_armed (resolve out p) = timeout_armed p /\
  signals (resolve out p) = signals p.
Proof. unfold resolve. destruct (settled p); repeat split. Qed.

(** What the [close] handler settles the promise with, if it is the first
    to settle it. *)
Definition close_output (code : option Z) (p : Proc) : ContainerOutput :=
  match code with
  | Some c =>
      if negb (Z.eqb c 0) then exit_output code (disarm p)
      else if negb (Js.truthy (extractOpenCodeResponse rt (stdout p)))
      then empty_output (disarm p)
      else mkOutput Success (Some (extractOpenCodeResponse rt (stdout p)))
             (capturedSessionId p) None
  | None =>
      if negb (Js.truthy (extractOpenCodeResponse rt (stdout p)))
      then empty_output (disarm p)
      else mkOutput Success (Some (extractOpenCodeResponse rt (stdout p)))
             (capturedSessionId p) None
  end.

Lemma on_close_spec (code : option Z) (p : Proc) :
  on_close rt code p = resolve (close_output code p) (disarm p).
Proof.
  unfold on_close, close_output. destruct code as [c|]; simpl.
  - destruct (negb (Z.eqb c 0)); [reflexivity|].
    destruct (negb (Js.truthy _)); reflexivity.
  - destruct (negb (Js.truthy _)); reflexivity.
Qed.

Lemma close_output_has_text (code : option Z) (p : Proc) :
  success_has_text (close_output code p).
Proof.
  unfold success_has_text, close_output.
  destruct code as [c|]; [destruct (negb (Z.eqb c 0)); [discriminate|]|];
    (destruct (Js.truthy (extractOpenCodeResponse rt (stdout p))) eqn:E; simpl;
     [intros _; eexists; split; [reflexivity|apply JsFacts.truthy_true, E]
     |discriminate]).
Qed.

Lemma handle_well_formed (p : Proc) (e : ProcEvent) :
  well_formed p -> well_formed (handle rt ms p e).
Proof.
  intros [Harm Hok]. destruct e as [chunk|chunk| | |code|message]; simpl.
  - destruct (on_stdout_frame chunk p) as (_ & Ha & _ & Hs). split; rewrite ?Ha, ?Hs; auto.
  - destruct (on_stderr_frame chunk p) as (_ & Ha & _ & Hs). split; rewrite ?Ha, ?Hs; auto.
  - destruct (timeout_armed p) eqn:Ea; [|split; [congruence|exact Hok]].
    unfold on_timeout. split.
    + destruct (resolve_frame (timeout_output ms) (kill SIGKILL (disarm p))) as [-> _].
      discriminate.
    + intros out. rewrite settled_resolve. simpl. rewrite (Harm eq_refl).
      intros [= <-]. discriminate.
  - destruct (sigterm_timers p); split; auto.
  - rewrite on_close_spec. split.
    + destruct (resolve_frame (close_output code p) (disarm p)) as [-> _]. discriminate.
    + intros out. rewrite settled_resolve. simpl.
      destruct (settled p) as [o|] eqn:Es.
      * intros [= <-]. apply Hok. reflexivity.
      * intros [= <-]. apply close_output_has_text.
  - unfold on_error. split.
    + destruct (resolve_frame (mkOutput Error None None
                  (Some ("Failed to spawn opencode: " ++ message)%string)) (disarm p))
        as [-> _]. discriminate.
    + intros out. rewrite settled_resolve. simpl.
      destruct (settled p) as [o|] eqn:Es.
      * intros [= <-]. apply Hok. reflexivity.
      * intros [= <-]. discriminate.
Qed.

Lemma run_from_well_formed (evs : list ProcEvent) (p : Proc) :
  well_formed p -> well_formed (fold_left (handle rt ms) evs p).
Proof.
  revert p. induction evs as [|e evs IH]; intros p H; simpl; [exact H|].
  apply IH, handle_well_formed, H.
Qed.

Lemma run_well_formed (evs : list ProcEvent) : well_formed (run evs).
Proof.
  apply run_from_well_formed. split; [reflexivity|discriminate].
Qed.

Lemma run_snoc (evs : list ProcEvent) (e : ProcEvent) :
  run (evs ++ [e]) = handle rt ms (run evs) e.
Proof. unfold runOpenCodeAgent. rewrite fold_left_app. reflexivity. Qed.

Lemma armed_from (evs : list ProcEvent) (p : Proc) :
  timeout_armed (fold_left (handle rt ms) evs p) = timeout_armed p && child_running evs.
Proof.
  revert p. induction evs as [|e evs IH]; intros p; simpl; [rewrite andb_true_r; reflexivity|].
  rewrite IH. destruct e as [chunk|chunk| | |code|message]; simpl.
  - destruct (on_stdout_frame chunk p) as (_ & -> & _). reflexivity.
  - destruct (on_stderr_frame chunk p) as (_ & -> & _). reflexivity.
  - destruct (timeout_armed p) eqn:Ea; [|rewrite Ea; reflexivity].
    unfold on_timeout.
    destruct (resolve_frame (timeout_output ms) (kill SIGKILL (disarm p))) as [-> _].
    reflexivity.
  - destruct (sigterm_timers p); reflexivity.
  - rewrite on_close_spec.
    destruct (resolve_frame (close_output code p) (disarm p)) as [-> _].
    simpl. rewrite andb_false_r. reflexivity.
  - unfold on_error.
    destruct (resolve_frame (mkOutput Error None None
                (Some ("Failed to spawn opencode: " ++ message)%string)) (disarm p))
      as [-> _].
    simpl. rewrite andb_false_r. reflexivity.
Qed.

Lemma armed_while_running (evs : list ProcEvent) :
  timeout_armed (run evs) = child_running evs.
Proof. unfold runOpenCodeAgent. rewrite armed_from. reflexivity. Qed.

Lemma settled_stays (evs : list ProcEvent) (p : Proc) (out : ContainerOutput) :
  settled p = Some out -> settled (fold_left (handle rt ms) evs p) = Some out.
Proof.
  revert p. induction evs as [|e evs IH]; intros p H; simpl; [exact H|].
  apply IH. destruct e as [chunk|chunk| | |code|message]; simpl.
  - destruct (on_stdout_frame chunk p) as (_ & _ & _ & ->). exact H.
  - destruct (on_stderr_frame chunk p) as (_ & _ & _ & ->). exact H.
  - destruct (timeout_armed p); [|exact H].
    unfold on_timeout. rewrite settled_resolve. simpl. rewrite H. reflexivity.
  - destruct (sigterm_timers p); exact H.
  - rewrite on_close_spec, settled_resolve. simpl. rewrite H. reflexivity.
  - unfold on_error. rewrite settled_resolve. simpl. rewrite H. reflexivity.
Qed.

(** The claim of the specification about the signals of a timeout: a
    graceful signal, and the forceful one after it. *)
Definition graceful_then_force (sigs : list Signal) : Prop :=
  exists a b c, sigs = a ++ SIGTERM :: b ++ SIGKILL :: c.

(** The step of the timer.  When the timer of
    [opts.timeoutMs ?? group.containerConfig?.timeout ?? CONTAINER_TIMEOUT]
    milliseconds expires while the child is running (no [close], no
    [error], no earlier expiry), the call adds the one signal [SIGKILL]
    to those it has sent and its promise is settled, for good, with
    [{status: 'error', result: null, error: 'OpenCode timed out after <ms>ms'}]. *)
Lemma timeout_step (evs : list ProcEvent) :
  child_running evs = true ->
  signals (run (evs ++ [ev_timeout])) = signals (run evs) ++ [SIGKILL] /\
  settled (run (evs ++ [ev_timeout]))
    = Some (mkOutput Error None None
              (Some ("OpenCode timed out after " ++ pretty ms ++ "ms")%string)) /\
  (forall later,
     settled (run (evs ++ ev_timeout :: later))
     = Some (mkOutput Error None None
               (Some ("OpenCode timed out after " ++ pretty ms ++ "ms")%string))) /\
  ms = match opts_timeoutMs with
       | Some t => t
       | None =>
           match option_map timeout (containerConfig group) with
           | Some (Some t) => t
           | _ => CONTAINER_TIMEOUT rt
           end
       end.
Proof.
  intros Hrun.
  pose proof (armed_while_running evs) as Harm. rewrite Hrun in Harm.
  destruct (run_well_formed evs) as [Hnone _]. specialize (Hnone Harm).
  assert (Hset : settled (run (evs ++ [ev_timeout]))
                 = Some (timeout_output ms)).
  { rewrite run_snoc. cbn [handle]. rewrite Harm. unfold on_timeout.
    rewrite settled_resolve. simpl. rewrite Hnone. reflexivity. }
  split; [|split; [exact Hset|split]].
  - rewrite run_snoc. cbn [handle]. rewrite Harm. unfold on_timeout.
    destruct (resolve_frame (timeout_output ms) (kill SIGKILL (disarm (run evs))))
      as [_ ->]. reflexivity.
  - intros later. change (ev_timeout :: later) with ([ev_timeout] ++ later).
    rewrite app_assoc. unfold runOpenCodeAgent at 1. rewrite fold_left_app.
    apply settled_stays. exact Hset.
  - unfold timeoutMs. destruct opts_timeoutMs; [reflexivity|].
    destruct (containerConfig group) as [c|]; [|reflexivity]. simpl.
    destruct (timeout c); reflexivity.
Qed.

(** No [close] so far. *)
Definition no_close (evs : list ProcEvent) : bool :=
  forallb (fun e => match e with ev_close _ => false | _ => true end) evs.

Lemma settled_before_close (evs : list ProcEvent) (p : Proc) :
  (forall out, settled p = Some out -> status out = Error) ->
  no_close evs = true ->
  forall out, settled (fold_left (handle rt ms) evs p) = Some out -> status out = Error.
Proof.
  revert p. induction evs as [|e evs IH]; intros p Hp Hnc; simpl; [exact Hp|].
  simpl in Hnc. apply andb_true_iff in Hnc as [He Hnc].
  apply IH; [|exact Hnc]. clear IH.
  destruct e as [chunk|chunk| | |code|message]; cbn [handle]; try discriminate He.
  - destruct (on_stdout_frame chunk p) as (_ & _ & _ & ->). exact Hp.
  - destruct (on_stderr_frame chunk p) as (_ & _ & _ & ->). exact Hp.
  - destruct (timeout_armed p); [|exact Hp].
    intros out. unfold on_timeout. rewrite settled_resolve. cbn [settled kill disarm].
    destruct (settled p) as [o|] eqn:Es; intros [= <-]; [apply Hp; reflexivity|reflexivity].
  - destruct (sigterm_timers p); exact Hp.
  - intros out. unfold on_error. rewrite settled_resolve. cbn [settled disarm].
    destruct (settled p) as [o|] eqn:Es; intros [= <-]; [apply Hp; reflexivity|reflexivity].
Qed.

Lemma running_not_settled (evs : list ProcEvent) :
  child_running evs = true -> settled (run evs) = None.
Proof.
  intros H. destruct (run_well_formed evs) as [Harm _]. apply Harm.
  rewrite armed_while_running. exact H.
Qed.

(** C10, as the code has it.  Whatever the events, an output with status
    [success] carries a result that is not empty.  When the child closes
    with code 0 or [null] and no text can be extracted from its standard
    output, or closes with any other code, the promise is settled with an
    output of status [error]: the one that reports empty output, or the
    exit code, if the child was still running (the [close] handler is the
    first to settle the promise), and otherwise the error of the timeout
    or of the failed spawn that settled it before. *)
Theorem C10_success_has_nonempty_result (evs : list ProcEvent) :
  (forall out,
     settled (run evs) = Some out -> status out = Success ->
     exists text, result out = Some text /\ text <> EmptyString) /\
  (forall code,
     no_close evs = true ->
     code = Some 0%Z \/ code = None ->
     extractOpenCodeResponse rt (stdout (run evs)) = EmptyString ->
     exists out,
       settled (run (evs ++ [ev_close code])) = Some out /\
       status out = Error /\
       (child_running evs = true ->
        out = mkOutput Error None None
                (Some ("OpenCode returned empty output. Stderr: "
                       ++ Js.takeLast 500 (Js.trim (stderr (run evs))))%string)) /\
       (child_running evs = false -> settled (run evs) = Some out)) /\
  (forall c,
     no_close evs = true -> c <> 0%Z ->
     exists out,
       settled (run (evs ++ [ev_close (Some c)])) = Some out /\
       status out = Error /\
       (child_running evs = true ->
        out = mkOutput Error None None
                (Some ("OpenCode exited with code " ++ pretty c
                       ++ ". Stdout: " ++ Js.takeLast 500 (Js.trim (stdout (run evs)))
                       ++ ". Stderr: " ++ Js.takeLast 500 (Js.trim (stderr (run evs))))%string)) /\
       (child_running evs = false -> settled (run evs) = Some out)).
Proof.
  assert (Hearlier : no_close evs = true ->
            forall out, settled (run evs) = Some out -> status out = Error).
  { intros Hnc. apply settled_before_close; [discriminate|exact Hnc]. }
  assert (Hdone : no_close evs = true -> child_running evs = false ->
            exists out, settled (run evs) = Some out).
  { intros Hnc Hcr. destruct (settled (run evs)) as [o|] eqn:Es; [eauto|]. exfalso.
    clear Hearlier. revert Hnc Hcr Es. unfold runOpenCodeAgent.
    assert (G : forall p, settled p = None -> timeout_armed p = true ->
                no_close evs = true -> child_running evs = false ->
                settled (fold_left (handle rt ms) evs p) = None -> False).
    { induction evs as [|e evs' IH]; intros p Hs Ha Hnc Hcr Hn; [discriminate Hcr|].
      simpl in Hnc, Hcr, Hn. apply andb_true_iff in Hnc as [He Hnc].
      destruct e as [chunk|chunk| | |code|message]; cbn [handle] in Hn;
        try discriminate He; simpl in Hcr.
      - destruct (on_stdout_frame chunk p) as (_ & Ha' & _ & Hs').
        apply (IH (on_stdout rt chunk p)); congruence.
      - destruct (on_stderr_frame chunk p) as (_ & Ha' & _ & Hs').
        apply (IH (on_stderr rt chunk p)); congruence.
      - rewrite Ha in Hn.
        rewrite (settled_stays evs' (on_timeout ms p) (timeout_output ms)) in Hn;
          [discriminate|].
        unfold on_timeout. rewrite settled_resolve. cbn [settled kill disarm].
        rewrite Hs. reflexivity.
      - destruct (sigterm_timers p) eqn:En; [apply (IH p); assumption|].
        apply (IH (on_sigterm_timer p)); try assumption; reflexivity.
      - rewrite (settled_stays evs' (on_error message p)
                   (mkOutput Error None None
                      (Some ("Failed to spawn opencode: " ++ message)%string))) in Hn;
          [discriminate|].
        unfold on_error. rewrite settled_resolve. cbn [settled disarm].
        rewrite Hs. reflexivity. }
    intros Hnc Hcr Es. exact (G spawned eq_refl eq_refl Hnc Hcr Es). }
  split; [|split].
  - intros out Hs. destruct (run_well_formed evs) as [_ H]. exact (H out Hs).
  - intros code Hnc Hcode Htext.
    rewrite run_snoc. cbn [handle]. rewrite on_close_spec, settled_resolve. cbn [settled disarm].
    destruct (child_running evs) eqn:Hcr.
    + rewrite (running_not_settled evs Hcr). eexists. split; [reflexivity|].
      unfold close_output. rewrite Htext.
      destruct Hcode as [-> | ->]; cbn; (split; [reflexivity|split; [reflexivity|discriminate]]).
    + destruct (Hdone Hnc eq_refl) as (o & Ho). rewrite Ho. exists o.
      split; [reflexivity|]. split; [exact (Hearlier Hnc o Ho)|].
      split; [discriminate|reflexivity].
  - intros c Hnc Hc.
    rewrite run_snoc. cbn [handle]. rewrite on_close_spec, settled_resolve. cbn [settled disarm].
    destruct (child_running evs) eqn:Hcr.
    + rewrite (running_not_settled evs Hcr). eexists. split; [reflexivity|].
      unfold close_output. destruct (Z.eqb_spec c 0) as [->|_]; [congruence|].
      cbn. split; [reflexivity|split; [reflexivity|discriminate]].
    + destruct (Hdone Hnc eq_refl) as (o & Ho). rewrite Ho. exists o.
      split; [reflexivity|]. split; [exact (Hearlier Hnc o Ho)|].
      split; [discriminate|reflexivity].
Qed.

End WithRuntime.

(** ** A concrete run *)

Example run_to_completion :
  let p := runOpenCodeAgent rt0 family None
             [ev_stdout (text_line ++ LF ++ stop_line ++ LF);
              ev_sigterm_timer; ev_close None] in
  signals p = [SIGTERM] /\
  settled p = Some (mkOutput Success (Some "Hi there") None None).
Proof. vm_compute. split; reflexivity. Qed.

Example run_without_text :
  settled (runOpenCodeAgent rt0 family None
             [ev_stdout (LF ++ "  " ++ LF); ev_stderr "boom"; ev_close (Some 0%Z)])
  = Some (mkOutput Error None None (Some "OpenCode returned empty output. Stderr: boom")).
Proof. vm_compute. reflexivity. Qed.

(** A timeout on a run that printed a text and no completion line: the
    forceful signal is the only one, no graceful signal comes before it. *)
Lemma C7_no_graceful_signal :
  signals (runOpenCodeAgent rt0 family None [ev_stdout text_line; ev_timeout])
    = [SIGKILL] /\
  settled (runOpenCodeAgent rt0 family None [ev_stdout text_line; ev_timeout])
    = Some (mkOutput Error None None (Some "OpenCode timed out after 300000ms")) /\
  ~ graceful_then_force
      (signals (runOpenCodeAgent rt0 family None [ev_stdout text_line; ev_timeout])).
Proof.
  assert (E : signals (runOpenCodeAgent rt0 family None
                         [ev_stdout text_line; ev_timeout]) = [SIGKILL])
    by (vm_compute; reflexivity).
  split; [exact E|]. split; [vm_compute; reflexivity|].
  rewrite E. intros (a & b & c & H).
  destruct a as [|x [|y a]]; simpl in H; discriminate.
Qed.

(** The runner kills the child on a timeout: the child closes with code
    [null], nothing can be extracted from its output, and the run's output
    reports the timeout, not empty output. *)
Lemma C10_timeout_kill_reports_timeout :
  signals (runOpenCodeAgent rt0 family None [ev_timeout; ev_close None]) = [SIGKILL] /\
  extractOpenCodeResponse rt0
    (stdout (runOpenCodeAgent rt0 family None [ev_timeout; ev_close None]))
    = EmptyString /\
  settled (runOpenCodeAgent rt0 family None [ev_timeout; ev_close None])
    = Some (mkOutput Error None None (Some "OpenCode timed out after 300000ms")) /\
  settled (runOpenCodeAgent rt0 family None [ev_timeout; ev_close None])
    <> Some (mkOutput Error None None (Some "OpenCode returned empty output. Stderr: ")).
Proof.
  assert (E : settled (runOpenCodeAgent rt0 family None [ev_timeout; ev_close None])
              = Some (mkOutput Error None None (Some "OpenCode timed out after 300000ms")))
    by (vm_compute; reflexivity).
  split; [vm_compute; reflexivity|]. split; [vm_compute; reflexivity|].
  split; [exact E|]. rewrite E. discriminate.
Qed.

End OpenCodeFacts.

(* ===================================================================== *)
(** * Facts about the ephemeral-VM runner *)
(* ===================================================================== *)

Module TartFacts.
Import Types Tart Samples.
Local Open Scope list_scope.

Section WithHost.
Variable h : Host.

(** What the [finally] block adds to the commands: [tart stop], and the
    pause and [tart delete] only if [tart stop] returned. *)
Lemma cleanup_commands (vm : string) (tr : list Cmd) :
  snd (cleanup h vm tr) =
  tr ++ TartStop vm ::
        match throws h (TartStop vm) with
        | None => [Sleep 2000; TartDelete vm]
        | Some _ => []
        end.
Proof.
  unfold cleanup, exec, bind, issue, ret, raise.
  destruct (throws h (TartStop vm)); simpl.
  - reflexivity.
  - destruct (throws h (TartDelete vm)); simpl; rewrite <- !app_assoc; reflexivity.
Qed.

(** ** The commands of the [try] block *)













End WithHost.

(** ** A clone that outlives its run *)

(** C9, at the failing input.  The call clones the machine, gives up after
    thirty rounds of [tart ip], returns an error output, issues
    [tart stop] for its clone and, [tart stop] having thrown, never issues
    [tart delete]. *)
Theorem C9_stop_failure_skips_delete :
  status (fst (runTartAgent stuck_host family hello)) = Error /\
  error (fst (runTartAgent stuck_host family hello))
    = Some "Failed to get IP address for VM nanoclaw-family-1700000000000 after 30 attempts" /\
  In (TartClone "tart_nanoclaw_base" "nanoclaw-family-1700000000000")
     (snd (runTartAgent stuck_host family hello)) /\
  List.last (snd (runTartAgent stuck_host family hello)) TartList
    = TartStop "nanoclaw-family-1700000000000" /\
  ~ In (TartDelete "nanoclaw-family-1700000000000")
       (snd (runTartAgent stuck_host family hello)).
Proof.
  assert (E : runTartAgent stuck_host family hello =
              (mkOutput Error None None
                 (Some "Failed to get IP address for VM nanoclaw-family-1700000000000 after 30 attempts"),
               [TartList;
                TartClone "tart_nanoclaw_base" "nanoclaw-family-1700000000000";
                Mkdir "/srv/groups/family";
                TartRun "nanoclaw-family-1700000000000" "/srv/groups/family"]
               ++ repeat (TartIp "nanoclaw-family-1700000000000") 30
               ++ [TartStop "nanoclaw-family-1700000000000"]))
    by (vm_compute; reflexivity).
  rewrite E. cbn [fst snd status error].
  split; [reflexivity|]. split; [reflexivity|]. split; [right; left; reflexivity|].
  split; [vm_compute; reflexivity|].
  rewrite !in_app_iff. intros [H|[H|H]].
  - simpl in H. intuition discriminate.
  - apply repeat_spec in H. discriminate.
  - simpl in H. intuition discriminate.
Qed.

End TartFacts.

(* ===================================================================== *)
(** * Facts about the persistent-VM runner *)
(* ===================================================================== *)

Module VibeFacts.
Import Types Vibe Samples.
Local Open Scope list_scope.


(** ** A mount the policy rejects *)

(** C2, at the failing input.  The policy rejects the mount (a component
    matches the blocked pattern [.ssh], and the path lies under no allowed
    root) and demands read-only of a workspace that is not privileged; the
    runner hands it to [vibe] all the same, read-write. *)
Theorem C2_vibe_mount_bypasses_policy :
  MountPolicy.blocked policy0 "/Users/me/.ssh" = true /\
  MountPolicy.root_of policy0 "/Users/me/.ssh" = None /\
  MountPolicy.validate policy0 false "/Users/me/.ssh" false = None /\
  In (mkMount "/Users/me/.ssh" "/mnt/keys" false) (configure_mounts settings0 curious true) /\
  MountPolicy.safe policy0 false "/Users/me/.ssh" false = false /\
  executeVibe_args "/srv/data/vibe-images/curious.raw"
    (vibeOptions settings0 curious true "/tmp/nanoclaw-vibe-agent-1700000000000.sh")
  = [ "--cpus"; "2"; "--ram"; "2048";
      "--mount"; "/srv/groups/curious:/workspace:read-write";
      "--mount"; "/srv/data/ipc/curious:/ipc:read-write";
      "--mount"; "/srv/data/sessions/curious/.claude:/home/user/.claude:read-write";
      "--mount"; "/Users/me/.ssh:/mnt/keys:read-write";
      "--script"; "/tmp/nanoclaw-vibe-agent-1700000000000.sh";
      "/srv/data/vibe-images/curious.raw" ].
Proof. vm_compute. repeat split; auto. Qed.


End VibeFacts.

(* ===================================================================== *)
(** * Facts about the message loop ([startMessageLoop]) *)
(* ===================================================================== *)

Module LoopFacts.
Import Store Types Router Startup StoreFacts RouterFacts Samples.
Local Open Scope list_scope.

(** ** The batch is split by chat *)

(** The rows of one chat, in the order of the batch. *)
Definition of_chat (k : string) (messages : list NewMessage) : list NewMessage :=
  List.filter (fun m => String.eqb k (chat_jid m)) messages.

(** What the [Map] built from a batch is: one entry per chat, each holding
    the rows of its chat. *)
Definition grouped (messages : list NewMessage)
    (groups : list (string * list NewMessage)) : Prop :=
  List.NoDup (map fst groups) /\
  (forall k g, In (k, g) groups -> g <> [] /\ g = of_chat k messages) /\
  (forall m, In m messages -> In (chat_jid m) (map fst groups)).

Lemma of_chat_snoc (k : string) (messages : list NewMessage) (m : NewMessage) :
  of_chat k (messages ++ [m]) =
  of_chat k messages ++ (if String.eqb k (chat_jid m) then [m] else []).
Proof. unfold of_chat. rewrite List.filter_app. reflexivity. Qed.

Lemma of_chat_none (k : string) (messages : list NewMessage) :
  (forall m, In m messages -> chat_jid m <> k) -> of_chat k messages = [].
Proof.
  induction messages as [|x xs IH]; intros H; [reflexivity|].
  unfold of_chat. simpl.
  destruct (String.eqb k (chat_jid x)) eqn:E.
  - apply String.eqb_eq in E. destruct (H x (or_introl eq_refl)). congruence.
  - apply IH. intros m Hm. apply H. right. exact Hm.
Qed.

Lemma add_to_group_keys (m : NewMessage) (groups : list (string * list NewMessage)) :
  map fst (add_to_group m groups) =
  if existsb (fun k => String.eqb k (chat_jid m)) (map fst groups)
  then map fst groups
  else map fst groups ++ [chat_jid m].
Proof.
  induction groups as [|[k e] rest IH]; simpl; [reflexivity|].
  destruct (String.eqb k (chat_jid m)); simpl; [reflexivity|].
  rewrite IH. destruct (existsb _ _); reflexivity.
Qed.

Lemma add_to_group_In (m : NewMessage) (groups : list (string * list NewMessage))
    (k : string) (g : list NewMessage) :
  List.NoDup (map fst groups) ->
  In (k, g) (add_to_group m groups) ->
  (k <> chat_jid m /\ In (k, g) groups) \/
  (k = chat_jid m /\
   exists g0, g = g0 ++ [m] /\
     (In (k, g0) groups \/ (g0 = [] /\ ~ In k (map fst groups)))).
Proof.
  induction groups as [|[k' e] rest IH]; simpl; intros Hnd Hin.
  - destruct Hin as [[= <- <-]|[]]. right. split; [reflexivity|].
    exists []. split; [reflexivity|]. right. split; [reflexivity|tauto].
  - apply List.NoDup_cons_iff in Hnd as (Hk' & Hrest). simpl in Hk'.
    destruct (String.eqb k' (chat_jid m)) eqn:E.
    + apply String.eqb_eq in E. subst k'.
      destruct Hin as [[= <- <-]|Hin].
      * right. split; [reflexivity|]. exists e. split; [reflexivity|]. left. left. reflexivity.
      * left. split; [|right; exact Hin].
        intros ->. apply Hk'. apply (in_map fst) in Hin. exact Hin.
    + apply String.eqb_neq in E. destruct Hin as [[= <- <-]|Hin].
      * left. split; [exact E|left; reflexivity].
      * destruct (IH Hrest Hin) as [(Hne & H)|(-> & g0 & -> & [H|(-> & H)])].
        -- left. split; [exact Hne|right; exact H].
        -- right. split; [reflexivity|]. exists g0. split; [reflexivity|]. left. right. exact H.
        -- right. split; [reflexivity|]. exists []. split; [reflexivity|]. right.
           split; [reflexivity|]. intros [Hk|Hk]; [congruence|exact (H Hk)].
Qed.

Lemma grouped_add (messages : list NewMessage) (groups : list (string * list NewMessage))
    (m : NewMessage) :
  grouped messages groups -> grouped (messages ++ [m]) (add_to_group m groups).
Proof.
  intros (Hnd & Hrows & Hcov). split; [|split].
  - rewrite add_to_group_keys.
    destruct (existsb _ _) eqn:E; [exact Hnd|].
    apply List.NoDup_app; [exact Hnd|repeat constructor; intros []|].
    intros k Hk [<-|[]].
    assert (existsb (fun k' => String.eqb k' (chat_jid m)) (map fst groups) = true) as E'.
    { apply existsb_exists. exists (chat_jid m). split; [exact Hk|apply String.eqb_refl]. }
    congruence.
  - intros k g Hin. rewrite of_chat_snoc.
    destruct (add_to_group_In m groups k g Hnd Hin)
      as [(Hne & H)|(-> & g0 & -> & [H|(-> & H)])].
    + destruct (Hrows k g H) as (Hg & ->). split; [exact Hg|].
      apply String.eqb_neq in Hne. rewrite Hne, app_nil_r. reflexivity.
    + destruct (Hrows _ g0 H) as (_ & ->). rewrite String.eqb_refl.
      split; [|reflexivity]. intros E. apply app_eq_nil in E as [_ [=]].
    + rewrite String.eqb_refl. split; [discriminate|].
      rewrite of_chat_none; [reflexivity|].
      intros x Hx E. apply H. rewrite <- E. apply Hcov, Hx.
  - intros x Hx. rewrite add_to_group_keys. apply in_app_iff in Hx as [Hx|[<-|[]]].
    + destruct (existsb _ _); [|apply in_app_iff; left]; apply Hcov, Hx.
    + destruct (existsb _ _) eqn:E; [|apply in_app_iff; right; left; reflexivity].
      apply existsb_exists in E as (k & Hk & E). apply String.eqb_eq in E. congruence.
Qed.

Lemma grouped_fold (messages seen : list NewMessage)
    (groups : list (string * list NewMessage)) :
  grouped seen groups ->
  grouped (seen ++ messages) (fold_left (fun acc msg => add_to_group msg acc) messages groups).
Proof.
  revert seen groups. induction messages as [|m ms IH]; intros seen groups H; simpl.
  - rewrite app_nil_r. exact H.
  - replace (seen ++ m :: ms) with ((seen ++ [m]) ++ ms) by (rewrite <- app_assoc; reflexivity).
    apply IH, grouped_add, H.
Qed.

Lemma messagesByGroup_grouped (messages : list NewMessage) :
  grouped messages (messagesByGroup messages).
Proof.
  apply (grouped_fold messages [] []).
  split; [constructor|]. split; intros; contradiction.
Qed.

(** The per-chat map of a tick splits the batch: no chat has two entries,
    no entry is empty, the entry of a chat holds exactly the batch's rows
    of that chat in the order of the batch, and every row of the batch is
    in the entry of its chat. *)
Theorem messagesByGroup_partitions (messages : list NewMessage) :
  List.NoDup (map fst (messagesByGroup messages)) /\
  (forall k g,
     In (k, g) (messagesByGroup messages) ->
     g <> [] /\ g = List.filter (fun m => String.eqb k (chat_jid m)) messages) /\
  (forall m,
     In m messages ->
     exists g, In (chat_jid m, g) (messagesByGroup messages) /\ In m g).
Proof.
  destruct (messagesByGroup_grouped messages) as (Hnd & Hrows & Hcov).
  split; [exact Hnd|]. split; [exact Hrows|].
  intros m Hm. specialize (Hcov m Hm). apply in_map_iff in Hcov as ([k g] & Ek & Hin).
  simpl in Ek. subst k. exists g. split; [exact Hin|].
  destruct (Hrows _ _ Hin) as (_ & ->). apply filter_In. split; [exact Hm|].
  apply String.eqb_refl.
Qed.

(** ** One chat of the batch *)

Section WithConfig.
Variable cfg : Config.

Lemma last_some (l : list NewMessage) (d : NewMessage) :
  l <> [] -> List.last (map Some l) None = Some (List.last l d).
Proof.
  induction l as [|x [|y l] IH]; intros H; [congruence|reflexivity|].
  change (List.last (map Some (y :: l)) None = Some (List.last (y :: l) d)).
  apply IH. discriminate.
Qed.

(** For a chat that is registered and passes the trigger rule, with a
    catch-up window that is not empty, the loop offers the whole window to
    the queue.  If the queue pipes it into a live process, the chat's
    cursor is set to the window's last time stamp and written to the store,
    the other cursors stay, and no row of the window is fetched again; if
    there is no live process, a message check is enqueued and nothing else
    changes; if the queue throws, nothing changes. *)
Theorem loopGroup_pipes_or_enqueues (q : QueueEnv) (chatJid : string)
    (batch : list NewMessage) (w : World) (group : RegisteredGroup)
    (p0 : NewMessage) (pending : list NewMessage) :
  registeredGroups w !! chatJid = Some group ->
  (needsTrigger cfg group && negb (hasTrigger cfg batch)) = false ->
  getMessagesSince (db_messages w) chatJid (cursor w chatJid) (ASSISTANT_NAME cfg)
    = p0 :: pending ->
  let formatted := formatMessages cfg (p0 :: pending) in
  let tsLast := timestamp (List.last (p0 :: pending) p0) in
  match queue_sendMessage q chatJid formatted with
  | QPiped =>
      exists w',
        loopGroup cfg q (chatJid, batch) w = (Returned tt, w') /\
        trace w' = trace w ++
          [EvPiped chatJid formatted;
           EvSaveState (lastTimestamp w) (<[chatJid := tsLast]> (lastAgentTimestamp w))] /\
        lastAgentTimestamp w' = <[chatJid := tsLast]> (lastAgentTimestamp w) /\
        db_last_agent_timestamp w' = lastAgentTimestamp w' /\
        (forall m db', In m (p0 :: pending) ->
           ~ In m (getMessagesSince db' chatJid (cursor w' chatJid) (ASSISTANT_NAME cfg)))
  | QNoActive =>
      loopGroup cfg q (chatJid, batch) w =
        if queue_enqueue_ok q chatJid
        then (Returned tt, log (EvEnqueueMessageCheck chatJid) w)
        else (Thrown, w)
  | QThrows => loopGroup cfg q (chatJid, batch) w = (Thrown, w)
  end.
Proof.
  intros Hg Ht Hp formatted tsLast.
  assert (E : loopGroup cfg q (chatJid, batch) w =
              match queue_sendMessage q chatJid formatted with
              | QThrows => throw w
              | QPiped =>
                  (emit (EvPiped chatJid formatted) ;;;
                   set_cursor chatJid tsLast ;;; saveState) w
              | QNoActive =>
                  if queue_enqueue_ok q chatJid
                  then emit (EvEnqueueMessageCheck chatJid) w
                  else throw w
              end).
  { unfold loopGroup, bind at 1, get at 1. cbn beta iota. rewrite Hg, Ht, Hp.
    fold formatted. rewrite (last_some (p0 :: pending) p0) by discriminate.
    destruct (queue_sendMessage q chatJid formatted); [reflexivity| |reflexivity].
    destruct (queue_enqueue_ok q chatJid); reflexivity. }
  rewrite E. clear E. destruct (queue_sendMessage q chatJid formatted).
  - eexists. split; [reflexivity|]. cbn.
    split; [rewrite <- app_assoc; reflexivity|]. split; [reflexivity|].
    split; [reflexivity|].
    intros m db' Hm. unfold cursor. cbn. rewrite lookup_insert_eq. cbn.
    unfold tsLast. rewrite <- Hp. apply getMessagesSince_after_last. rewrite Hp. exact Hm.
  - destruct (queue_enqueue_ok q chatJid); reflexivity.
  - reflexivity.
Qed.

(** A tick that finds no new message returns with the state, the store
    and the trace as they were. *)
Theorem quiet_tick_changes_nothing (q : QueueEnv) (w : World) :
  fst (getNewMessages (db_messages w) (map_to_list (registeredGroups w)).*1
         (lastTimestamp w) (ASSISTANT_NAME cfg)) = [] ->
  messageLoopTick cfg q w = (Returned tt, w).
Proof.
  intros H. rewrite tick_unfold.
  destruct (getNewMessages _ _ _ _) as [[|m msgs] newTs]; [reflexivity|discriminate].
Qed.

End WithConfig.

(** ** Recovery at start-up *)

Section Recovery.
Variable cfg : Config.
Variable q : QueueEnv.
Hypothesis enqueue_ok : forall jid, queue_enqueue_ok q jid = true.

(** The chats with something to catch up on. *)
Definition has_pending (w : World) (chatJid : string) : bool :=
  match getMessagesSince (db_messages w) chatJid (cursor w chatJid) (ASSISTANT_NAME cfg) with
  | [] => false
  | _ :: _ => true
  end.

Definition only_trace_grows (w w' : World) (evs : list Event) : Prop :=
  w' = mkWorld (lastTimestamp w) (sessions w) (registeredGroups w) (lastAgentTimestamp w)
         (db_messages w) (db_last_timestamp w) (db_last_agent_timestamp w)
         (db_sessions w) (trace w ++ evs).

Lemma has_pending_trace (w : World) (evs : list Event) (chatJid : string) :
  has_pending
    (mkWorld (lastTimestamp w) (sessions w) (registeredGroups w) (lastAgentTimestamp w)
       (db_messages w) (db_last_timestamp w) (db_last_agent_timestamp w)
       (db_sessions w) evs) chatJid
  = has_pending w chatJid.
Proof. reflexivity. Qed.

Lemma recoverGroup_run (jid : string) (group : RegisteredGroup) (w : World) :
  recoverGroup cfg q (jid, group) w =
  (Returned tt, if has_pending w jid then log (EvEnqueueMessageCheck jid) w else w).
Proof.
  unfold recoverGroup, has_pending, bind, get. cbn beta iota.
  destruct (getMessagesSince _ _ _ _); [reflexivity|]. rewrite enqueue_ok. reflexivity.
Qed.

Lemma recover_entries (entries : list (string * RegisteredGroup)) (w : World) :
  exists w',
    for_each entries (recoverGroup cfg q) w = (Returned tt, w') /\
    only_trace_grows w w'
      (map (fun e => EvEnqueueMessageCheck (fst e))
         (List.filter (fun e => has_pending w (fst e)) entries)).
Proof.
  revert w. induction entries as [|[jid group] rest IH]; intros w.
  - exists w. split; [reflexivity|]. unfold only_trace_grows. simpl.
    rewrite app_nil_r. destruct w; reflexivity.
  - cbn [for_each]. unfold bind at 1. rewrite recoverGroup_run.
    cbn [List.filter fst]. destruct (has_pending w jid) eqn:Hp.
    + destruct (IH (log (EvEnqueueMessageCheck jid) w)) as (w' & E & H).
      exists w'. split; [exact E|]. unfold only_trace_grows in *. rewrite H. cbn.
      rewrite <- app_assoc. reflexivity.
    + destruct (IH w) as (w' & E & H). exists w'. split; [exact E|exact H].
Qed.

Lemma recover_run (w : World) :
  exists w' evs,
    recoverPendingMessages cfg q w = (Returned tt, w') /\
    only_trace_grows w w' evs /\
    (forall e, In e evs -> exists jid, e = EvEnqueueMessageCheck jid) /\
    (forall jid,
       In (EvEnqueueMessageCheck jid) evs <->
       (exists group, registeredGroups w !! jid = Some group) /\
       getMessagesSince (db_messages w) jid (cursor w jid) (ASSISTANT_NAME cfg) <> []).
Proof.
  destruct (recover_entries (map_to_list (registeredGroups w)) w) as (w' & E & H).
  exists w'. eexists. split; [exact E|]. split; [exact H|]. split.
  - intros e He. apply in_map_iff in He as (x & <- & _). eexists. reflexivity.
  - intros jid. rewrite in_map_iff. split.
    + intros ([jid' group] & [= ->] & Hin). apply filter_In in Hin as (Hin & Hp).
      apply list_elem_of_In, elem_of_map_to_list in Hin. split; [exists group; exact Hin|].
      cbn in Hp. unfold has_pending in Hp. destruct (getMessagesSince _ _ _ _); discriminate.
    + intros ((group & Hg) & Hp). exists (jid, group). split; [reflexivity|].
      apply filter_In. split; [apply list_elem_of_In, elem_of_map_to_list, Hg|].
      cbn. unfold has_pending. destruct (getMessagesSince _ _ _ _); congruence.
Qed.

(** With a queue that accepts every message check, recovery returns,
    changes neither the router's variables nor the store, and enqueues a
    message check for a chat exactly when the chat is registered and has
    a message after its cursor; the trigger rule is not consulted. *)
Theorem recovery_enqueues_pending_chats (w : World) :
  exists w' evs,
    recoverPendingMessages cfg q w = (Returned tt, w') /\
    only_trace_grows w w' evs /\
    (forall e, In e evs -> exists jid, e = EvEnqueueMessageCheck jid) /\
    (forall jid,
       In (EvEnqueueMessageCheck jid) evs <->
       (exists group, registeredGroups w !! jid = Some group) /\
       getMessagesSince (db_messages w) jid (cursor w jid) (ASSISTANT_NAME cfg) <> []).
Proof. exact (recover_run w). Qed.

(** A run that ended in a terminal error leaves the chat for recovery:
    the failed call of [processGroupMessages] leaves the same cursors in
    the store as in memory, and in the state it leaves, with a queue that
    accepts every message check, recovery enqueues a message check for
    the chat. *)
Theorem failed_run_is_recovered (chatJid : string) (agent : AgentRun) (w : World)
    (group : RegisteredGroup) (m0 : NewMessage) (rest : list NewMessage) :
  reaches_agent cfg w chatJid group m0 rest ->
  terminal_error agent = true ->
  exists w1 w2 evs,
    processGroupMessages cfg chatJid agent w = (Returned false, w1) /\
    db_last_agent_timestamp w1 = lastAgentTimestamp w1 /\
    recoverPendingMessages cfg q w1 = (Returned tt, w2) /\
    only_trace_grows w1 w2 evs /\
    In (EvEnqueueMessageCheck chatJid) evs.
Proof.
  intros Hrun Herr.
  destruct (process_run cfg chatJid agent w group m0 rest Hrun)
    as (w1 & Hp & _ & Hc & Hd & _ & _ & Hg & Hm).
  rewrite Herr in Hp, Hc. cbn in Hp.
  destruct (recover_run w1) as (w2 & evs & Hr & Ho & _ & Hin).
  exists w1, w2, evs. split; [exact Hp|]. split; [rewrite Hd, Hc, Herr; reflexivity|].
  split; [exact Hr|]. split; [exact Ho|].
  apply Hin. destruct Hrun as (Hreg & Hmissed & _). split.
  - exists group. rewrite Hg. exact Hreg.
  - assert (Ec : cursor w1 chatJid = cursor w chatJid).
    { unfold cursor at 1. rewrite Hc, lookup_insert_eq. reflexivity. }
    rewrite Hm, Ec, Hmissed. discriminate.
Qed.

End Recovery.

(** ** A tick while a run is in flight *)

Section InFlight.
Variable cfg : Config.




End InFlight.

(** ** The sample chat *)

Lemma loopGroup_pipes_witness :
  exists w',
    loopGroup cfg0 live_queue ("G1@g.us", [msg3; msg4; msg5])
      (world_t2 [msg0; msg1; msg2; msg3; msg4; msg5]) = (Returned tt, w') /\
    trace w' = trace (world_t2 [msg0; msg1; msg2; msg3; msg4; msg5]) ++
      [EvPiped "G1@g.us" (formatMessages cfg0 [msg3; msg4; msg5]);
       EvSaveState (lastTimestamp (world_t2 [msg0; msg1; msg2; msg3; msg4; msg5]))
         (<["G1@g.us" := timestamp (List.last [msg3; msg4; msg5] msg3)]>
            (lastAgentTimestamp (world_t2 [msg0; msg1; msg2; msg3; msg4; msg5])))] /\
    lastAgentTimestamp w' =
      <["G1@g.us" := timestamp (List.last [msg3; msg4; msg5] msg3)]>
        (lastAgentTimestamp (world_t2 [msg0; msg1; msg2; msg3; msg4; msg5])) /\
    db_last_agent_timestamp w' = lastAgentTimestamp w' /\
    (forall m db', In m [msg3; msg4; msg5] ->
       ~ In m (getMessagesSince db' "G1@g.us" (cursor w' "G1@g.us") (ASSISTANT_NAME cfg0))).
Proof.
  refine (loopGroup_pipes_or_enqueues cfg0 live_queue "G1@g.us" [msg3; msg4; msg5]
            (world_t2 [msg0; msg1; msg2; msg3; msg4; msg5]) family msg3 [msg4; msg5]
            _ _ _); vm_compute; reflexivity.
Defined.

Lemma quiet_tick_witness :
  messageLoopTick cfg0 idle_queue (world_t2 [msg0; msg1; msg2])
  = (Returned tt, world_t2 [msg0; msg1; msg2]).
Proof.
  refine (quiet_tick_changes_nothing cfg0 idle_queue (world_t2 [msg0; msg1; msg2]) _).
  vm_compute. reflexivity.
Defined.

Lemma recovery_witness :
  exists w' evs,
    recoverPendingMessages cfg0 idle_queue world0 = (Returned tt, w') /\
    only_trace_grows world0 w' evs /\
    (forall e, In e evs -> exists jid, e = EvEnqueueMessageCheck jid) /\
    (forall jid,
       In (EvEnqueueMessageCheck jid) evs <->
       (exists group, registeredGroups world0 !! jid = Some group) /\
       getMessagesSince (db_messages world0) jid (cursor world0 jid) (ASSISTANT_NAME cfg0)
         <> []).
Proof.
  exact (recovery_enqueues_pending_chats cfg0 idle_queue (fun _ => eq_refl) world0).
Defined.

Lemma failed_run_witness :
  exists w1 w2 evs,
    processGroupMessages cfg0 "G1@g.us" agent_timeout world0 = (Returned false, w1) /\
    db_last_agent_timestamp w1 = lastAgentTimestamp w1 /\
    recoverPendingMessages cfg0 idle_queue w1 = (Returned tt, w2) /\
    only_trace_grows w1 w2 evs /\
    In (EvEnqueueMessageCheck "G1@g.us") evs.
Proof.
  exact (failed_run_is_recovered cfg0 idle_queue (fun _ => eq_refl) "G1@g.us"
           agent_timeout world0 family msg0 [msg1; msg2] world0_reaches_agent eq_refl).
Defined.

(** ** The prompt of a run, piped again *)



End LoopFacts.

(* ===================================================================== *)
(** * Sessions and the typing indicator across runs *)
(* ===================================================================== *)

Module SessionFacts.
Import Store Types Router StoreFacts RouterFacts Samples.
Local Open Scope list_scope.

Section WithConfig.
Variable cfg : Config.

(** ** The session of a group *)



(** The fields that neither the cursors nor the trace touch. *)
Definition same_sessions (w w' : World) : Prop :=
  sessions w' = sessions w /\ db_sessions w' = db_sessions w.







(** ** The typing indicator *)

Lemma frame_events_no_typing (group : RegisteredGroup) (chatJid lastTs : string)
    (agentTs : gmap string string) (fs : list ContainerOutput) (jid : string) (b : bool) :
  ~ In (EvSetTyping jid b) (concat (map (frame_events group chatJid lastTs agentTs) fs)).
Proof.
  induction fs as [|f fs IH]; cbn [map concat]; [intros []|].
  rewrite in_app_iff. intros [H|H]; [|exact (IH H)].
  unfold frame_events, session_events, reply_events in H.
  apply in_app_iff in H as [H|H].
  - destruct (truthy_opt (newSessionId f)); cbn [In] in H; intuition discriminate.
  - destruct (truthy_opt (result f)) as [raw|]; [|destruct H].
    destruct (Js.truthy (reply_text raw)); cbn [In] in H; intuition discriminate.
Qed.

(** A run that reaches the agent switches the typing indicator of the
    chat on once and off once, with the call of the agent in between,
    also when the runner rejects or reports an error; it sets no other
    typing indicator. *)
Theorem typing_indicator_always_cleared (chatJid : string) (agent : AgentRun) (w : World)
    (group : RegisteredGroup) (m0 : NewMessage) (rest : list NewMessage) :
  reaches_agent cfg w chatJid group m0 rest ->
  exists before during after input,
    events_of (processGroupMessages cfg chatJid agent) w =
      before ++ [EvSetTyping chatJid true] ++ during ++ [EvSetTyping chatJid false] ++ after /\
    In (EvRunAgent (folder group) input) during /\
    (forall jid b, ~ In (EvSetTyping jid b) before) /\
    (forall jid b, ~ In (EvSetTyping jid b) during) /\
    (forall jid b, ~ In (EvSetTyping jid b) after).
Proof.
  intros Hrun.
  destruct (process_run cfg chatJid agent w group m0 rest Hrun) as (w' & Hp & Ht & _).
  rewrite (events_of_app _ w _ (eq_trans (f_equal trace (f_equal snd Hp)) Ht)).
  set (advanced := <[chatJid := timestamp (List.last (m0 :: rest) m0)]> (lastAgentTimestamp w)).
  exists [EvSaveState (lastTimestamp w) advanced].
  exists ([EvWriteTasksSnapshot (folder group)
             (String.eqb (folder group) (MAIN_GROUP_FOLDER cfg));
           EvWriteGroupsSnapshot (folder group)
             (String.eqb (folder group) (MAIN_GROUP_FOLDER cfg));
           EvRunAgent (folder group) (agent_input cfg w chatJid group (m0 :: rest))] ++
          concat (map (frame_events group chatJid (lastTimestamp w) advanced) (frames agent)) ++
          match final agent with
          | Some output => session_events group output
          | None => []
          end).
  exists (if terminal_error agent
          then [EvSaveState (lastTimestamp w) (<[chatJid := cursor w chatJid]> advanced)]
          else []).
  exists (agent_input cfg w chatJid group (m0 :: rest)).
  split; [|split; [|split; [|split]]].
  - unfold prelude, epilogue. cbn [app]. rewrite <- !app_assoc. reflexivity.
  - cbn [app In]. auto.
  - intros jid b [H|[]]. discriminate H.
  - intros jid b. cbn [app In]. intros [H|[H|[H|H]]]; try discriminate H.
    apply in_app_iff in H as [H|H]; [exact (frame_events_no_typing _ _ _ _ _ _ _ H)|].
    destruct (final agent) as [output|]; [|destruct H].
    unfold session_events in H.
    destruct (truthy_opt (newSessionId output)); cbn [In] in H; intuition discriminate.
  - intros jid b. destruct (terminal_error agent); cbn [In]; intuition discriminate.
Qed.

End WithConfig.

(** ** The sample chat *)


Lemma typing_indicator_witness :
  exists before during after input,
    events_of (processGroupMessages cfg0 "G1@g.us" agent_timeout) world0 =
      before ++ [EvSetTyping "G1@g.us" true] ++ during
      ++ [EvSetTyping "G1@g.us" false] ++ after /\
    In (EvRunAgent "family" input) during.
Proof.
  destruct (typing_indicator_always_cleared cfg0 "G1@g.us" agent_timeout world0 family msg0
              [msg1; msg2] world0_reaches_agent)
    as (before & during & after & input & E & Hin & _).
  exists before, during, after, input. split; [exact E|exact Hin].
Defined.

End SessionFacts.

(* ===================================================================== *)
(** * The buffers and the signals of the OpenCode runner *)
(* ===================================================================== *)

Module OpenCodeBounds.
Import Types OpenCode OpenCodeFacts TextFacts Samples.
Local Open Scope list_scope.

Section WithRuntime.
Variable rt : Runtime.
Variable group : RegisteredGroup.
Variable opts_timeoutMs : option Z.

Abbreviation ms := (timeoutMs rt group opts_timeoutMs).
Abbreviation run := (runOpenCodeAgent rt group opts_timeoutMs).
Abbreviation size s := (N.of_nat (String.length s)).

(** ** The output cap *)

Lemma capped_bound (buf chunk : string) :
  (size buf <= CONTAINER_MAX_OUTPUT_SIZE rt)%N ->
  (size (fst (capped rt buf chunk)) <= CONTAINER_MAX_OUTPUT_SIZE rt)%N /\
  (snd (capped rt buf chunk) = true ->
   size (fst (capped rt buf chunk)) = CONTAINER_MAX_OUTPUT_SIZE rt) /\
  (snd (capped rt buf chunk) = false -> fst (capped rt buf chunk) = (buf ++ chunk)%string).
Proof.
  intros H. unfold capped.
  destruct (N.ltb_spec (CONTAINER_MAX_OUTPUT_SIZE rt - size buf) (size chunk)) as [Hlt|Hge];
    cbn [fst snd]; rewrite length_append, ?take_length.
  - split; [lia|]. split; [lia|discriminate].
  - split; [lia|]. split; [discriminate|reflexivity].
Qed.

(** Both buffers are within the cap, and a buffer that was cut stands
    exactly at the cap. *)
Definition within_cap (p : Proc) : Prop :=
  (size (stdout p) <= CONTAINER_MAX_OUTPUT_SIZE rt)%N /\
  (size (stderr p) <= CONTAINER_MAX_OUTPUT_SIZE rt)%N /\
  (stdoutTruncated p = true -> size (stdout p) = CONTAINER_MAX_OUTPUT_SIZE rt) /\
  (stderrTruncated p = true -> size (stderr p) = CONTAINER_MAX_OUTPUT_SIZE rt).

Lemma resolve_buffers (out : ContainerOutput) (p : Proc) :
  stdout (resolve out p) = stdout p /\ stderr (resolve out p) = stderr p /\
  stdoutTruncated (resolve out p) = stdoutTruncated p /\
  stderrTruncated (resolve out p) = stderrTruncated p /\
  capturedSessionId (resolve out p) = capturedSessionId p /\
  sigterm_timers (resolve out p) = sigterm_timers p.
Proof. unfold resolve. destruct (settled p); repeat split. Qed.

Lemma handle_within_cap (p : Proc) (e : ProcEvent) :
  within_cap p -> within_cap (handle rt ms p e).
Proof.
  intros (H1 & H2 & H3 & H4). destruct e as [chunk|chunk| | |code|message]; cbn [handle].
  - unfold on_stdout. destruct (stdoutTruncated p) eqn:Et; [repeat split; auto|].
    destruct (scan_lines_frame rt (Js.split "010" chunk) p) as (Eo & Ee & _ & Ete & _).
    pose proof (capped_bound (stdout (fold_left (scan_line rt) (Js.split "010" chunk) p)) chunk)
      as Hc.
    destruct (capped rt _ chunk) as [buf truncated]. cbn [fst snd] in Hc.
    rewrite Eo in Hc. destruct (Hc H1) as (B1 & B2 & _).
    unfold within_cap. cbn. rewrite Ee, Ete. repeat split; auto.
  - unfold on_stderr. destruct (stderrTruncated p) eqn:Et; [repeat split; auto|].
    pose proof (capped_bound (stderr p) chunk) as Hc.
    destruct (capped rt _ chunk) as [buf truncated]. cbn [fst snd] in Hc.
    destruct (Hc H2) as (B1 & B2 & _).
    unfold within_cap. cbn. repeat split; auto.
  - destruct (timeout_armed p); [|repeat split; auto]. unfold on_timeout, within_cap.
    destruct (resolve_buffers (timeout_output ms) (kill SIGKILL (disarm p)))
      as (-> & -> & -> & -> & _).
    repeat split; auto.
  - destruct (sigterm_timers p); repeat split; auto.
  - rewrite on_close_spec. unfold within_cap.
    destruct (resolve_buffers (close_output rt code p) (disarm p)) as (-> & -> & -> & -> & _).
    repeat split; auto.
  - unfold on_error, within_cap.
    destruct (resolve_buffers
                (mkOutput Error None None
                   (Some ("Failed to spawn opencode: " ++ message)%string)) (disarm p))
      as (-> & -> & -> & -> & _).
    repeat split; auto.
Qed.

(** Whatever the child writes and whenever, the two buffers the runner
    keeps never grow beyond [CONTAINER_MAX_OUTPUT_SIZE] code units, and a
    buffer that was cut holds exactly that many. *)
Theorem buffers_within_cap (evs : list ProcEvent) :
  (size (stdout (run evs)) <= CONTAINER_MAX_OUTPUT_SIZE rt)%N /\
  (size (stderr (run evs)) <= CONTAINER_MAX_OUTPUT_SIZE rt)%N /\
  (stdoutTruncated (run evs) = true ->
   size (stdout (run evs)) = CONTAINER_MAX_OUTPUT_SIZE rt) /\
  (stderrTruncated (run evs) = true ->
   size (stderr (run evs)) = CONTAINER_MAX_OUTPUT_SIZE rt).
Proof.
  unfold runOpenCodeAgent.
  assert (G : forall p, within_cap p -> within_cap (fold_left (handle rt ms) evs p)).
  { induction evs as [|e evs' IH]; intros p H; [exact H|].
    apply IH, handle_within_cap, H. }
  apply G. unfold within_cap, spawned. cbn. repeat split; try lia; discriminate.
Qed.

(** ** After the cut *)

(** The [SIGTERM]s among the signals sent. *)
Definition sigterm_sent (sigs : list Signal) : nat :=
  length (List.filter (fun s => match s with SIGTERM => true | SIGKILL => false end) sigs).

Lemma sigterm_sent_snoc (sigs : list Signal) (s : Signal) :
  sigterm_sent (sigs ++ [s]) =
  sigterm_sent sigs + match s with SIGTERM => 1 | SIGKILL => 0 end.
Proof.
  unfold sigterm_sent. rewrite List.filter_app, length_app. destruct s; reflexivity.
Qed.

(** What no event changes once the standard output was cut. *)
Definition frozen (p p' : Proc) : Prop :=
  stdout p' = stdout p /\
  stdoutTruncated p' = true /\
  capturedSessionId p' = capturedSessionId p /\
  sigterm_timers p' + sigterm_sent (signals p') = sigterm_timers p + sigterm_sent (signals p).

Lemma handle_frozen (p : Proc) (e : ProcEvent) :
  stdoutTruncated p = true -> frozen p (handle rt ms p e).
Proof.
  intros Ht. destruct e as [chunk|chunk| | |code|message]; cbn [handle].
  - unfold on_stdout. rewrite Ht. repeat split. exact Ht.
  - unfold on_stderr. destruct (stderrTruncated p); [repeat split; exact Ht|].
    destruct (capped rt _ chunk) as [buf truncated]. repeat split. exact Ht.
  - destruct (timeout_armed p); [|repeat split; exact Ht]. unfold on_timeout, frozen.
    destruct (resolve_buffers (timeout_output ms) (kill SIGKILL (disarm p)))
      as (-> & _ & -> & _ & -> & ->).
    destruct (resolve_frame (timeout_output ms) (kill SIGKILL (disarm p))) as (_ & ->).
    cbn [kill disarm signals sigterm_timers stdout stdoutTruncated capturedSessionId].
    rewrite sigterm_sent_snoc. repeat split; try first [exact Ht | lia].
  - destruct (sigterm_timers p) as [|n] eqn:En; [repeat split; try first [exact Ht | congruence]|].
    unfold on_sigterm_timer, frozen.
    cbn [kill set_sigterm_timers signals sigterm_timers stdout stdoutTruncated
         capturedSessionId].
    rewrite sigterm_sent_snoc, En. repeat split; try first [exact Ht | cbn; lia].
  - rewrite on_close_spec. unfold frozen.
    destruct (resolve_buffers (close_output rt code p) (disarm p))
      as (-> & _ & -> & _ & -> & ->).
    destruct (resolve_frame (close_output rt code p) (disarm p)) as (_ & ->).
    repeat split. exact Ht.
  - unfold on_error, frozen.
    destruct (resolve_buffers
                (mkOutput Error None None
                   (Some ("Failed to spawn opencode: " ++ message)%string)) (disarm p))
      as (-> & _ & -> & _ & -> & ->).
    destruct (resolve_frame
                (mkOutput Error None None
                   (Some ("Failed to spawn opencode: " ++ message)%string)) (disarm p))
      as (_ & ->).
    repeat split. exact Ht.
Qed.

(** Once the standard output was cut at the cap, the runner no longer
    reads what the child writes to it: the buffer and the captured session
    id stay as they are and no completion line sets a kill timer any more,
    so every [SIGTERM] sent from then on was scheduled before the cut. *)
Theorem truncated_stdout_is_frozen (evs later : list ProcEvent) :
  stdoutTruncated (run evs) = true ->
  stdout (run (evs ++ later)) = stdout (run evs) /\
  stdoutTruncated (run (evs ++ later)) = true /\
  capturedSessionId (run (evs ++ later)) = capturedSessionId (run evs) /\
  sigterm_timers (run (evs ++ later)) + sigterm_sent (signals (run (evs ++ later)))
    = sigterm_timers (run evs) + sigterm_sent (signals (run evs)).
Proof.
  unfold runOpenCodeAgent. rewrite fold_left_app.
  generalize (fold_left (handle rt ms) evs (spawned)). intros p Ht.
  change (frozen p (fold_left (handle rt ms) later p)).
  revert p Ht. induction later as [|e later IH]; intros p Ht; [repeat split; exact Ht|].
  cbn [fold_left]. destruct (handle_frozen p e Ht) as (E1 & E2 & E3 & E4).
  destruct (IH _ E2) as (F1 & F2 & F3 & F4).
  unfold frozen. rewrite F1, F3, F4, E1, E3, E4. repeat split. exact F2.
Qed.

(** ** The forceful signal *)

Definition sigkill_sent (sigs : list Signal) : nat :=
  length (List.filter (fun s => match s with SIGKILL => true | SIGTERM => false end) sigs).

Lemma sigkill_sent_snoc (sigs : list Signal) (s : Signal) :
  sigkill_sent (sigs ++ [s]) =
  sigkill_sent sigs + match s with SIGKILL => 1 | SIGTERM => 0 end.
Proof.
  unfold sigkill_sent. rewrite List.filter_app, length_app. destruct s; reflexivity.
Qed.

(** The timer is armed only while nothing is settled and nothing was
    killed by force; [SIGKILL] was sent, and then once, exactly when the
    promise is settled with the timeout. *)
Definition kill_invariant (p : Proc) : Prop :=
  (timeout_armed p = true -> settled p = None) /\
  (settled p = None -> sigkill_sent (signals p) = 0) /\
  (forall out, settled p = Some out ->
     (out = timeout_output ms /\ sigkill_sent (signals p) = 1) \/
     (out <> timeout_output ms /\ sigkill_sent (signals p) = 0)).

Lemma not_timeout_exit (code : option Z) (p : Proc) : exit_output code p <> timeout_output ms.
Proof.
  unfold exit_output, timeout_output. intros H. discriminate H.
Qed.

Lemma not_timeout_empty (p : Proc) : empty_output p <> timeout_output ms.
Proof.
  unfold empty_output, timeout_output. intros H. discriminate H.
Qed.

Lemma not_timeout_close (code : option Z) (p : Proc) :
  close_output rt code p <> timeout_output ms.
Proof.
  unfold close_output.
  destruct code as [c|]; [destruct (negb (Z.eqb c 0)); [apply not_timeout_exit|]|];
    (destruct (negb (Js.truthy _)); [apply not_timeout_empty|discriminate]).
Qed.

Lemma not_timeout_spawn (message : string) :
  mkOutput Error None None (Some ("Failed to spawn opencode: " ++ message)%string)
  <> timeout_output ms.
Proof.
  unfold timeout_output. intros H. discriminate H.
Qed.

Lemma handle_kill_invariant (p : Proc) (e : ProcEvent) :
  kill_invariant p -> kill_invariant (handle rt ms p e).
Proof.
  intros (Ha & Hn & Hs). destruct e as [chunk|chunk| | |code|message]; cbn [handle].
  - unfold kill_invariant.
    destruct (on_stdout_frame rt chunk p) as (_ & -> & -> & ->). exact (conj Ha (conj Hn Hs)).
  - unfold kill_invariant.
    destruct (on_stderr_frame rt chunk p) as (_ & -> & -> & ->). exact (conj Ha (conj Hn Hs)).
  - destruct (timeout_armed p) eqn:Ea;
      [|split; [rewrite Ea; discriminate|exact (conj Hn Hs)]].
    specialize (Ha eq_refl). unfold on_timeout, kill_invariant.
    destruct (resolve_frame (timeout_output ms) (kill SIGKILL (disarm p))) as (-> & ->).
    rewrite settled_resolve. cbn [kill disarm signals settled timeout_armed].
    rewrite Ha, sigkill_sent_snoc, (Hn Ha).
    split; [discriminate|]. split; [discriminate|].
    intros out [= <-]. left. split; reflexivity.
  - destruct (sigterm_timers p) as [|n]; [exact (conj Ha (conj Hn Hs))|].
    unfold on_sigterm_timer, kill_invariant.
    cbn [kill set_sigterm_timers signals settled timeout_armed].
    rewrite sigkill_sent_snoc, Nat.add_0_r.
    exact (conj Ha (conj Hn Hs)).
  - rewrite on_close_spec. unfold kill_invariant.
    destruct (resolve_frame (close_output rt code p) (disarm p)) as (-> & ->).
    rewrite settled_resolve. cbn. split; [discriminate|].
    destruct (settled p) as [o|] eqn:Es.
    + split; [discriminate|]. intros out [= <-]. apply Hs. reflexivity.
    + split; [discriminate|]. intros out [= <-]. right.
      split; [apply not_timeout_close|apply Hn; reflexivity].
  - unfold on_error, kill_invariant.
    destruct (resolve_frame
                (mkOutput Error None None
                   (Some ("Failed to spawn opencode: " ++ message)%string)) (disarm p))
      as (-> & ->).
    rewrite settled_resolve. cbn. split; [discriminate|].
    destruct (settled p) as [o|] eqn:Es.
    + split; [discriminate|]. intros out [= <-]. apply Hs. reflexivity.
    + split; [discriminate|]. intros out [= <-]. right.
      split; [apply not_timeout_spawn|apply Hn; reflexivity].
Qed.

(** The runner kills the child by force at most once, and it has done so
    exactly when its promise is settled with the timeout error: no other
    path sends [SIGKILL], and a timeout is never reported without it. *)
Theorem sigkill_iff_timeout_reported (evs : list ProcEvent) :
  sigkill_sent (signals (run evs)) <= 1 /\
  (sigkill_sent (signals (run evs)) = 1 <->
   settled (run evs) = Some (timeout_output ms)).
Proof.
  assert (G : kill_invariant (run evs)).
  { unfold runOpenCodeAgent.
    assert (G : forall p, kill_invariant p -> kill_invariant (fold_left (handle rt ms) evs p)).
    { induction evs as [|e evs' IH]; intros p H; [exact H|].
      apply IH, handle_kill_invariant, H. }
    apply G. split; [reflexivity|]. split; [reflexivity|discriminate]. }
  destruct G as (_ & Hn & Hs). destruct (settled (run evs)) as [out|] eqn:Es.
  - destruct (Hs out eq_refl) as [(-> & ->)|(Hne & ->)].
    + split; [lia|]. split; reflexivity.
    + split; [lia|]. split; [discriminate|]. intros [= E]. contradiction.
  - rewrite (Hn eq_refl). split; [lia|]. split; discriminate.
Qed.

(** ** The signals of a timeout *)

(** A line of the standard output that makes the runner schedule a
    [SIGTERM]: a [step_finish] event with the reason [stop] or [error]. *)
Definition is_completion (line : string) : bool :=
  Js.truthy (Js.trim line)
  && match JSON_parse rt line with
     | Some j =>
         match get (Some j) "type" with
         | Some ty =>
             is_str ty "step_finish"
             && (is_str (get_opt (get_opt (Some j) "part") "reason") "stop"
                 || is_str (get_opt (get_opt (Some j) "part") "reason") "error")
         | None => false
         end
     | None => false
     end.

(** The completion lines among the chunks written to the standard
    output. *)
Definition completions_of (e : ProcEvent) : nat :=
  match e with
  | ev_stdout chunk => length (List.filter is_completion (Js.split "010" chunk))
  | _ => 0
  end.

Definition completions (evs : list ProcEvent) : nat :=
  list_sum (map completions_of evs).

Lemma completions_cons (e : ProcEvent) (evs : list ProcEvent) :
  completions (e :: evs) = completions_of e + completions evs.
Proof. reflexivity. Qed.

Lemma scan_line_timers (p : Proc) (line : string) :
  sigterm_timers (scan_line rt p line)
  = sigterm_timers p + (if is_completion line then 1 else 0).
Proof.
  unfold scan_line, is_completion.
  destruct (Js.truthy (Js.trim line)); cbn [negb andb]; [|lia].
  destruct (JSON_parse rt line) as [j|]; [|lia].
  destruct (get (Some j) "type") as [ty|]; [|lia].
  destruct (is_str ty "session" && truthy (get_opt (Some j) "id")).
  - destruct (get_opt (Some j) "id") as [[| | |sid| |]|];
      destruct (is_str ty "step_finish" && _); cbn; lia.
  - destruct (is_str ty "step_finish" && _); cbn; lia.
Qed.

Lemma scan_lines_timers (lines : list string) (p : Proc) :
  sigterm_timers (fold_left (scan_line rt) lines p)
  = sigterm_timers p + length (List.filter is_completion lines).
Proof.
  revert p. induction lines as [|l ls IH]; intros p; cbn [fold_left List.filter]; [cbn; lia|].
  rewrite IH, scan_line_timers. destruct (is_completion l); cbn [length]; lia.
Qed.

Lemma on_stdout_timers (chunk : string) (p : Proc) :
  sigterm_timers (on_stdout rt chunk p)
  <= sigterm_timers p + length (List.filter is_completion (Js.split "010" chunk)).
Proof.
  unfold on_stdout. destruct (stdoutTruncated p); [lia|].
  destruct (capped rt _ chunk) as [buf truncated]. cbn [set_stdout sigterm_timers].
  rewrite scan_lines_timers. lia.
Qed.

(** Every [SIGTERM] sent or scheduled answers a completion line. *)
Lemma sigterm_bound (evs : list ProcEvent) (p : Proc) (n : nat) :
  sigterm_sent (signals p) + sigterm_timers p <= n ->
  sigterm_sent (signals (fold_left (handle rt ms) evs p))
  + sigterm_timers (fold_left (handle rt ms) evs p) <= n + completions evs.
Proof.
  revert p n. induction evs as [|e evs IH]; intros p n H;
    [unfold completions; cbn; lia|].
  cbn [fold_left]. rewrite completions_cons, Nat.add_assoc. apply IH.
  unfold completions_of.
  destruct e as [chunk|chunk| | |code|message]; cbn [handle].
  - destruct (on_stdout_frame rt chunk p) as (_ & _ & -> & _).
    pose proof (on_stdout_timers chunk p). lia.
  - destruct (on_stderr_frame rt chunk p) as (_ & _ & -> & _).
    unfold on_stderr. destruct (stderrTruncated p); [lia|].
    destruct (capped rt _ chunk) as [buf truncated]. cbn [set_stderr sigterm_timers]. lia.
  - destruct (timeout_armed p); [|lia]. unfold on_timeout.
    destruct (resolve_frame (timeout_output ms) (kill SIGKILL (disarm p))) as (_ & ->).
    destruct (resolve_buffers (timeout_output ms) (kill SIGKILL (disarm p)))
      as (_ & _ & _ & _ & _ & ->).
    cbn [kill disarm signals sigterm_timers]. rewrite sigterm_sent_snoc. lia.
  - destruct (sigterm_timers p) as [|k] eqn:Ek; [lia|]. unfold on_sigterm_timer.
    cbn [kill set_sigterm_timers signals sigterm_timers]. rewrite sigterm_sent_snoc, Ek.
    cbn [pred]. lia.
  - rewrite on_close_spec.
    destruct (resolve_frame (close_output rt code p) (disarm p)) as (_ & ->).
    destruct (resolve_buffers (close_output rt code p) (disarm p))
      as (_ & _ & _ & _ & _ & ->).
    cbn [disarm signals sigterm_timers]. lia.
  - unfold on_error.
    destruct (resolve_frame
                (mkOutput Error None None
                   (Some ("Failed to spawn opencode: " ++ message)%string)) (disarm p))
      as (_ & ->).
    destruct (resolve_buffers
                (mkOutput Error None None
                   (Some ("Failed to spawn opencode: " ++ message)%string)) (disarm p))
      as (_ & _ & _ & _ & _ & ->).
    cbn [disarm signals sigterm_timers]. lia.
Qed.

Lemma run_kill_invariant (evs : list ProcEvent) : kill_invariant (run evs).
Proof.
  unfold runOpenCodeAgent.
  assert (G : forall p, kill_invariant p -> kill_invariant (fold_left (handle rt ms) evs p)).
  { induction evs as [|e evs' IH]; intros p H; [exact H|].
    apply IH, handle_kill_invariant, H. }
  apply G. split; [reflexivity|]. split; [reflexivity|discriminate].
Qed.

Lemma no_signal (sigs : list Signal) :
  sigterm_sent sigs = 0 -> sigkill_sent sigs = 0 -> sigs = [].
Proof.
  destruct sigs as [|[|] sigs]; [reflexivity| |]; unfold sigterm_sent, sigkill_sent;
    cbn [List.filter length]; discriminate.
Qed.

(** C7, as the code has it.  When the timer of
    [opts.timeoutMs ?? group.containerConfig?.timeout ?? CONTAINER_TIMEOUT]
    milliseconds expires while the child is running (no [close], no
    [error], no earlier expiry), the call sends [SIGKILL] at once and
    nothing else: the timeout has no graceful phase, it neither sends nor
    schedules a [SIGTERM], and no [SIGKILL] was sent before it.  The
    promise is settled, for good, with
    [{status: 'error', result: null, error: 'OpenCode timed out after <ms>ms'}].
    The [SIGTERM]s of a run all belong to the completion path: there are
    never more of them, sent or scheduled, than completion lines were
    written to the standard output.  Such a [SIGTERM] can come before the
    [SIGKILL] of a timeout; when no completion line was written, the
    [SIGKILL] is the only signal of the run. *)
Theorem C7_timeout_sends_sigkill_only (evs : list ProcEvent) :
  child_running evs = true ->
  signals (run (evs ++ [ev_timeout])) = signals (run evs) ++ [SIGKILL] /\
  sigterm_timers (run (evs ++ [ev_timeout])) = sigterm_timers (run evs) /\
  sigkill_sent (signals (run evs)) = 0 /\
  settled (run (evs ++ [ev_timeout]))
    = Some (mkOutput Error None None
              (Some ("OpenCode timed out after " ++ pretty ms ++ "ms")%string)) /\
  (forall later,
     settled (run (evs ++ ev_timeout :: later))
     = Some (mkOutput Error None None
               (Some ("OpenCode timed out after " ++ pretty ms ++ "ms")%string))) /\
  ms = match opts_timeoutMs with
       | Some t => t
       | None =>
           match option_map timeout (containerConfig group) with
           | Some (Some t) => t
           | _ => CONTAINER_TIMEOUT rt
           end
       end /\
  sigterm_sent (signals (run evs)) + sigterm_timers (run evs) <= completions evs /\
  (completions evs = 0 -> signals (run (evs ++ [ev_timeout])) = [SIGKILL]).
Proof.
  intros Hrun.
  destruct (timeout_step rt group opts_timeoutMs evs Hrun) as (Hsig & Hset & Hlater & Hms).
  pose proof (running_not_settled rt group opts_timeoutMs evs Hrun) as Hnone.
  destruct (run_kill_invariant evs) as (_ & Hkill & _). specialize (Hkill Hnone).
  pose proof (sigterm_bound evs spawned 0) as Hterm.
  unfold runOpenCodeAgent in Hterm |- *. fold ms in Hterm.
  specialize (Hterm (Nat.le_refl 0)). cbn [Nat.add] in Hterm.
  split; [exact Hsig|]. split.
  { rewrite fold_left_app. cbn [fold_left handle].
    pose proof (armed_while_running rt group opts_timeoutMs evs) as Harm.
    unfold runOpenCodeAgent in Harm. fold ms in Harm. rewrite Harm, Hrun. unfold on_timeout.
    destruct (resolve_buffers (timeout_output ms)
                (kill SIGKILL (disarm (fold_left (handle rt ms) evs spawned))))
      as (_ & _ & _ & _ & _ & ->).
    reflexivity. }
  split; [exact Hkill|]. split; [exact Hset|]. split; [exact Hlater|].
  split; [exact Hms|]. split; [exact Hterm|].
  intros Hzero. unfold runOpenCodeAgent in Hsig. fold ms in Hsig. rewrite Hsig.
  rewrite (no_signal (signals (fold_left (handle rt ms) evs spawned))); [reflexivity| |].
  - rewrite Hzero in Hterm. lia.
  - exact Hkill.
Qed.

End WithRuntime.

(** ** A timeout after a completion line *)

Lemma C7_timeout_witness :
  signals (runOpenCodeAgent rt0 family None
             ([ev_stdout stop_line; ev_sigterm_timer] ++ [ev_timeout]))
    = [SIGTERM; SIGKILL] /\
  settled (runOpenCodeAgent rt0 family None
             ([ev_stdout stop_line; ev_sigterm_timer] ++ [ev_timeout]))
    = Some (mkOutput Error None None (Some "OpenCode timed out after 300000ms")) /\
  sigterm_sent (signals (runOpenCodeAgent rt0 family None
                           [ev_stdout stop_line; ev_sigterm_timer]))
  + sigterm_timers (runOpenCodeAgent rt0 family None [ev_stdout stop_line; ev_sigterm_timer])
  <= 1.
Proof.
  destruct (C7_timeout_sends_sigkill_only rt0 family None
              [ev_stdout stop_line; ev_sigterm_timer] eq_refl)
    as (Hsig & _ & _ & Hset & _ & _ & Hterm & _).
  split; [rewrite Hsig; vm_compute; reflexivity|].
  split; [rewrite Hset; vm_compute; reflexivity|].
  exact Hterm.
Defined.

(** ** A run cut at the cap *)

Lemma truncated_stdout_witness :
  stdoutTruncated (runOpenCodeAgent rt_tiny family None [ev_stdout "abcdef"]) = true /\
  stdout (runOpenCodeAgent rt_tiny family None
            ([ev_stdout "abcdef"] ++ [ev_stdout stop_line; ev_close (Some 0%Z)]))
  = "abcd".
Proof.
  split; [reflexivity|].
  destruct (truncated_stdout_is_frozen rt_tiny family None [ev_stdout "abcdef"]
              [ev_stdout stop_line; ev_close (Some 0%Z)] eq_refl) as (H & _).
  rewrite H. reflexivity.
Defined.

End OpenCodeBounds.

(* ===================================================================== *)
(** * The response taken from plain output *)
(* ===================================================================== *)

Module OpenCodeText.
Import Types OpenCode Samples.
Local Open Scope list_scope.

(** A line the fallback scan would return: not blank and, trimmed, neither
    a token count, nor a session line, nor a URL. *)
Definition content_line (line : string) : bool :=
  Js.truthy (Js.trim line)
  && negb (Js.includes (Js.trim line) "tokens used"
           || Js.includes (Js.trim line) "session:"
           || Js.startsWith (Js.trim line) "http://").

(** The lines of an output as the scan sees them: split at line feeds,
    one trailing carriage return dropped, white space at the end trimmed. *)
Definition output_lines (rawStdout : string) : list string :=
  map Js.trimEnd (map Js.dropTrailingCR (Js.split "010" rawStdout)).

Lemma last_plain_line_skips (skipped rest : list string) :
  (forall x, In x skipped -> content_line x = false) ->
  last_plain_line (skipped ++ rest) = last_plain_line rest.
Proof.
  induction skipped as [|x xs IH]; intros H; [reflexivity|].
  cbn [app last_plain_line].
  pose proof (H x (or_introl eq_refl)) as Hx. unfold content_line in Hx.
  destruct (Js.truthy (Js.trim x)); cbn [negb andb] in Hx |- *.
  - apply negb_false_iff in Hx. rewrite Hx. apply IH. intros y Hy. apply H. right. exact Hy.
  - apply IH. intros y Hy. apply H. right. exact Hy.
Qed.

Lemma last_plain_line_found (line : string) (rest : list string) :
  content_line line = true -> last_plain_line (line :: rest) = Js.trim line.
Proof.
  unfold content_line. intros H. apply andb_true_iff in H as [Ht Hm].
  apply negb_true_iff in Hm. cbn [last_plain_line]. rewrite Ht, Hm. reflexivity.
Qed.

Section WithRuntime.
Variable rt : Runtime.

Lemma extract_plain_lines (lines : list string) (result : string) :
  (forall x, In x lines -> Js.trim x = EmptyString \/ JSON_parse rt x = None) ->
  fold_left (extract_line rt) lines result = result.
Proof.
  revert result. induction lines as [|x xs IH]; intros result H; [reflexivity|].
  cbn [fold_left]. rewrite IH by (intros y Hy; apply H; right; exact Hy).
  unfold extract_line. destruct (H x (or_introl eq_refl)) as [-> | ->]; [reflexivity|].
  destruct (negb (Js.truthy (Js.trim x))); reflexivity.
Qed.

(** For an output none of whose lines is a JSON text (the plain format),
    the response is the last line that holds content, trimmed: blank
    lines and the lines with a token count, a session id or a URL after
    it are passed over.  When no line holds content the response is
    empty. *)
Theorem plain_output_gives_last_content_line (rawStdout : string) :
  (forall x, In x (output_lines rawStdout) ->
     Js.trim x = EmptyString \/ JSON_parse rt x = None) ->
  (forall before line after,
     output_lines rawStdout = before ++ line :: after ->
     content_line line = true ->
     (forall x, In x after -> content_line x = false) ->
     extractOpenCodeResponse rt rawStdout = Js.trim line) /\
  ((forall x, In x (output_lines rawStdout) -> content_line x = false) ->
   extractOpenCodeResponse rt rawStdout = EmptyString).
Proof.
  intros Hplain.
  assert (E : extractOpenCodeResponse rt rawStdout
              = last_plain_line (rev (output_lines rawStdout))).
  { unfold extractOpenCodeResponse. fold (output_lines rawStdout).
    rewrite (extract_plain_lines _ EmptyString Hplain). reflexivity. }
  rewrite E. split.
  - intros before line after Hl Hline Hafter. rewrite Hl.
    rewrite rev_app_distr. cbn [rev]. rewrite <- !app_assoc. cbn [app].
    rewrite last_plain_line_skips by (intros x Hx; apply Hafter, in_rev, Hx).
    apply last_plain_line_found, Hline.
  - intros Hnone. rewrite <- (app_nil_r (rev (output_lines rawStdout))).
    rewrite last_plain_line_skips by (intros x Hx; apply Hnone, in_rev, Hx).
    reflexivity.
Qed.

End WithRuntime.

(** ** A plain output *)

Lemma plain_output_witness :
  extractOpenCodeResponse rt0 plain_output = "The answer is 42".
Proof.
  assert (Hplain : forall x, In x (output_lines plain_output) ->
            Js.trim x = EmptyString \/ JSON_parse rt0 x = None).
  { intros x Hx. vm_compute in Hx.
    repeat (destruct Hx as [<-|Hx]; [right; reflexivity|]). destruct Hx. }
  destruct (plain_output_gives_last_content_line rt0 plain_output Hplain) as [Hlast _].
  refine (Hlast ["Thinking"] "  The answer is 42" [""; "session: abc"; "1234 tokens used"]
            _ _ _).
  - vm_compute. reflexivity.
  - vm_compute. reflexivity.
  - intros x Hx. repeat (destruct Hx as [<-|Hx]; [vm_compute; reflexivity|]). destruct Hx.
Defined.

End OpenCodeText.

(* ===================================================================== *)
(** * Booting the clone: the polling loops and the first steps *)
(* ===================================================================== *)

Module TartBoot.
Import Types Tart TartFacts TextFacts Samples.
Local Open Scope list_scope.

Section WithHost.
Variable h : Host.

Lemma bind_eval {A B} (m : T A) (k : A -> T B) (tr : list Cmd) :
  bind m k tr =
  match m tr with
  | (Ok a, tr') => k a tr'
  | (Err e, tr') => (Err e, tr')
  end.
Proof. reflexivity. Qed.

(** ** [waitForVMIP] *)

(** What round [i] of [tart ip] yields: an address that is not blank. *)
Definition address (i : nat) : option string :=
  truthy_opt (option_map Js.trim (tart_ip h i)).

Lemma repeat_snoc {A} (x : A) (n : nat) : repeat x n ++ [x] = x :: repeat x n.
Proof. induction n as [|n IH]; [reflexivity|]. simpl. rewrite IH. reflexivity. Qed.

Lemma waitForVMIP_S (vm : string) (n i : nat) (tr : list Cmd) :
  waitForVMIP h vm (S n) i tr =
  match address i with
  | Some ip => (Ok ip, tr ++ [TartIp vm])
  | None => waitForVMIP h vm n (S i) (tr ++ [TartIp vm])
  end.
Proof.
  cbn [waitForVMIP]. unfold bind, issue, address.
  destruct (truthy_opt _); reflexivity.
Qed.

Lemma waitForVMIP_run (vm : string) (n i : nat) (tr : list Cmd) :
  match fst (waitForVMIP h vm n i tr) with
  | Ok ip =>
      exists k, k < n /\ address (i + k) = Some ip /\
        (forall j, j < k -> address (i + j) = None) /\
        snd (waitForVMIP h vm n i tr) = tr ++ repeat (TartIp vm) (S k)
  | Err message =>
      message = ("Failed to get IP address for VM " ++ vm ++ " after 30 attempts")%string /\
      (forall j, j < n -> address (i + j) = None) /\
      snd (waitForVMIP h vm n i tr) = tr ++ repeat (TartIp vm) n
  end.
Proof.
  revert i tr. induction n as [|n IH]; intros i tr.
  - cbn. split; [reflexivity|]. split; [intros j Hj; lia|]. rewrite app_nil_r. reflexivity.
  - rewrite waitForVMIP_S. destruct (address i) as [ip|] eqn:Ea.
    + cbn. exists 0. rewrite Nat.add_0_r. split; [lia|]. split; [exact Ea|].
      split; [intros j Hj; lia|reflexivity].
    + specialize (IH (S i) (tr ++ [TartIp vm])).
      destruct (waitForVMIP h vm n (S i) (tr ++ [TartIp vm])) as [[ip|message] tr'];
        cbn [fst snd] in IH |- *.
      * destruct IH as (k & Hk & Hip & Hblank & ->). exists (S k).
        split; [lia|]. split; [rewrite <- Hip; f_equal; lia|]. split.
        -- intros [|j] Hj; [rewrite Nat.add_0_r; exact Ea|].
           rewrite <- (Hblank j) by lia. f_equal. lia.
        -- rewrite <- app_assoc. reflexivity.
      * destruct IH as (-> & Hblank & ->). split; [reflexivity|]. split.
        -- intros [|j] Hj; [rewrite Nat.add_0_r; exact Ea|].
           rewrite <- (Hblank j) by lia. f_equal. lia.
        -- rewrite <- app_assoc. reflexivity.
Qed.

(** The wait for the clone's address issues [tart ip] until a round
    answers with an address that is not blank, and returns that address,
    trimmed; it never issues the command more than 30 times, and it throws
    only after 30 rounds that all failed or answered blank. *)
Theorem waitForVMIP_polls_at_most_30 (vm : string) (tr : list Cmd) :
  match fst (waitForVMIP h vm 30 0 tr) with
  | Ok ip =>
      exists k, k < 30 /\ address k = Some ip /\
        (forall j, j < k -> address j = None) /\
        snd (waitForVMIP h vm 30 0 tr) = tr ++ repeat (TartIp vm) (S k)
  | Err message =>
      message = ("Failed to get IP address for VM " ++ vm ++ " after 30 attempts")%string /\
      (forall j, j < 30 -> address j = None) /\
      snd (waitForVMIP h vm 30 0 tr) = tr ++ repeat (TartIp vm) 30
  end.
Proof. exact (waitForVMIP_run vm 30 0 tr). Qed.

(** ** [waitForSSH] *)

(** Round [i] of [echo hello] returned with exit code 0. *)
Definition reachable (i : nat) : bool :=
  match ssh_echo h i with
  | Some 0%Z => true
  | _ => false
  end.

Lemma waitForSSH_S (ip : string) (n i : nat) (tr : list Cmd) :
  waitForSSH h ip (S n) i tr =
  if reachable i then (Ok tt, tr ++ [Ssh ip "echo hello"])
  else waitForSSH h ip n (S i) (tr ++ [Ssh ip "echo hello"]).
Proof.
  cbn [waitForSSH]. unfold bind, issue, reachable.
  destruct (ssh_echo h i) as [[| |]|]; reflexivity.
Qed.

Lemma waitForSSH_run (ip : string) (n i : nat) (tr : list Cmd) :
  match fst (waitForSSH h ip n i tr) with
  | Ok _ =>
      exists k, k < n /\ reachable (i + k) = true /\
        (forall j, j < k -> reachable (i + j) = false) /\
        snd (waitForSSH h ip n i tr) = tr ++ repeat (Ssh ip "echo hello") (S k)
  | Err message =>
      message = ("Failed to establish SSH connectivity to " ++ ip
                 ++ " after 30 attempts")%string /\
      (forall j, j < n -> reachable (i + j) = false) /\
      snd (waitForSSH h ip n i tr) = tr ++ repeat (Ssh ip "echo hello") n
  end.
Proof.
  revert i tr. induction n as [|n IH]; intros i tr.
  - cbn. split; [reflexivity|]. split; [intros j Hj; lia|]. rewrite app_nil_r. reflexivity.
  - rewrite waitForSSH_S. destruct (reachable i) eqn:Ea.
    + cbn. exists 0. rewrite Nat.add_0_r. split; [lia|]. split; [exact Ea|].
      split; [intros j Hj; lia|reflexivity].
    + specialize (IH (S i) (tr ++ [Ssh ip "echo hello"])).
      destruct (waitForSSH h ip n (S i) (tr ++ [Ssh ip "echo hello"])) as [[u|message] tr'];
        cbn [fst snd] in IH |- *.
      * destruct IH as (k & Hk & Hip & Hblank & ->). exists (S k).
        split; [lia|]. split; [rewrite <- Hip; f_equal; lia|]. split.
        -- intros [|j] Hj; [rewrite Nat.add_0_r; exact Ea|].
           rewrite <- (Hblank j) by lia. f_equal. lia.
        -- rewrite <- app_assoc. reflexivity.
      * destruct IH as (-> & Hblank & ->). split; [reflexivity|]. split.
        -- intros [|j] Hj; [rewrite Nat.add_0_r; exact Ea|].
           rewrite <- (Hblank j) by lia. f_equal. lia.
        -- rewrite <- app_assoc. reflexivity.
Qed.

(** The wait for SSH runs [echo hello] on the clone until a round returns
    with exit code 0; a round that throws or exits with another code
    counts as a failure.  It never runs more than 30 rounds and throws
    only after 30 failures. *)
Theorem waitForSSH_polls_at_most_30 (ip : string) (tr : list Cmd) :
  match fst (waitForSSH h ip 30 0 tr) with
  | Ok _ =>
      exists k, k < 30 /\ reachable k = true /\
        (forall j, j < k -> reachable j = false) /\
        snd (waitForSSH h ip 30 0 tr) = tr ++ repeat (Ssh ip "echo hello") (S k)
  | Err message =>
      message = ("Failed to establish SSH connectivity to " ++ ip
                 ++ " after 30 attempts")%string /\
      (forall j, j < 30 -> reachable j = false) /\
      snd (waitForSSH h ip 30 0 tr) = tr ++ repeat (Ssh ip "echo hello") 30
  end.
Proof. exact (waitForSSH_run ip 30 0 tr). Qed.

(** ** A base image that is not there *)

(** When [tart list] throws or does not show the base image, the call
    makes no clone and boots nothing: it returns an error output, and the
    only commands it issues after [tart list] are those of the [finally]
    block, for a machine that was never made. *)
Theorem missing_base_image_clones_nothing (group : RegisteredGroup) (input : ContainerInput) :
  match tart_list h with
  | Ok images => Js.includes images (TART_BASE_IMAGE h) = false
  | Err _ => True
  end ->
  runTartAgent h group input =
    (mkOutput Error None None
       (Some match tart_list h with
             | Ok _ => ("Tart base image '" ++ TART_BASE_IMAGE h
                        ++ "' not found. Run scripts/prepare-tart-base.sh first.")%string
             | Err message => message
             end),
     TartList :: TartStop (vmName h group) ::
       match throws h (TartStop (vmName h group)) with
       | None => [Sleep 2000; TartDelete (vmName h group)]
       | Some _ => []
       end).
Proof.
  intros H. unfold runTartAgent.
  assert (E : attempt h group input [] =
              (Err match tart_list h with
                   | Ok _ => ("Tart base image '" ++ TART_BASE_IMAGE h
                              ++ "' not found. Run scripts/prepare-tart-base.sh first.")%string
                   | Err message => message
                   end, [TartList])).
  { unfold attempt. rewrite bind_eval. unfold issue at 1. cbn beta iota.
    rewrite bind_eval. destruct (tart_list h) as [images|message].
    - unfold ret at 1. cbn beta iota. rewrite bind_eval, H. reflexivity.
    - reflexivity. }
  rewrite E. pose proof (cleanup_commands h (vmName h group) [TartList]) as Hc.
  destruct (cleanup h (vmName h group) [TartList]) as [u tr']. cbn in Hc. rewrite Hc.
  reflexivity.
Qed.

(** ** A run that succeeds *)

Lemma exec_eval (c : Cmd) (tr : list Cmd) :
  exec h c tr =
  match throws h c with
  | None => (Ok tt, tr ++ [c])
  | Some message => (Err message, tr ++ [c])
  end.
Proof. unfold exec, bind, issue, ret, raise. destruct (throws h c); reflexivity. Qed.

Ltac exec_step H :=
  rewrite bind_eval, exec_eval in H;
  match type of H with
  | context [throws h ?c] =>
      let E := fresh "Ethrows" in
      destruct (throws h c) eqn:E; [discriminate H|]
  end;
  cbn beta iota in H.

Lemma attempt_ok (group : RegisteredGroup) (input : ContainerInput)
    (output : ContainerOutput) (tr : list Cmd) :
  attempt h group input [] = (Ok output, tr) ->
  exists k1 k2 ip command r,
    k1 < 30 /\ address k1 = Some ip /\ (forall j, j < k1 -> address j = None) /\
    k2 < 30 /\ reachable k2 = true /\ (forall j, j < k2 -> reachable j = false) /\
    agent_command (getAgentRuntime h group) input = Some command /\
    ssh_agent h command = Ok r /\ exitCode r = 0%Z /\
    output = mkOutput Success (Some (ssh_stdout r))
               (extractSessionId h (ssh_stdout r) (getAgentRuntime h group)) None /\
    tr = [TartList;
          TartClone (TART_BASE_IMAGE h) (vmName h group);
          Mkdir (path_join (GROUPS_DIR h) (folder group));
          TartRun (vmName h group) (path_join (GROUPS_DIR h) (folder group))]
         ++ repeat (TartIp (vmName h group)) (S k1)
         ++ repeat (Ssh ip "echo hello") (S k2)
         ++ [Ssh ip symlink_command;
             UploadConfigs ip;
             ExportEnvVars ip;
             Mkdir (path_join (path_join (path_join (DATA_DIR h) "ipc") (folder group))
                      "messages");
             Mkdir (path_join (path_join (path_join (DATA_DIR h) "ipc") (folder group))
                      "tasks");
             Mkdir (path_join (path_join (path_join (DATA_DIR h) "sessions") (folder group))
                      ".claude");
             Ssh ip command].
Proof.
  intros H. unfold attempt in H.
  rewrite bind_eval in H. unfold issue at 1 in H. cbn beta iota in H.
  rewrite bind_eval in H. destruct (tart_list h) as [images|message]; [|discriminate H].
  unfold ret at 1 in H. cbn beta iota in H.
  rewrite bind_eval in H.
  destruct (Js.includes images (TART_BASE_IMAGE h)); [|discriminate H].
  unfold ret at 1 in H. cbn beta iota in H.
  do 3 exec_step H.
  rewrite bind_eval in H.
  match type of H with
  | context [waitForVMIP h ?vm 30 0 ?t] =>
      pose proof (waitForVMIP_run vm 30 0 t) as Hip;
      destruct (waitForVMIP h vm 30 0 t) as [[ip|message] tr1]; [|discriminate H]
  end.
  cbn [fst snd] in Hip. destruct Hip as (k1 & Hk1 & Ha1 & Hb1 & ->). cbn beta iota in H.
  rewrite bind_eval in H.
  match type of H with
  | context [waitForSSH h ip 30 0 ?t] =>
      pose proof (waitForSSH_run ip 30 0 t) as Hssh;
      destruct (waitForSSH h ip 30 0 t) as [[u|message] tr2]; [|discriminate H]
  end.
  cbn [fst snd] in Hssh. destruct Hssh as (k2 & Hk2 & Ha2 & Hb2 & ->). cbn beta iota in H.
  do 6 exec_step H.
  rewrite bind_eval in H. unfold executeAgentInVM in H.
  destruct (agent_command (getAgentRuntime h group) input) as [command|] eqn:Ecmd;
    [|discriminate H].
  rewrite bind_eval in H. unfold issue at 1 in H. cbn beta iota in H.
  destruct (ssh_agent h command) as [r|message] eqn:Er; [|discriminate H].
  destruct (Z.eqb (exitCode r) 0) eqn:Ez; cbn [negb] in H; [|discriminate H].
  unfold ret in H. cbn [fst snd] in H. injection H as <- <-.
  exists k1, k2, ip, command, r.
  repeat (split; [first [assumption | reflexivity | apply Z.eqb_eq; assumption]|]).
  cbn [app]. rewrite <- !app_assoc. cbn [app]. reflexivity.
Qed.

(** A call returns an output of status [success] only if everything went
    through: the base image was listed, each host command returned, the
    clone got an address and answered over SSH within 30 rounds each, and
    the agent's command exited with code 0.  The output then carries the
    command's standard output as it is, also when it is empty, and the
    commands of the call are exactly these, in this order, with the
    [finally] block at the end. *)
Theorem success_means_whole_sequence (group : RegisteredGroup) (input : ContainerInput) :
  status (fst (runTartAgent h group input)) = Success ->
  exists k1 k2 ip command r,
    k1 < 30 /\ address k1 = Some ip /\ (forall j, j < k1 -> address j = None) /\
    k2 < 30 /\ reachable k2 = true /\ (forall j, j < k2 -> reachable j = false) /\
    agent_command (getAgentRuntime h group) input = Some command /\
    ssh_agent h command = Ok r /\ exitCode r = 0%Z /\
    fst (runTartAgent h group input) =
      mkOutput Success (Some (ssh_stdout r))
        (extractSessionId h (ssh_stdout r) (getAgentRuntime h group)) None /\
    snd (runTartAgent h group input) =
      [TartList;
       TartClone (TART_BASE_IMAGE h) (vmName h group);
       Mkdir (path_join (GROUPS_DIR h) (folder group));
       TartRun (vmName h group) (path_join (GROUPS_DIR h) (folder group))]
      ++ repeat (TartIp (vmName h group)) (S k1)
      ++ repeat (Ssh ip "echo hello") (S k2)
      ++ [Ssh ip symlink_command;
          UploadConfigs ip;
          ExportEnvVars ip;
          Mkdir (path_join (path_join (path_join (DATA_DIR h) "ipc") (folder group))
                   "messages");
          Mkdir (path_join (path_join (path_join (DATA_DIR h) "ipc") (folder group))
                   "tasks");
          Mkdir (path_join (path_join (path_join (DATA_DIR h) "sessions") (folder group))
                   ".claude");
          Ssh ip command]
      ++ TartStop (vmName h group) ::
         match throws h (TartStop (vmName h group)) with
         | None => [Sleep 2000; TartDelete (vmName h group)]
         | Some _ => []
         end.
Proof.
  unfold runTartAgent.
  destruct (attempt h group input []) as [[output|message] tr] eqn:E;
    pose proof (cleanup_commands h (vmName h group) tr) as Hc;
    destruct (cleanup h (vmName h group) tr) as [u tr']; cbn [fst snd] in Hc |- *;
    [|discriminate].
  intros _. destruct (attempt_ok group input output tr E)
    as (k1 & k2 & ip & command & r & H1 & H2 & H3 & H4 & H5 & H6 & H7 & H8 & H9 & -> & ->).
  exists k1, k2, ip, command, r.
  repeat (split; [assumption|]). split; [reflexivity|].
  rewrite Hc, <- !app_assoc. reflexivity.
Qed.

End WithHost.

(** ** Two hosts *)

Lemma missing_base_image_witness :
  runTartAgent bare_host family hello =
    (mkOutput Error None None
       (Some "Tart base image 'tart_nanoclaw_base' not found. Run scripts/prepare-tart-base.sh first."),
     [TartList; TartStop (vmName bare_host family); Sleep 2000;
      TartDelete (vmName bare_host family)]).
Proof.
  rewrite (missing_base_image_clones_nothing bare_host family hello eq_refl).
  reflexivity.
Defined.

Lemma success_sequence_witness :
  status (fst (runTartAgent ready_host family hello)) = Success /\
  exists ip command,
    In (Ssh ip "echo hello") (snd (runTartAgent ready_host family hello)) /\
    In (Ssh ip command) (snd (runTartAgent ready_host family hello)) /\
    ssh_agent ready_host command = Ok (mkSSHResult "done" "" 0).
Proof.
  assert (Hok : status (fst (runTartAgent ready_host family hello)) = Success)
    by (vm_compute; reflexivity).
  split; [exact Hok|].
  destruct (success_means_whole_sequence ready_host family hello Hok)
    as (k1 & k2 & ip & command & r & _ & _ & _ & _ & _ & _ & _ & _ & _ & _ & Htr).
  exists ip, command. rewrite Htr. split; [|split; [|reflexivity]].
  - apply in_or_app. right. apply in_or_app. right. apply in_or_app. left.
    left. reflexivity.
  - apply in_or_app. right. apply in_or_app. right. apply in_or_app. right.
    apply in_or_app. left. cbn [In]. tauto.
Defined.

End TartBoot.

(* ===================================================================== *)
(** * The agent's command line and the session id *)
(* ===================================================================== *)

Module TartCommand.
Import Types Tart TextFacts Samples.
Local Open Scope string_scope.

(** ** Quoting the prompt *)

Definition is_dq (c : ascii) : bool := Nat.eqb (nat_of_ascii c) 34.

Lemma escape_quotes_cons (c : ascii) (s : string) :
  escape_quotes (String c s) =
  if is_dq c then String "092" (String c (escape_quotes s))
  else String c (escape_quotes s).
Proof. reflexivity. Qed.

Lemma is_dq_backslash : is_dq "092" = false.
Proof. reflexivity. Qed.

Lemma escape_quotes_app (a b : string) :
  escape_quotes (a ++ b) = escape_quotes a ++ escape_quotes b.
Proof.
  induction a as [|c a IH]; [reflexivity|].
  rewrite JsFacts.append_cons, !escape_quotes_cons, IH.
  destruct (is_dq c); reflexivity.
Qed.

Lemma escape_quotes_plain (s : string) :
  has_char "034" s = false -> escape_quotes s = s.
Proof.
  induction s as [|c s IH]; intros H; [reflexivity|].
  cbn [has_char] in H. apply orb_false_iff in H as [Hc Hs].
  rewrite escape_quotes_cons, (IH Hs).
  replace (is_dq c) with false; [reflexivity|].
  symmetry. unfold is_dq. apply Nat.eqb_neq. intros E.
  apply Ascii.eqb_neq in Hc. apply Hc.
  rewrite <- (ascii_nat_embedding c), E. reflexivity.
Qed.

Lemma escape_quotes_injective (a b : string) :
  escape_quotes a = escape_quotes b -> a = b.
Proof.
  revert b. induction a as [|c a IH]; intros [|d b].
  - reflexivity.
  - rewrite escape_quotes_cons. cbn [escape_quotes]. destruct (is_dq d); discriminate.
  - rewrite escape_quotes_cons. cbn [escape_quotes]. destruct (is_dq c); discriminate.
  - rewrite !escape_quotes_cons.
    destruct (is_dq c) eqn:Ec, (is_dq d) eqn:Ed.
    + intros [= -> H]. f_equal. apply IH, H.
    + intros [= <- H]. exfalso. destruct b as [|e b]; [discriminate H|].
      rewrite escape_quotes_cons in H. destruct (is_dq e) eqn:Ee.
      * injection H as H _. subst c. rewrite is_dq_backslash in Ec. discriminate.
      * injection H as H _. subst e. congruence.
    + intros [= -> H]. exfalso. destruct a as [|e a]; [discriminate H|].
      rewrite escape_quotes_cons in H. destruct (is_dq e) eqn:Ee.
      * injection H as H _. subst d. rewrite is_dq_backslash in Ed. discriminate.
      * injection H as H _. subst e. congruence.
    + intros [= -> H]. f_equal. apply IH, H.
Qed.

(** The replace that quotes the prompt for the shell touches the double
    quotes and nothing else: it puts a backslash before each, works piece
    by piece, leaves a prompt without double quotes as it is (backslashes,
    dollar signs and backquotes included), and loses nothing: two prompts
    with the same quoted form are the same. *)
Theorem escape_quotes_touches_only_quotes :
  escape_quotes dq = String "092" dq /\
  (forall a b, escape_quotes (a ++ b) = escape_quotes a ++ escape_quotes b) /\
  (forall s, has_char "034" s = false -> escape_quotes s = s) /\
  (forall a b, escape_quotes a = escape_quotes b -> a = b).
Proof.
  split; [reflexivity|]. split; [exact escape_quotes_app|].
  split; [exact escape_quotes_plain|exact escape_quotes_injective].
Qed.

(** ** The session id *)

Section WithHost.
Variable h : Host.

(** The scan for a session id gives nothing for the runtimes [claude] and
    [codex].  For [opencode] it reads the output line by line and gives up
    at the first line that is no JSON text: when such a line comes first
    (a banner, a warning), no session id is found whatever follows; when
    the first line is a session event with an id that is a string and not
    empty, that id is the result. *)
Theorem extractSessionId_stops_at_plain_line :
  (forall output runtime,
     runtime <> "opencode" -> extractSessionId h output runtime = None) /\
  (forall line rest,
     has_char "010" line = false ->
     JSON_parse h line = None ->
     extractSessionId h (line ++ String "010" rest) "opencode" = None /\
     extractSessionId h line "opencode" = None) /\
  (forall line rest fields sid,
     has_char "010" line = false ->
     JSON_parse h line = Some (OpenCode.JObj fields) ->
     OpenCode.lookup_field "type" fields = Some (OpenCode.JStr "session") ->
     OpenCode.lookup_field "id" fields = Some (OpenCode.JStr sid) ->
     sid <> EmptyString ->
     extractSessionId h (line ++ String "010" rest) "opencode" = Some sid).
Proof.
  split; [|split].
  - intros output runtime Hne. unfold extractSessionId.
    apply String.eqb_neq in Hne. rewrite Hne. reflexivity.
  - intros line rest Hl Hp. unfold extractSessionId. cbn [String.eqb Ascii.eqb Bool.eqb].
    rewrite (split_first_line _ _ _ Hl), (split_no_separator _ _ Hl).
    cbn [session_in_lines]. rewrite Hp. split; reflexivity.
  - intros line rest fields sid Hl Hp Hty Hid Hsid. unfold extractSessionId.
    cbn [String.eqb Ascii.eqb Bool.eqb]. rewrite (split_first_line _ _ _ Hl).
    cbn [session_in_lines]. rewrite Hp.
    unfold OpenCode.get_opt, OpenCode.get. rewrite Hty, Hid.
    cbn [OpenCode.is_str OpenCode.truthy].
    replace (Js.truthy sid) with true by (symmetry; apply JsFacts.truthy_true, Hsid).
    reflexivity.
Qed.

End WithHost.

End TartCommand.

(* ===================================================================== *)
(** * Facts about a run in the persistent VM *)
(* ===================================================================== *)

Module VibeRunFacts.
Import Types Vibe VibeRun TextFacts Samples.
Local Open Scope string_scope.

(** ** The markers *)

(** One step of a prefix test against a pattern whose head is known. *)
Ltac marker_step H :=
  rewrite ?JsFacts.append_cons, ?JsFacts.append_nil in H;
  cbn [String.prefix] in H |- *;
  match type of H with
  | context [ascii_dec ?x ?a] =>
      let E := fresh "E" in
      destruct (ascii_dec x a) as [E|E];
      [first [discriminate E | subst] | discriminate H]
  end.

Ltac marker_char H p :=
  destruct p as [|? p]; [repeat marker_step H | marker_step H].

Lemma startMarker_unbordered : unbordered startMarker.
Proof.
  intros c p r H. unfold startMarker in *. marker_step H.
  do 20 (marker_char H p).
  destruct p; reflexivity.
Qed.

Lemma endMarker_unbordered : unbordered endMarker.
Proof.
  intros c p r H. unfold endMarker in *. marker_step H.
  do 18 (marker_char H p).
  destruct p; reflexivity.
Qed.

(** What the script prints between its two markers comes back, trimmed:
    when the start marker does not occur before the script's own and the
    end marker does not occur before the script's own, the extracted
    output is the text between the two, without the white space around
    it, whatever [vibe] printed before and after. *)
Theorem extractVibeOutput_between_markers (pre body post : string) :
  Js.includes pre startMarker = false ->
  Js.includes (pre ++ startMarker ++ body) endMarker = false ->
  extractVibeOutput (pre ++ startMarker ++ body ++ endMarker ++ post) = Js.trim body.
Proof.
  intros Hs He. unfold extractVibeOutput.
  rewrite (indexOf_first startMarker pre (body ++ endMarker ++ post)
             startMarker_unbordered Hs).
  replace (pre ++ startMarker ++ body ++ endMarker ++ post)
    with ((pre ++ startMarker ++ body) ++ endMarker ++ post)
    by (rewrite !append_assoc; reflexivity).
  rewrite (indexOf_first endMarker (pre ++ startMarker ++ body) post
             endMarker_unbordered He).
  rewrite !length_append.
  replace (Nat.ltb (String.length pre)
             (String.length pre + (String.length startMarker + String.length body))%nat)
    with true by (symmetry; apply Nat.ltb_lt; cbn; lia).
  unfold Js.slice.
  replace (String.length pre + (String.length startMarker + String.length body)
           - (String.length pre + String.length startMarker))%nat
    with (String.length body) by lia.
  rewrite drop_add, !append_assoc, JsFacts.drop_append, JsFacts.drop_append, take_append.
  reflexivity.
Qed.

(** ** One call, step by step *)

Section WithEnv.
Variable e : Env.
Local Open Scope list_scope.

Lemma vibe_bind_eval {A B} (m : V A) (k : A -> V B) (d : Disk) :
  bind m k d =
  match m d with
  | (Done a, d') => k a d'
  | (Fail message, d') => (Fail message, d')
  end.
Proof. reflexivity. Qed.

Lemma mkdirSync_eval (throws : option string) (path : string) (d : Disk) :
  mkdirSync throws path d =
  match throws with
  | Some message => (Fail message, mkDisk (files d) (ops d ++ [MkdirP path]))
  | None => (Done tt, mkDisk ({[ path ]} ∪ files d) (ops d ++ [MkdirP path]))
  end.
Proof. unfold mkdirSync, bind, record, raise. destruct throws; reflexivity. Qed.

Lemma existsSync_eval (path : string) (d : Disk) :
  existsSync path d = (Done (bool_decide (path ∈ files d)), d).
Proof. reflexivity. Qed.

(** The message of an [ENOENT] thrown by [fs.copyFileSync]. *)
Definition enoent (src dst : string) : string :=
  ("ENOENT: no such file or directory, copyfile '" ++ src ++ "' -> '" ++ dst ++ "'")%string.

Lemma copyFileSync_eval (throws : option string) (src dst : string) (clone : bool) (d : Disk) :
  copyFileSync throws src dst clone d =
  if bool_decide (src ∈ files d)
  then match throws with
       | Some message => (Fail message, mkDisk (files d) (ops d ++ [CopyFile src dst clone]))
       | None => (Done tt, mkDisk ({[ dst ]} ∪ files d) (ops d ++ [CopyFile src dst clone]))
       end
  else (Fail (enoent src dst), mkDisk (files d) (ops d ++ [CopyFile src dst clone])).
Proof.
  unfold copyFileSync, bind, record, enoent. cbn [files ops].
  destruct (bool_decide (src ∈ files d)); [destruct throws|]; reflexivity.
Qed.

Lemma copy_base_eval (imagePath : string) (d : Disk) :
  copy_base e imagePath d =
  if bool_decide (baseImagePath e ∈ files d)
  then match clone_throws e, copy_throws e with
       | None, _ =>
           (Done tt, mkDisk ({[ imagePath ]} ∪ files d)
                       (ops d ++ [CopyFile (baseImagePath e) imagePath true]))
       | Some _, None =>
           (Done tt, mkDisk ({[ imagePath ]} ∪ files d)
                       (ops d ++ [CopyFile (baseImagePath e) imagePath true;
                                  CopyFile (baseImagePath e) imagePath false]))
       | Some _, Some message =>
           (Fail message, mkDisk (files d)
                            (ops d ++ [CopyFile (baseImagePath e) imagePath true;
                                       CopyFile (baseImagePath e) imagePath false]))
       end
  else (Fail (enoent (baseImagePath e) imagePath),
        mkDisk (files d)
          (ops d ++ [CopyFile (baseImagePath e) imagePath true;
                     CopyFile (baseImagePath e) imagePath false])).
Proof.
  unfold copy_base, try_catch. rewrite copyFileSync_eval.
  destruct (bool_decide (baseImagePath e ∈ files d)) eqn:Hb.
  - destruct (clone_throws e); [|reflexivity].
    rewrite copyFileSync_eval. cbn [files ops]. rewrite Hb.
    destruct (copy_throws e); rewrite <- app_assoc; reflexivity.
  - rewrite copyFileSync_eval. cbn [files ops]. rewrite Hb, <- app_assoc. reflexivity.
Qed.

Lemma unlinkSync_eval (path : string) (d : Disk) :
  unlinkSync path d =
  if bool_decide (path ∈ files d)
  then (Done tt, mkDisk (files d ∖ {[ path ]}) (ops d ++ [Unlink path]))
  else (Fail ("ENOENT: no such file or directory, unlink '" ++ path ++ "'")%string,
        mkDisk (files d) (ops d ++ [Unlink path])).
Proof.
  unfold unlinkSync, bind, record. cbn [files ops].
  destruct (bool_decide (path ∈ files d)); reflexivity.
Qed.

(** ** The image of a group *)

Definition customPath (group : RegisteredGroup) : option string :=
  option_map (path_join (VIBE_IMAGES_DIR e))
    (truthy_opt (match containerConfig group with
                 | Some c => vibeImage c
                 | None => None
                 end)).

Definition groupImage (group : RegisteredGroup) : string :=
  path_join (VIBE_IMAGES_DIR e) (folder group ++ ".raw")%string.

(** [path] exists once the images directory was made. *)
Definition there (d : Disk) (path : string) : bool :=
  bool_decide (path ∈ {[ VIBE_IMAGES_DIR e ]} ∪ files d).

Definition uses_custom (group : RegisteredGroup) (d : Disk) : option string :=
  match customPath group with
  | Some p => if there d p then Some p else None
  | None => None
  end.

(** The disk once the images directory was made. *)
Definition with_images_dir (d : Disk) : Disk :=
  mkDisk ({[ VIBE_IMAGES_DIR e ]} ∪ files d) (ops d ++ [MkdirP (VIBE_IMAGES_DIR e)]).

Lemma getVibeImagePath_eval (group : RegisteredGroup) (d : Disk) :
  getVibeImagePath e group d =
  match mkdir_throws e (VIBE_IMAGES_DIR e) with
  | Some message =>
      (Fail message, mkDisk (files d) (ops d ++ [MkdirP (VIBE_IMAGES_DIR e)]))
  | None =>
      match uses_custom group d with
      | Some p => (Done p, with_images_dir d)
      | None =>
          if there d (groupImage group) then (Done (groupImage group), with_images_dir d)
          else if there d (baseImagePath e)
          then match copy_base e (groupImage group) (with_images_dir d) with
               | (Done _, d1) => (Done (groupImage group), d1)
               | (Fail message, d1) => (Fail message, d1)
               end
          else (Fail ("Vibe base image not found: " ++ baseImagePath e
                      ++ ". Run scripts/prepare-vibe-base.sh first.")%string,
                with_images_dir d)
      end
  end.
Proof.
  unfold getVibeImagePath. rewrite vibe_bind_eval, mkdirSync_eval.
  destruct (mkdir_throws e (VIBE_IMAGES_DIR e)); [reflexivity|].
  unfold uses_custom, customPath, there, groupImage, with_images_dir.
  unfold bind, existsSync, ret, raise.
  cbn beta iota zeta. cbn [files ops].
  destruct (truthy_opt _) as [image|]; cbn [option_map].
  - destruct (bool_decide (path_join (VIBE_IMAGES_DIR e) image ∈ _)); [reflexivity|].
    destruct (bool_decide (path_join (VIBE_IMAGES_DIR e) (folder group ++ ".raw") ∈ _));
      [reflexivity|].
    destruct (bool_decide (baseImagePath e ∈ _)); [|reflexivity].
    destruct (copy_base e _ _) as [[[]|message] d1]; reflexivity.
  - destruct (bool_decide (path_join (VIBE_IMAGES_DIR e) (folder group ++ ".raw") ∈ _));
      [reflexivity|].
    destruct (bool_decide (baseImagePath e ∈ _)); [|reflexivity].
    destruct (copy_base e _ _) as [[[]|message] d1]; reflexivity.
Qed.

Lemma path_join_longer (a b : string) : path_join a b <> a.
Proof.
  unfold path_join. intros H. apply (f_equal String.length) in H.
  rewrite !length_append in H. cbn [String.length] in H. lia.
Qed.

Lemma there_in_images_dir (d : Disk) (name : string) :
  there d (path_join (VIBE_IMAGES_DIR e) name)
  = bool_decide (path_join (VIBE_IMAGES_DIR e) name ∈ files d).
Proof.
  unfold there. pose proof (path_join_longer (VIBE_IMAGES_DIR e) name) as Hne.
  apply bool_decide_ext. set_solver.
Qed.

Lemma customPath_there (group : RegisteredGroup) (d : Disk) (c : string) :
  customPath group = Some c -> there d c = bool_decide (c ∈ files d).
Proof.
  unfold customPath. destruct (truthy_opt _) as [image|]; [|discriminate].
  intros [= <-]. apply there_in_images_dir.
Qed.

(** The disk after the base image was copied to [imagePath], or after the
    attempts to. *)
Definition copied (imagePath : string) (d : Disk) : Res unit * Disk :=
  copy_base e imagePath (with_images_dir d).

(** The message for a base image that is not there. *)
Definition base_missing : string :=
  ("Vibe base image not found: " ++ baseImagePath e
   ++ ". Run scripts/prepare-vibe-base.sh first.")%string.

(** The custom image of the group's configuration is not on the disk (or
    the configuration names none). *)
Definition no_custom (group : RegisteredGroup) (d : Disk) : Prop :=
  forall c, customPath group = Some c -> c ∉ files d.

Lemma uses_custom_some (group : RegisteredGroup) (d : Disk) (c : string) :
  uses_custom group d = Some c <-> customPath group = Some c /\ c ∈ files d.
Proof.
  unfold uses_custom. destruct (customPath group) as [c'|] eqn:Ec.
  - rewrite (customPath_there group d c' Ec).
    destruct (bool_decide (c' ∈ files d)) eqn:Hc.
    + apply bool_decide_eq_true in Hc. split.
      * intros [= <-]. split; [reflexivity|exact Hc].
      * intros [[= <-] _]. reflexivity.
    + apply bool_decide_eq_false in Hc. split; [discriminate|].
      intros [[= <-] H]. destruct (Hc H).
  - split; [discriminate|]. intros [H _]. discriminate H.
Qed.

Lemma uses_custom_none (group : RegisteredGroup) (d : Disk) :
  uses_custom group d = None <-> no_custom group d.
Proof.
  unfold no_custom. split.
  - intros Hn c Hc Hin. assert (H : uses_custom group d = Some c)
      by (apply uses_custom_some; split; assumption). congruence.
  - intros Hn. destruct (uses_custom group d) as [c|] eqn:E; [|reflexivity].
    apply uses_custom_some in E as [Hc Hin]. destruct (Hn c Hc Hin).
Qed.

(** What [getVibeImagePath] comes to, case by case. *)
Lemma getVibeImagePath_cases (group : RegisteredGroup) (d : Disk) :
  match mkdir_throws e (VIBE_IMAGES_DIR e) with
  | Some message =>
      getVibeImagePath e group d
      = (Fail message, mkDisk (files d) (ops d ++ [MkdirP (VIBE_IMAGES_DIR e)]))
  | None =>
      (exists c, customPath group = Some c /\ (c ∈ files d) /\
         getVibeImagePath e group d = (Done c, with_images_dir d)) \/
      (no_custom group d /\ (groupImage group ∈ files d) /\
         getVibeImagePath e group d = (Done (groupImage group), with_images_dir d)) \/
      (no_custom group d /\ (groupImage group ∉ files d) /\
         (baseImagePath e ∉ {[ VIBE_IMAGES_DIR e ]} ∪ files d) /\
         getVibeImagePath e group d = (Fail base_missing, with_images_dir d)) \/
      (no_custom group d /\ (groupImage group ∉ files d) /\
         (baseImagePath e ∈ {[ VIBE_IMAGES_DIR e ]} ∪ files d) /\
         getVibeImagePath e group d =
           match clone_throws e, copy_throws e with
           | None, _ =>
               (Done (groupImage group),
                mkDisk ({[ groupImage group ]} ∪ files (with_images_dir d))
                  (ops (with_images_dir d)
                   ++ [CopyFile (baseImagePath e) (groupImage group) true]))
           | Some _, None =>
               (Done (groupImage group),
                mkDisk ({[ groupImage group ]} ∪ files (with_images_dir d))
                  (ops (with_images_dir d)
                   ++ [CopyFile (baseImagePath e) (groupImage group) true;
                       CopyFile (baseImagePath e) (groupImage group) false]))
           | Some _, Some message =>
               (Fail message,
                mkDisk (files (with_images_dir d))
                  (ops (with_images_dir d)
                   ++ [CopyFile (baseImagePath e) (groupImage group) true;
                       CopyFile (baseImagePath e) (groupImage group) false]))
           end)
  end.
Proof.
  rewrite getVibeImagePath_eval.
  destruct (mkdir_throws e (VIBE_IMAGES_DIR e)); [reflexivity|].
  destruct (uses_custom group d) as [c|] eqn:Ec.
  - apply uses_custom_some in Ec as [Hc Hin]. left. exists c. auto.
  - apply uses_custom_none in Ec. right.
    assert (Hthere : there d (groupImage group) = bool_decide (groupImage group ∈ files d))
      by apply there_in_images_dir.
    rewrite Hthere. clear Hthere.
    destruct (bool_decide (groupImage group ∈ files d)) eqn:Hg.
    + apply bool_decide_eq_true in Hg. left. auto.
    + apply bool_decide_eq_false in Hg. right. unfold there.
      destruct (bool_decide (baseImagePath e ∈ {[ VIBE_IMAGES_DIR e ]} ∪ files d)) eqn:Hb.
      * apply bool_decide_eq_true in Hb. right.
        split; [exact Ec|]. split; [exact Hg|]. split; [exact Hb|].
        rewrite copy_base_eval. unfold with_images_dir at 1. cbn [files].
        rewrite bool_decide_eq_true_2 by exact Hb.
        destruct (clone_throws e), (copy_throws e); reflexivity.
      * apply bool_decide_eq_false in Hb. left. auto.
Qed.

(** The image a call runs in exists when [getVibeImagePath] returns it: it
    is the custom image of the group's configuration whenever that file is
    there, and the group's own image otherwise.  An image that is there is
    never copied over: the only copies the function makes are from the
    base image to a group image that did not exist.  It throws in three
    cases and in no other: the images directory cannot be made; the group
    image has to be made and the base image is missing; the group image
    has to be made and both the clone and the plain copy throw. *)
Theorem getVibeImagePath_reuses_or_clones (group : RegisteredGroup) (d : Disk) :
  (forall p d',
     getVibeImagePath e group d = (Done p, d') ->
     (p ∈ files d') /\
     (forall c, customPath group = Some c -> c ∈ files d -> p = c) /\
     (no_custom group d -> p = groupImage group)) /\
  (forall r d' src dst clone,
     getVibeImagePath e group d = (r, d') ->
     In (CopyFile src dst clone) (ops d') ->
     In (CopyFile src dst clone) (ops d) \/
     (src = baseImagePath e /\ dst = groupImage group /\ (groupImage group ∉ files d))) /\
  (forall message,
     (exists d', getVibeImagePath e group d = (Fail message, d')) <->
     mkdir_throws e (VIBE_IMAGES_DIR e) = Some message \/
     (mkdir_throws e (VIBE_IMAGES_DIR e) = None /\
      no_custom group d /\ (groupImage group ∉ files d) /\
      (((baseImagePath e ∉ {[ VIBE_IMAGES_DIR e ]} ∪ files d) /\ message = base_missing) \/
       ((baseImagePath e ∈ {[ VIBE_IMAGES_DIR e ]} ∪ files d) /\
        clone_throws e <> None /\ copy_throws e = Some message)))).
Proof.
  pose proof (getVibeImagePath_cases group d) as Hcases.
  assert (Hmk : forall o, In o (ops (with_images_dir d)) ->
                  In o (ops d) \/ o = MkdirP (VIBE_IMAGES_DIR e)).
  { intros o. unfold with_images_dir. cbn [ops]. rewrite in_app_iff. cbn [In].
    intros [H|[H|[]]]; auto. }
  destruct (mkdir_throws e (VIBE_IMAGES_DIR e)) as [failure|].
  { rewrite Hcases. split; [|split].
    - intros p d' H. discriminate H.
    - intros r d' src dst clone [= <- <-]. cbn [ops]. rewrite in_app_iff. cbn [In].
      intros [H|[H|[]]]; [left; exact H|discriminate H].
    - intros message. split.
      + intros (d' & [= <- _]). left. reflexivity.
      + intros [[= <-]|(H & _)]; [eexists; reflexivity|discriminate H]. }
  destruct Hcases as [(c & Hc & Hin & E)|[(Hn & Hg & E)|[(Hn & Hg & Hb & E)|(Hn & Hg & Hb & E)]]];
    rewrite E; clear E.
  - split; [|split].
    + intros p d' [= <- <-]. split; [unfold with_images_dir; cbn [files]; set_solver|].
      split; [intros c' Hc' _; congruence|]. intros Hn. destruct (Hn c Hc Hin).
    + intros r d' src dst clone [= <- <-] H.
      destruct (Hmk _ H) as [H'|H']; [left; exact H'|discriminate H'].
    + intros message. split; [intros (d' & H); discriminate H|].
      intros [H|(_ & Hn & _)]; [discriminate H|destruct (Hn c Hc Hin)].
  - split; [|split].
    + intros p d' [= <- <-]. split; [unfold with_images_dir; cbn [files]; set_solver|].
      split; [intros c Hc Hin; destruct (Hn c Hc Hin)|reflexivity].
    + intros r d' src dst clone [= <- <-] H.
      destruct (Hmk _ H) as [H'|H']; [left; exact H'|discriminate H'].
    + intros message. split; [intros (d' & H); discriminate H|].
      intros [H|(_ & _ & Hg' & _)]; [discriminate H|destruct (Hg' Hg)].
  - split; [|split].
    + intros p d' H. discriminate H.
    + intros r d' src dst clone [= <- <-] H.
      destruct (Hmk _ H) as [H'|H']; [left; exact H'|discriminate H'].
    + intros message. split.
      * intros (d' & [= <- _]). right. split; [reflexivity|]. split; [exact Hn|].
        split; [exact Hg|]. left. split; [exact Hb|reflexivity].
      * intros [H|(_ & _ & _ & [(_ & ->)|(Hb' & _)])];
          [discriminate H|eexists; reflexivity|destruct (Hb Hb')].
  - assert (Hcopy : forall o clones,
              In o (ops (with_images_dir d)
                    ++ map (CopyFile (baseImagePath e) (groupImage group)) clones) ->
              forall src dst clone, o = CopyFile src dst clone ->
              In (CopyFile src dst clone) (ops d) \/
              (src = baseImagePath e /\ dst = groupImage group /\
               (groupImage group ∉ files d))).
    { intros o clones Ho src dst clone ->. apply in_app_iff in Ho as [Ho|Ho].
      - destruct (Hmk _ Ho) as [H'|H']; [left; exact H'|discriminate H'].
      - apply in_map_iff in Ho as (b & [= <- <- <-] & _). right. auto. }
    split; [|split].
    + intros p d'. destruct (clone_throws e), (copy_throws e); try discriminate;
        intros [= <- <-]; (split; [cbn [files]; set_solver|]);
        (split; [intros c Hc Hin; destruct (Hn c Hc Hin)|reflexivity]).
    + intros r d' src dst clone.
      destruct (clone_throws e), (copy_throws e); intros [= <- <-]; cbn [ops]; intros H.
      * exact (Hcopy _ [true; false] H _ _ _ eq_refl).
      * exact (Hcopy _ [true; false] H _ _ _ eq_refl).
      * exact (Hcopy _ [true] H _ _ _ eq_refl).
      * exact (Hcopy _ [true] H _ _ _ eq_refl).
    + intros message. split.
      * intros (d' & H). right. split; [reflexivity|]. split; [exact Hn|].
        split; [exact Hg|]. right. split; [exact Hb|].
        destruct (clone_throws e), (copy_throws e); try discriminate H.
        injection H as <- _. split; [discriminate|reflexivity].
      * intros [H|(_ & _ & _ & [(Hb' & _)|(_ & Hclone & Hcopy')])];
          [discriminate H|destruct (Hb' Hb)|].
        destruct (clone_throws e); [|congruence]. rewrite Hcopy'. eexists. reflexivity.
Qed.

(** ** The call as a whole *)

Definition groupDir (group : RegisteredGroup) : string :=
  path_join (GROUPS_DIR (settings e)) (folder group).
Definition ipcDir (group : RegisteredGroup) : string :=
  path_join (path_join (DATA_DIR (settings e)) "ipc") (folder group).
Definition sessionsDir (group : RegisteredGroup) : string :=
  path_join (path_join (path_join (DATA_DIR (settings e)) "sessions") (folder group)) ".claude".
Definition scriptPath : string :=
  ("/tmp/nanoclaw-vibe-agent-" ++ pretty (now e) ++ ".sh")%string.

(** The four directories of a call, in the order it makes them. *)
Definition call_dirs (group : RegisteredGroup) : list string :=
  [groupDir group; path_join (ipcDir group) "messages"; path_join (ipcDir group) "tasks";
   sessionsDir group].

(** None of the four [mkdirSync] of the call throws. *)
Definition dirs_made (group : RegisteredGroup) : Prop :=
  forall p, In p (call_dirs group) -> mkdir_throws e p = None.

(** The disk once the directories of the group are made. *)
Definition with_dirs (group : RegisteredGroup) (d : Disk) : Disk :=
  mkDisk ({[ sessionsDir group ]} ∪ ({[ path_join (ipcDir group) "tasks" ]}
          ∪ ({[ path_join (ipcDir group) "messages" ]} ∪ ({[ groupDir group ]} ∪ files d))))
    (ops d ++ [MkdirP (groupDir group);
               MkdirP (path_join (ipcDir group) "messages");
               MkdirP (path_join (ipcDir group) "tasks");
               MkdirP (sessionsDir group)]).

(** The arguments [vibe] is spawned with. *)
Definition spawn_args (group : RegisteredGroup) (imagePath : string) : list string :=
  executeVibe_args imagePath (vibeOptions (settings e) group true scriptPath).

(** The disk once the script is written and [vibe] is spawned. *)
Definition spawned (group : RegisteredGroup) (imagePath command : string) (d : Disk) : Disk :=
  mkDisk ({[ scriptPath ]} ∪ files (with_dirs group d))
    (ops (with_dirs group d) ++
     [WriteScript scriptPath (script_text command);
      SpawnVibe (spawn_args group imagePath)]).

(** The timer of the call, when it fires before [vibe] closes. *)
Definition expiry (group : RegisteredGroup) : option Z :=
  match truthy_num (Some (snd (getVibeConfig (settings e) group))) with
  | Some t => if outlives e t then Some t else None
  | None => None
  end.

(** The disk after the script is removed and, one time in ten, the old
    scripts with it. *)
Definition tidied (d : Disk) : Disk :=
  let d1 := mkDisk (files d ∖ {[ scriptPath ]}) (ops d ++ [Unlink scriptPath]) in
  if random_below_tenth e
  then mkDisk (filter (fun p => is_temp_script p = false) (files d1))
         (ops d1 ++ [CleanupTempScripts])
  else d1.

(** The output for a [vibe] that closed. *)
Definition report (group : RegisteredGroup) : ContainerOutput :=
  let '(code, out, err) := closes e in
  if negb (Z.eqb (exit_code code) 0)
  then mkOutput Error None None
         (Some ("Vibe exited with code " ++ pretty (exit_code code) ++ ": "
                ++ Js.takeLast 200 err)%string)
  else mkOutput Success (Some (extractVibeOutput out))
         (extractSessionIdFromVibeOutput e (extractVibeOutput out) (getAgentRuntime e group))
         None.

Lemma vibeOptions_timeout (group : RegisteredGroup) (b : bool) (script : string) :
  timeout (vibeOptions (settings e) group b script)
  = Some (snd (getVibeConfig (settings e) group)).
Proof. unfold vibeOptions. destruct (getVibeConfig _ _) as [[c r] t]. reflexivity. Qed.

Lemma executeVibe_eval (imagePath : string) (options : VibeOptions) (d : Disk) :
  executeVibe e imagePath options d =
  let d' := mkDisk (files d) (ops d ++ [SpawnVibe (executeVibe_args imagePath options)]) in
  match spawn_error e with
  | Some message => (Fail message, d')
  | None =>
      match match truthy_num (timeout options) with
            | Some t => if outlives e t then Some t else None
            | None => None
            end with
      | Some t => (Fail ("Vibe execution timed out after " ++ pretty t ++ "ms")%string, d')
      | None =>
          (Done (mkVibeResult (exit_code (fst (fst (closes e)))) (snd (fst (closes e)))
                   (snd (closes e))), d')
      end
  end.
Proof.
  unfold executeVibe, bind, record, raise, ret. cbn beta iota zeta.
  destruct (spawn_error e); [reflexivity|].
  destruct (closes e) as [[code out] err]. cbn [fst snd].
  destruct (truthy_num (timeout options)) as [t|]; [|reflexivity].
  destruct (outlives e t); reflexivity.
Qed.

Lemma createAgentScript_eval (prompt runtime : string) (sessionId : option string)
    (d : Disk) :
  createAgentScript e prompt runtime sessionId d =
  match agent_command prompt runtime sessionId with
  | None => (Fail ("Unknown runtime: " ++ runtime)%string, d)
  | Some command =>
      match write_throws e with
      | Some message =>
          (Fail message,
           mkDisk (files d) (ops d ++ [WriteScript scriptPath (script_text command)]))
      | None =>
          (Done scriptPath,
           mkDisk ({[ scriptPath ]} ∪ files d)
             (ops d ++ [WriteScript scriptPath (script_text command)]))
      end
  end.
Proof.
  unfold createAgentScript. destruct (agent_command prompt runtime sessionId); [|reflexivity].
  cbn zeta. unfold bind, record, raise, ret. destruct (write_throws e); reflexivity.
Qed.

(** What the call does once it has the image and the directories. *)
Definition after_dirs (group : RegisteredGroup) (input : ContainerInput)
    (imagePath : string) (d1 : Disk) : Res ContainerOutput * Disk :=
  match agent_command (prompt input) (getAgentRuntime e group) (sessionId input) with
  | None => (Fail ("Unknown runtime: " ++ getAgentRuntime e group)%string,
             with_dirs group d1)
  | Some command =>
      match write_throws e with
      | Some message =>
          (Fail message,
           mkDisk (files (with_dirs group d1))
             (ops (with_dirs group d1) ++ [WriteScript scriptPath (script_text command)]))
      | None =>
          match spawn_error e with
          | Some message => (Fail message, spawned group imagePath command d1)
          | None =>
              match expiry group with
              | Some t =>
                  (Fail ("Vibe execution timed out after " ++ pretty t ++ "ms")%string,
                   spawned group imagePath command d1)
              | None => (Done (report group), tidied (spawned group imagePath command d1))
              end
          end
      end
  end.

Lemma attempt_image_fails (group : RegisteredGroup) (input : ContainerInput) (d : Disk)
    (message : string) (d1 : Disk) :
  getVibeImagePath e group d = (Fail message, d1) ->
  attempt e group input d = (Fail message, d1).
Proof. intros H. unfold attempt. rewrite vibe_bind_eval, H. reflexivity. Qed.

Lemma attempt_eval (group : RegisteredGroup) (input : ContainerInput) (d : Disk)
    (imagePath : string) (d1 : Disk) :
  getVibeImagePath e group d = (Done imagePath, d1) ->
  dirs_made group ->
  attempt e group input d = after_dirs group input imagePath d1.
Proof.
  intros Himg Hdirs. unfold attempt, after_dirs. rewrite vibe_bind_eval, Himg.
  fold (groupDir group) (ipcDir group) (sessionsDir group).
  rewrite !(Hdirs _) by (unfold call_dirs; cbn [In]; auto).
  rewrite !vibe_bind_eval, !mkdirSync_eval. cbn beta iota. cbn [files ops].
  rewrite !vibe_bind_eval, !mkdirSync_eval. cbn beta iota. cbn [files ops].
  rewrite !vibe_bind_eval, !mkdirSync_eval. cbn beta iota. cbn [files ops].
  rewrite !vibe_bind_eval, !mkdirSync_eval. cbn beta iota. cbn [files ops].
  rewrite <- !app_assoc. cbn [app].
  change (mkDisk _ _) with (with_dirs group d1) at 1.
  rewrite vibe_bind_eval, createAgentScript_eval.
  destruct (agent_command (prompt input) (getAgentRuntime e group) (sessionId input))
    as [command|]; [|reflexivity].
  destruct (write_throws e); [reflexivity|].
  rewrite vibe_bind_eval, existsSync_eval. cbn beta iota. cbn [files ops].
  rewrite (bool_decide_eq_true_2 (sessionsDir group ∈ _))
    by (unfold with_dirs; cbn [files]; set_solver).
  rewrite vibe_bind_eval, executeVibe_eval, vibeOptions_timeout. cbn zeta. cbn [files ops].
  rewrite <- !app_assoc. cbn [app]. fold (spawn_args group imagePath).
  change (mkDisk ({[ scriptPath ]} ∪ files (with_dirs group d1)) _)
    with (spawned group imagePath command d1).
  destruct (spawn_error e); [reflexivity|].
  fold (expiry group). destruct (expiry group); [reflexivity|].
  cbn beta iota.
  rewrite vibe_bind_eval. unfold try_catch. rewrite unlinkSync_eval.
  rewrite (bool_decide_eq_true_2 (scriptPath ∈ _))
    by (unfold spawned; cbn [files]; set_solver).
  rewrite vibe_bind_eval. unfold tidied, report, cleanupTempScripts, bind, record, ret.
  destruct (closes e) as [[code out] err]. cbn [fst snd exitCode vibe_stdout vibe_stderr].
  destruct (random_below_tenth e); cbn beta iota; cbn [files ops];
    destruct (negb (Z.eqb (exit_code code) 0)); reflexivity.
Qed.

(** A directory that cannot be made ends the call before the script is
    written: the call throws, having made directories and nothing else. *)
Lemma attempt_dirs_fail (group : RegisteredGroup) (input : ContainerInput) (d : Disk)
    (imagePath : string) (d1 : Disk) :
  getVibeImagePath e group d = (Done imagePath, d1) ->
  ~ dirs_made group ->
  exists message d2 made,
    attempt e group input d = (Fail message, d2) /\
    ops d2 = ops d1 ++ map MkdirP made.
Proof.
  intros Himg Hnot. unfold attempt. rewrite vibe_bind_eval, Himg.
  fold (groupDir group) (ipcDir group) (sessionsDir group).
  destruct (mkdir_throws e (groupDir group)) as [m1|] eqn:E1.
  { rewrite vibe_bind_eval, mkdirSync_eval. do 2 eexists. exists [groupDir group].
    split; reflexivity. }
  rewrite vibe_bind_eval, mkdirSync_eval. cbn beta iota.
  destruct (mkdir_throws e (path_join (ipcDir group) "messages")) as [m2|] eqn:E2.
  { rewrite vibe_bind_eval, mkdirSync_eval. do 2 eexists.
    exists [groupDir group; path_join (ipcDir group) "messages"].
    split; [reflexivity|]. cbn [ops map]. rewrite <- app_assoc. reflexivity. }
  rewrite vibe_bind_eval, mkdirSync_eval. cbn beta iota.
  destruct (mkdir_throws e (path_join (ipcDir group) "tasks")) as [m3|] eqn:E3.
  { rewrite vibe_bind_eval, mkdirSync_eval. do 2 eexists.
    exists [groupDir group; path_join (ipcDir group) "messages";
            path_join (ipcDir group) "tasks"].
    split; [reflexivity|]. cbn [ops map]. rewrite <- !app_assoc. reflexivity. }
  rewrite vibe_bind_eval, mkdirSync_eval. cbn beta iota.
  destruct (mkdir_throws e (sessionsDir group)) as [m4|] eqn:E4.
  { rewrite vibe_bind_eval, mkdirSync_eval. do 2 eexists.
    exists [groupDir group; path_join (ipcDir group) "messages";
            path_join (ipcDir group) "tasks"; sessionsDir group].
    split; [reflexivity|]. cbn [ops map]. rewrite <- !app_assoc. reflexivity. }
  exfalso. apply Hnot. intros p Hp. unfold call_dirs in Hp. cbn [In] in Hp.
  destruct Hp as [<-|[<-|[<-|[<-|[]]]]]; assumption.
Qed.

Lemma dirs_made_dec (group : RegisteredGroup) : dirs_made group \/ ~ dirs_made group.
Proof.
  unfold dirs_made, call_dirs.
  destruct (mkdir_throws e (groupDir group)) eqn:E1;
    [right; intros H; specialize (H _ (or_introl eq_refl)); congruence|].
  destruct (mkdir_throws e (path_join (ipcDir group) "messages")) eqn:E2;
    [right; intros H; specialize (H _ (or_intror (or_introl eq_refl))); congruence|].
  destruct (mkdir_throws e (path_join (ipcDir group) "tasks")) eqn:E3;
    [right; intros H;
     specialize (H _ (or_intror (or_intror (or_introl eq_refl)))); congruence|].
  destruct (mkdir_throws e (sessionsDir group)) eqn:E4;
    [right; intros H;
     specialize (H _ (or_intror (or_intror (or_intror (or_introl eq_refl))))); congruence|].
  left. intros p Hp. cbn [In] in Hp. destruct Hp as [<-|[<-|[<-|[<-|[]]]]]; assumption.
Qed.

Lemma runVibeAgent_eval (group : RegisteredGroup) (input : ContainerInput) (d : Disk) :
  runVibeAgent e group input d =
  match attempt e group input d with
  | (Done output, d') => (output, d')
  | (Fail message, d') => (mkOutput Error None None (Some message), d')
  end.
Proof. reflexivity. Qed.

(** The temporary script of a call is removed exactly when [vibe] was
    spawned and closed.  For a call that got its image, made its
    directories and wrote its script: when [vibe] cannot be spawned or the
    timer fires first, [executeVibe] rejects, the call goes to its
    [catch], and the script stays in [/tmp]: the spawn is the last thing
    the call does to the host.  A call that cannot make one of its
    directories or cannot write its script ends in its [catch] before
    that: it has made directories and at most tried to write the script,
    and has neither spawned [vibe] nor removed anything. *)
Theorem script_removed_only_when_vibe_closes (group : RegisteredGroup)
    (input : ContainerInput) (d : Disk) (imagePath command : string) (d1 : Disk) :
  getVibeImagePath e group d = (Done imagePath, d1) ->
  agent_command (prompt input) (getAgentRuntime e group) (sessionId input) = Some command ->
  (dirs_made group -> write_throws e = None ->
   spawn_error e = None -> expiry group = None ->
   (scriptPath ∉ files (snd (runVibeAgent e group input d))) /\
   exists later,
     ops (snd (runVibeAgent e group input d)) =
       ops (spawned group imagePath command d1) ++ Unlink scriptPath :: later) /\
  (dirs_made group -> write_throws e = None ->
   spawn_error e <> None \/ expiry group <> None ->
   status (fst (runVibeAgent e group input d)) = Error /\
   (scriptPath ∈ files (snd (runVibeAgent e group input d))) /\
   ops (snd (runVibeAgent e group input d)) =
     ops (with_dirs group d1) ++
     [WriteScript scriptPath (script_text command);
      SpawnVibe (spawn_args group imagePath)]) /\
  (~ dirs_made group \/ write_throws e <> None ->
   status (fst (runVibeAgent e group input d)) = Error /\
   exists steps,
     ops (snd (runVibeAgent e group input d)) = ops d1 ++ steps /\
     forall o, In o steps ->
       (exists p, o = MkdirP p) \/ o = WriteScript scriptPath (script_text command)).
Proof.
  intros Himg Hcmd. split; [|split].
  - intros Hdirs Hwrite.
    rewrite runVibeAgent_eval, (attempt_eval group input d imagePath d1 Himg Hdirs).
    unfold after_dirs. rewrite Hcmd, Hwrite.
    intros -> ->. cbn [fst snd]. unfold tidied. split.
    + destruct (random_below_tenth e); cbn [files]; [|set_solver].
      intros Hin. apply elem_of_filter in Hin as [_ Hin]. set_solver.
    + destruct (random_below_tenth e); cbn [ops].
      * exists [CleanupTempScripts]. rewrite <- app_assoc. reflexivity.
      * exists []. reflexivity.
  - intros Hdirs Hwrite.
    rewrite runVibeAgent_eval, (attempt_eval group input d imagePath d1 Himg Hdirs).
    unfold after_dirs. rewrite Hcmd, Hwrite.
    intros Hrej. destruct (spawn_error e) as [message|].
    + cbn [fst snd status]. split; [reflexivity|]. split; [|reflexivity].
      clear Hrej. unfold spawned. cbn [files]. set_solver.
    + destruct (expiry group) as [t|]; [|destruct Hrej; congruence].
      cbn [fst snd status]. split; [reflexivity|]. split; [|reflexivity].
      clear Hrej. unfold spawned. cbn [files]. set_solver.
  - intros Hbad. destruct (dirs_made_dec group) as [Hdirs|Hnot].
    + destruct Hbad as [Hnot|Hwrite]; [contradiction|].
      rewrite runVibeAgent_eval, (attempt_eval group input d imagePath d1 Himg Hdirs).
      unfold after_dirs. rewrite Hcmd.
      destruct (write_throws e) as [message|]; [|congruence].
      cbn [fst snd status]. split; [reflexivity|].
      exists [MkdirP (groupDir group); MkdirP (path_join (ipcDir group) "messages");
              MkdirP (path_join (ipcDir group) "tasks"); MkdirP (sessionsDir group);
              WriteScript scriptPath (script_text command)].
      split.
      * unfold with_dirs. cbn [ops]. rewrite <- app_assoc. reflexivity.
      * intros o Ho. cbn [In] in Ho.
        destruct Ho as [<- | [<- | [<- | [<- | [<- | []]]]]]; eauto.
    + destruct (attempt_dirs_fail group input d imagePath d1 Himg Hnot)
        as (message & d2 & made & Ea & Eo).
      rewrite runVibeAgent_eval, Ea. cbn [fst snd status]. split; [reflexivity|].
      exists (map MkdirP made). split; [exact Eo|].
      intros o Ho. apply in_map_iff in Ho as (p & <- & _). left. exists p. reflexivity.
Qed.

(** What makes a call succeed: the image was found or made, the four
    directories could be made, the runtime is one the script knows, the
    script could be written, [vibe] was spawned, closed before the timer
    and closed with exit code 0 or with no exit code at all. *)
Definition goes_through (group : RegisteredGroup) (input : ContainerInput) (d : Disk)
    : Prop :=
  (exists imagePath d1, getVibeImagePath e group d = (Done imagePath, d1)) /\
  dirs_made group /\
  (exists command,
     agent_command (prompt input) (getAgentRuntime e group) (sessionId input)
     = Some command) /\
  write_throws e = None /\
  spawn_error e = None /\
  expiry group = None /\
  (fst (fst (closes e)) = None \/ fst (fst (closes e)) = Some 0%Z).

(** A call returns an output of status [success] exactly when the image
    was found or made, the directories could be made, the runtime is one
    the script knows, the script could be written, [vibe] was spawned,
    closed before the timer and closed with exit code 0 or with no exit
    code at all (killed by a signal, which [code || 0] turns into 0); in
    every other case the status is [error].  A successful result is what
    [extractVibeOutput] takes from the standard output, also when that is
    empty. *)
Theorem vibe_success_iff (group : RegisteredGroup) (input : ContainerInput) (d : Disk) :
  (status (fst (runVibeAgent e group input d)) = Success <-> goes_through group input d) /\
  (~ goes_through group input d -> status (fst (runVibeAgent e group input d)) = Error) /\
  (goes_through group input d ->
   fst (runVibeAgent e group input d) =
     mkOutput Success (Some (extractVibeOutput (snd (fst (closes e)))))
       (extractSessionIdFromVibeOutput e (extractVibeOutput (snd (fst (closes e))))
          (getAgentRuntime e group))
       None).
Proof.
  assert (Hok : goes_through group input d ->
            fst (runVibeAgent e group input d) =
              mkOutput Success (Some (extractVibeOutput (snd (fst (closes e)))))
                (extractSessionIdFromVibeOutput e (extractVibeOutput (snd (fst (closes e))))
                   (getAgentRuntime e group))
                None).
  { intros ((imagePath & d1 & Himg) & Hdirs & (command & Hcmd) & Hw & Hs & Hx & Hcode).
    rewrite runVibeAgent_eval, (attempt_eval group input d imagePath d1 Himg Hdirs).
    unfold after_dirs. rewrite Hcmd, Hw, Hs, Hx. cbn [fst snd]. unfold report.
    destruct (closes e) as [[code out] err]. cbn [fst snd] in Hcode |- *.
    destruct Hcode as [-> | ->]; reflexivity. }
  assert (Hfail : status (fst (runVibeAgent e group input d)) = Success ->
            goes_through group input d).
  { rewrite runVibeAgent_eval.
    destruct (getVibeImagePath e group d) as [[imagePath|message] d1] eqn:Himg;
      [|rewrite (attempt_image_fails group input d message d1 Himg); discriminate].
    destruct (dirs_made_dec group) as [Hdirs|Hnot].
    2:{ destruct (attempt_dirs_fail group input d imagePath d1 Himg Hnot)
          as (message & d2 & made & -> & _). discriminate. }
    rewrite (attempt_eval group input d imagePath d1 Himg Hdirs). unfold after_dirs.
    destruct (agent_command _ _ _) as [command|] eqn:Hcmd; [|discriminate].
    destruct (write_throws e) eqn:Hw; [discriminate|].
    destruct (spawn_error e) eqn:Hs; [discriminate|].
    destruct (expiry group) eqn:Hx; [discriminate|].
    cbn [fst snd]. unfold report, goes_through.
    destruct (closes e) as [[code out] err]. cbn [fst snd].
    destruct (Z.eqb (exit_code code) 0) eqn:Ez; cbn [negb]; [|discriminate].
    intros _. split; [exists imagePath, d1; exact Himg|]. split; [exact Hdirs|].
    split; [exists command; exact Hcmd|].
    split; [exact Hw|]. split; [exact Hs|]. split; [exact Hx|].
    destruct code as [c|]; [right|left; reflexivity].
    apply Z.eqb_eq in Ez. cbn in Ez. congruence. }
  split; [split; [exact Hfail|]|split; [|exact Hok]].
  - intros H. rewrite (Hok H). reflexivity.
  - intros Hnot. destruct (status (fst (runVibeAgent e group input d))) eqn:Es;
      [destruct (Hnot (Hfail eq_refl))|reflexivity].
Qed.

Lemma getVibeImagePath_spawns_nothing (group : RegisteredGroup) (d : Disk)
    (args : list string) :
  In (SpawnVibe args) (ops (snd (getVibeImagePath e group d))) ->
  In (SpawnVibe args) (ops d).
Proof.
  rewrite getVibeImagePath_eval.
  assert (Hmk : In (SpawnVibe args) (ops d ++ [MkdirP (VIBE_IMAGES_DIR e)]) ->
                In (SpawnVibe args) (ops d)).
  { rewrite in_app_iff. intros [H|[H|[]]]; [exact H|discriminate H]. }
  destruct (mkdir_throws e (VIBE_IMAGES_DIR e)); [exact Hmk|].
  destruct (uses_custom group d); [exact Hmk|].
  destruct (there d (groupImage group)); [exact Hmk|].
  destruct (there d (baseImagePath e)); [|exact Hmk].
  rewrite copy_base_eval.
  destruct (bool_decide (baseImagePath e ∈ files (with_images_dir d)));
    [destruct (clone_throws e), (copy_throws e)|]; cbn [snd ops]; rewrite in_app_iff;
    (intros [H|H]; [exact (Hmk H)|]); cbn [In] in H;
    repeat (destruct H as [H|H]; [discriminate H|]); destruct H.
Qed.

Lemma mount_in_args (m : Mount) (ms : list Mount) :
  In m ms -> In (mount_arg m) (concat (map (fun m => ["--mount"; mount_arg m]) ms)).
Proof.
  induction ms as [|x ms IH]; [intros []|].
  intros [->|H]; cbn [map concat app In]; [right; left; reflexivity|].
  right. right. apply IH, H.
Qed.

Lemma standard_mounts (group : RegisteredGroup) (imagePath : string) :
  In (mount_arg (mkMount (groupDir group) "/workspace" false)) (spawn_args group imagePath) /\
  In (mount_arg (mkMount (ipcDir group) "/ipc" false)) (spawn_args group imagePath) /\
  In (mount_arg (mkMount (sessionsDir group) "/home/user/.claude" false))
    (spawn_args group imagePath) /\
  List.last (spawn_args group imagePath) EmptyString = imagePath.
Proof.
  unfold spawn_args, executeVibe_args, vibeOptions.
  destruct (getVibeConfig (settings e) group) as [[c r] t].
  cbn [cpus ram mounts script].
  assert (Hm : forall m,
            In m [mkMount (groupDir group) "/workspace" false;
                  mkMount (ipcDir group) "/ipc" false;
                  mkMount (sessionsDir group) "/home/user/.claude" false] ->
            In m (configure_mounts (settings e) group true)).
  { intros m Hm. unfold configure_mounts.
    fold (groupDir group) (ipcDir group) (sessionsDir group).
    rewrite !in_app_iff. cbn [In] in Hm |- *. tauto. }
  repeat split.
  - rewrite !in_app_iff. right. right. left. apply mount_in_args, Hm. cbn [In]. auto.
  - rewrite !in_app_iff. right. right. left. apply mount_in_args, Hm. cbn [In]. auto.
  - rewrite !in_app_iff. right. right. left. apply mount_in_args, Hm. cbn [In]. auto.
  - rewrite !app_assoc. apply last_last.
Qed.

(** Whenever a call spawns [vibe], it does so with the image
    [getVibeImagePath] returned as the last argument and with the three
    mounts of the group among the arguments: the workspace, the IPC
    directory and the session directory, each read-write.  The session
    directory is always mounted, since the call makes it before it looks
    whether it is there. *)
Theorem vibe_always_mounts_sessions (group : RegisteredGroup) (input : ContainerInput)
    (d : Disk) (args : list string) :
  In (SpawnVibe args) (ops (snd (runVibeAgent e group input d))) ->
  ~ In (SpawnVibe args) (ops d) ->
  exists imagePath d1,
    getVibeImagePath e group d = (Done imagePath, d1) /\
    args = executeVibe_args imagePath (vibeOptions (settings e) group true scriptPath) /\
    In (groupDir group ++ ":/workspace:read-write")%string args /\
    In (ipcDir group ++ ":/ipc:read-write")%string args /\
    In (sessionsDir group ++ ":/home/user/.claude:read-write")%string args /\
    List.last args EmptyString = imagePath.
Proof.
  intros Hin Hnew. rewrite runVibeAgent_eval in Hin.
  pose proof (getVibeImagePath_spawns_nothing group d args) as Himg.
  destruct (getVibeImagePath e group d) as [[imagePath|message] d1] eqn:E;
    cbn [fst snd] in Himg.
  2:{ rewrite (attempt_image_fails group input d message d1 E) in Hin.
      cbn [snd] in Hin. exfalso. apply Hnew, Himg, Hin. }
  assert (Hmade : forall made, In (SpawnVibe args) (ops d1 ++ map MkdirP made) -> False).
  { intros made. rewrite in_app_iff. intros [H|H]; [tauto|].
    apply in_map_iff in H as (p & H & _). discriminate H. }
  destruct (dirs_made_dec group) as [Hdirs|Hnot].
  2:{ destruct (attempt_dirs_fail group input d imagePath d1 E Hnot)
        as (message & d2 & made & Ea & Eo).
      rewrite Ea in Hin. cbn [snd] in Hin. rewrite Eo in Hin. destruct (Hmade _ Hin). }
  rewrite (attempt_eval group input d imagePath d1 E Hdirs) in Hin. unfold after_dirs in Hin.
  assert (Hdirs' : In (SpawnVibe args) (ops (with_dirs group d1)) -> False).
  { unfold with_dirs. cbn [ops]. intros H. exact (Hmade (call_dirs group) H). }
  assert (Hsp : forall command,
            In (SpawnVibe args) (ops (spawned group imagePath command d1)) ->
            args = spawn_args group imagePath).
  { intros command. unfold spawned. cbn [ops]. rewrite in_app_iff. cbn [In].
    intros [H|[H|[H|[]]]]; [destruct (Hdirs' H)|discriminate H|congruence]. }
  assert (Hargs : args = spawn_args group imagePath).
  { destruct (agent_command _ _ _) as [command|]; [|destruct (Hdirs' Hin)].
    destruct (write_throws e).
    { cbn [snd ops] in Hin. apply in_app_iff in Hin as [H|[H|[]]];
        [destruct (Hdirs' H)|discriminate H]. }
    destruct (spawn_error e); [exact (Hsp _ Hin)|].
    destruct (expiry group); [exact (Hsp _ Hin)|].
    cbn [snd] in Hin. unfold tidied in Hin.
    destruct (random_below_tenth e); cbn [ops] in Hin; rewrite !in_app_iff in Hin; cbn [In] in Hin.
    - destruct Hin as [[H|[H|[]]]|[H|[]]]; [exact (Hsp _ H)|discriminate H|discriminate H].
    - destruct Hin as [H|[H|[]]]; [exact (Hsp _ H)|discriminate H]. }
  exists imagePath, d1. split; [reflexivity|]. split; [exact Hargs|].
  rewrite Hargs. exact (standard_mounts group imagePath).
Qed.

(** ** Resetting an image *)




End WithEnv.

(** ** One call on a host where nothing throws *)

Lemma extractVibeOutput_witness :
  extractVibeOutput marked_stdout = "all done".
Proof.
  refine (extractVibeOutput_between_markers ("booting" ++ LF) (LF ++ "all done" ++ LF) LF
            _ _); vm_compute; reflexivity.
Defined.

Lemma family_image :
  getVibeImagePath vibe_env family disk0 =
    (Done "/srv/data/vibe-images/family.raw", snd (getVibeImagePath vibe_env family disk0)).
Proof. vm_compute. reflexivity. Defined.

Lemma script_removed_witness :
  scriptPath vibe_env ∉ files (snd (runVibeAgent vibe_env family hello disk0)).
Proof.
  destruct (script_removed_only_when_vibe_closes vibe_env family hello disk0
              "/srv/data/vibe-images/family.raw"
              ("claude --dangerously-skip-permissions exec " ++ dq ++ "hello" ++ dq)
              (snd (getVibeImagePath vibe_env family disk0)) family_image)
    as [Hclosed _]; [vm_compute; reflexivity|].
  apply Hclosed; [intros p _; reflexivity|reflexivity|reflexivity|reflexivity].
Defined.

Lemma vibe_mounts_witness :
  exists args,
    In (SpawnVibe args) (ops (snd (runVibeAgent vibe_env family hello disk0))) /\
    In "/srv/data/sessions/family/.claude:/home/user/.claude:read-write" args.
Proof.
  exists (spawn_args vibe_env family "/srv/data/vibe-images/family.raw").
  assert (Hin : In (SpawnVibe (spawn_args vibe_env family "/srv/data/vibe-images/family.raw"))
                  (ops (snd (runVibeAgent vibe_env family hello disk0)))).
  { vm_compute. tauto. }
  split; [exact Hin|].
  destruct (vibe_always_mounts_sessions vibe_env family hello disk0 _ Hin)
    as (imagePath & d1 & _ & _ & _ & _ & Hs & _); [intros []|].
  exact Hs.
Defined.

(** ** A reset of the group that shares the name of the base image *)


End VibeRunFacts.

(* ===================================================================== *)
(** * Facts about the Discord handler *)
(* ===================================================================== *)

Module DiscordFacts.
Import Store Types Router Discord TextFacts RouterFacts Samples.
Local Open Scope list_scope.

(** ** [escapeXml] *)

Lemma replace_char_app (c : ascii) (by_ a b : string) :
  Js.replace_char c by_ (a ++ b)%string
  = (Js.replace_char c by_ a ++ Js.replace_char c by_ b)%string.
Proof.
  induction a as [|x a IH]; [reflexivity|].
  rewrite JsFacts.append_cons. cbn [Js.replace_char]. rewrite IH.
  destruct (Ascii.eqb x c); [rewrite append_assoc|]; reflexivity.
Qed.

Lemma escapeXml_app (a b : string) :
  escapeXml (a ++ b)%string = (escapeXml a ++ escapeXml b)%string.
Proof. unfold escapeXml. rewrite !replace_char_app. reflexivity. Qed.

(** What one code unit becomes. *)
Definition entity (c : ascii) : string :=
  if Ascii.eqb c "&" then "&amp;"
  else if Ascii.eqb c "<" then "&lt;"
  else if Ascii.eqb c ">" then "&gt;"
  else if Ascii.eqb c "034" then "&quot;"
  else String c EmptyString.

Lemma escapeXml_char (c : ascii) : escapeXml (String c EmptyString) = entity c.
Proof.
  unfold escapeXml, entity. cbn [Js.replace_char].
  destruct (Ascii.eqb c "&") eqn:E1; [reflexivity|].
  cbn [Js.replace_char]. destruct (Ascii.eqb c "<") eqn:E2; [reflexivity|].
  cbn [Js.replace_char]. destruct (Ascii.eqb c ">") eqn:E3; [reflexivity|].
  cbn [Js.replace_char]. destruct (Ascii.eqb c "034") eqn:E4; reflexivity.
Qed.

Lemma has_char_app (c : ascii) (a b : string) :
  has_char c (a ++ b)%string = has_char c a || has_char c b.
Proof.
  induction a as [|x a IH]; [reflexivity|].
  rewrite JsFacts.append_cons. cbn [has_char]. rewrite IH, orb_assoc. reflexivity.
Qed.

Lemma entity_clean (c : ascii) :
  has_char "<" (entity c) = false /\ has_char ">" (entity c) = false /\
  has_char "034" (entity c) = false.
Proof.
  unfold entity.
  destruct (Ascii.eqb c "&"); [repeat split|].
  destruct (Ascii.eqb c "<") eqn:E2; [repeat split|].
  destruct (Ascii.eqb c ">") eqn:E3; [repeat split|].
  destruct (Ascii.eqb c "034") eqn:E4; [repeat split|].
  cbn [has_char]. rewrite E2, E3, E4. repeat split.
Qed.

(** The four replaces of [escapeXml] escape every code unit once: the
    ampersands that the later replaces bring in are not escaped again.
    The result is the concatenation of what the single code units become
    and holds no [<], no [>] and no double quote. *)
Theorem escapeXml_escapes_each_unit_once :
  (forall c s, escapeXml (String c s) = (entity c ++ escapeXml s)%string) /\
  (forall a b, escapeXml (a ++ b)%string = (escapeXml a ++ escapeXml b)%string) /\
  (forall s,
     has_char "<" (escapeXml s) = false /\
     has_char ">" (escapeXml s) = false /\
     has_char "034" (escapeXml s) = false).
Proof.
  assert (Hc : forall c s, escapeXml (String c s) = (entity c ++ escapeXml s)%string).
  { intros c s. change (String c s) with (String c EmptyString ++ s)%string.
    rewrite escapeXml_app, escapeXml_char. reflexivity. }
  split; [exact Hc|]. split; [exact escapeXml_app|].
  induction s as [|c s (I1 & I2 & I3)]; [repeat split|].
  rewrite Hc, !has_char_app, I1, I2, I3.
  destruct (entity_clean c) as (-> & -> & ->). repeat split.
Qed.

(** ** The admin command *)

Lemma match_runtime_command_known (content cmd : string) :
  match_runtime_command content = Some cmd ->
  cmd = "claude" \/ cmd = "codex" \/ cmd = "opencode" \/ cmd = "status".
Proof.
  unfold match_runtime_command.
  destruct (after_literal "!runtime" content) as [[|c rest]|]; try discriminate.
  destruct (Js.is_ws c); [|discriminate].
  set (word := toLowerCase (Js.trimStart (String c rest))).
  destruct (String.eqb word "claude") eqn:E1;
    [apply String.eqb_eq in E1; intros [= <-]; auto|].
  destruct (String.eqb word "codex") eqn:E2;
    [apply String.eqb_eq in E2; intros [= <-]; auto|].
  destruct (String.eqb word "opencode") eqn:E3;
    [apply String.eqb_eq in E3; intros [= <-]; auto|].
  destruct (String.eqb word "status") eqn:E4;
    [apply String.eqb_eq in E4; intros [= <-]; auto|].
  discriminate.
Qed.

(** ** The grammar of the admin command *)

(** Every code unit of [s] is white space. *)
Fixpoint all_ws (s : string) : bool :=
  match s with
  | EmptyString => true
  | String c s' => Js.is_ws c && all_ws s'
  end.

Lemma toLowerCase_app (a b : string) :
  toLowerCase (a ++ b)%string = (toLowerCase a ++ toLowerCase b)%string.
Proof.
  induction a as [|c a IH]; [reflexivity|].
  rewrite JsFacts.append_cons. cbn [toLowerCase]. rewrite IH. reflexivity.
Qed.

Lemma lower_ws (c : ascii) : Js.is_ws c = true -> lower c = c.
Proof.
  unfold Js.is_ws, lower. cbn zeta. intros H.
  destruct (Nat.leb 65 (nat_of_ascii c) && Nat.leb (nat_of_ascii c) 90) eqn:E; [|reflexivity].
  apply andb_true_iff in E as [E1 E2]. apply Nat.leb_le in E1, E2.
  apply orb_true_iff in H as [H|H]; [apply orb_true_iff in H as [H|H]|].
  - apply andb_true_iff in H as [_ H]. apply Nat.leb_le in H. lia.
  - apply Nat.eqb_eq in H. lia.
  - apply Nat.eqb_eq in H. lia.
Qed.

Lemma after_literal_complete (literal head rest : string) :
  toLowerCase head = literal -> after_literal literal (head ++ rest)%string = Some rest.
Proof.
  revert literal. induction head as [|c head IH]; intros literal <-.
  - cbn [toLowerCase after_literal]. rewrite JsFacts.append_nil. reflexivity.
  - rewrite JsFacts.append_cons. cbn [toLowerCase after_literal].
    rewrite Ascii.eqb_refl. apply IH. reflexivity.
Qed.

Lemma after_literal_sound (literal content rest : string) :
  after_literal literal content = Some rest ->
  exists head, content = (head ++ rest)%string /\ toLowerCase head = literal.
Proof.
  revert content. induction literal as [|p literal IH]; intros content.
  - cbn [after_literal]. intros [= ->]. exists EmptyString. split; reflexivity.
  - destruct content as [|c content]; [discriminate|]. cbn [after_literal].
    destruct (Ascii.eqb (lower c) p) eqn:E; [|discriminate].
    apply Ascii.eqb_eq in E. intros H. destruct (IH content H) as (head & -> & <-).
    exists (String c head). rewrite JsFacts.append_cons. cbn [toLowerCase]. rewrite E.
    split; reflexivity.
Qed.

Lemma trimStart_splits (s : string) :
  exists ws, s = (ws ++ Js.trimStart s)%string /\ all_ws ws = true.
Proof.
  induction s as [|c s (ws & E & Hws)].
  - exists EmptyString. split; reflexivity.
  - cbn [Js.trimStart]. destruct (Js.is_ws c) eqn:Ec.
    + exists (String c ws). rewrite JsFacts.append_cons, <- E. cbn [all_ws].
      rewrite Ec, Hws. split; reflexivity.
    + exists EmptyString. split; reflexivity.
Qed.

Lemma trimStart_ws (ws word : string) :
  all_ws ws = true -> Js.trimStart (ws ++ word)%string = Js.trimStart word.
Proof.
  induction ws as [|c ws IH]; intros H; [reflexivity|].
  cbn [all_ws] in H. apply andb_true_iff in H as [Hc Hws].
  rewrite JsFacts.append_cons. cbn [Js.trimStart]. rewrite Hc. apply IH, Hws.
Qed.

Definition runtime_word (cmd : string) : Prop :=
  cmd = "claude" \/ cmd = "codex" \/ cmd = "opencode" \/ cmd = "status".

Lemma runtime_word_eqb (cmd : string) :
  runtime_word cmd ->
  String.eqb cmd "claude" || String.eqb cmd "codex"
  || String.eqb cmd "opencode" || String.eqb cmd "status" = true.
Proof. intros [-> | [-> | [-> | ->]]]; reflexivity. Qed.

Lemma runtime_word_starts (word cmd : string) :
  toLowerCase word = cmd -> runtime_word cmd -> Js.trimStart word = word.
Proof.
  intros E Hcmd. destruct word as [|c word].
  - cbn in E. subst cmd. destruct Hcmd as [H|[H|[H|H]]]; discriminate H.
  - cbn [Js.trimStart]. destruct (Js.is_ws c) eqn:Ec; [|reflexivity].
    exfalso. cbn [toLowerCase] in E. rewrite (lower_ws c Ec) in E. subst cmd.
    destruct Hcmd as [H|[H|[H|H]]]; injection H as -> _; discriminate Ec.
Qed.

(** The handler takes a message for the admin command exactly when it is
    [!runtime], then one or more white-space characters, then one of the
    words [claude], [codex], [opencode] and [status], with nothing before
    and nothing after, in any mix of upper and lower case; the command it
    acts on is the word in lower case. *)
Theorem runtime_command_grammar (content cmd : string) :
  match_runtime_command content = Some cmd <->
  exists head ws word,
    content = (head ++ ws ++ word)%string /\
    toLowerCase head = "!runtime" /\
    ws <> EmptyString /\ all_ws ws = true /\
    toLowerCase word = cmd /\
    runtime_word cmd.
Proof.
  split.
  - intros H. pose proof (match_runtime_command_known _ _ H) as Hknown.
    unfold match_runtime_command in H.
    destruct (after_literal "!runtime" content) as [[|c rest]|] eqn:Ea; try discriminate.
    destruct (Js.is_ws c) eqn:Ec; [|discriminate].
    destruct (String.eqb _ "claude" || _ || _ || _); [|discriminate].
    injection H as H.
    destruct (after_literal_sound _ _ _ Ea) as (head & -> & Hhead).
    destruct (trimStart_splits (String c rest)) as (ws & Ews & Hws).
    exists head, ws, (Js.trimStart (String c rest)).
    split; [rewrite <- Ews; reflexivity|]. split; [exact Hhead|]. split.
    + intros ->. rewrite JsFacts.append_nil in Ews.
      cbn [Js.trimStart] in Ews. rewrite Ec in Ews.
      apply (f_equal String.length) in Ews. cbn [String.length] in Ews.
      assert (Hlen : String.length (Js.trimStart rest) <= String.length rest).
      { clear. induction rest as [|x rest IH]; cbn [Js.trimStart String.length]; [lia|].
        destruct (Js.is_ws x); cbn [String.length]; lia. }
      lia.
    + split; [exact Hws|]. split; [exact H|exact Hknown].
  - intros (head & ws & word & -> & Hhead & Hne & Hws & Hword & Hcmd).
    unfold match_runtime_command. rewrite (after_literal_complete _ head _ Hhead).
    destruct ws as [|c ws]; [congruence|].
    rewrite JsFacts.append_cons.
    pose proof Hws as Hws'. cbn [all_ws] in Hws'. apply andb_true_iff in Hws' as [Hc _].
    rewrite Hc. rewrite <- JsFacts.append_cons.
    rewrite (trimStart_ws _ _ Hws), (runtime_word_starts _ _ Hword Hcmd), Hword.
    rewrite (runtime_word_eqb _ Hcmd). reflexivity.
Qed.

Section WithConfig.
Variable cfg : Config.
Variable env : DEnv.

(** A message that is the admin command never reaches the store or the
    agent and leaves the router's state alone.  [status] reports the
    runtime kept in the settings, or the default, and changes nothing; any
    other form writes the runtime it names, in lower case and one of
    [claude], [codex] and [opencode], to the settings and reports that. *)
Theorem admin_command_only_switches_runtime (msg : DiscordIncomingMessage)
    (agent : AgentRun) (s : DWorld) (cmd : string) :
  match_runtime_command (msg_content msg) = Some cmd ->
  fst (processDiscordIncoming cfg env msg agent s) = Returned tt /\
  world (snd (processDiscordIncoming cfg env msg agent s)) = world s /\
  (cmd = "status" ->
   settings_table (snd (processDiscordIncoming cfg env msg agent s)) = settings_table s /\
   dtrace (snd (processDiscordIncoming cfg env msg agent s)) =
     dtrace s ++
     [DSendStatus (scopeId msg)
        match truthy_opt (settings_table s !! "agent_runtime") with
        | Some r => r
        | None => "claude (default)"
        end]) /\
  (cmd <> "status" ->
   (cmd = "claude" \/ cmd = "codex" \/ cmd = "opencode") /\
   settings_table (snd (processDiscordIncoming cfg env msg agent s))
     = <["agent_runtime" := cmd]> (settings_table s) /\
   dtrace (snd (processDiscordIncoming cfg env msg agent s)) =
     dtrace s ++ [DSetSetting "agent_runtime" cmd; DSendSwitched (scopeId msg) cmd]).
Proof.
  intros Hcmd. pose proof (match_runtime_command_known _ _ Hcmd) as Hknown.
  unfold processDiscordIncoming. rewrite Hcmd. unfold runtime_command.
  destruct (String.eqb cmd "status") eqn:E.
  - apply String.eqb_eq in E. subst cmd. cbn. repeat split; congruence.
  - apply String.eqb_neq in E. cbn. split; [reflexivity|]. split; [reflexivity|].
    split; [congruence|]. intros _. split; [tauto|]. split; [reflexivity|].
    rewrite <- app_assoc. reflexivity.
Qed.

End WithConfig.

(** ** A message for the agent *)

Lemma prompt_of_truthy (missed : list NewMessage) : Js.truthy (prompt_of missed) = true.
Proof. reflexivity. Qed.

Lemma skipn_own_length {A} (a b : list A) : skipn (length a) (a ++ b) = b.
Proof. rewrite skipn_app, skipn_all, Nat.sub_diag. reflexivity. Qed.

Lemma lift_emit (ev : Event) (s : DWorld) :
  lift (emit ev) s =
  (Returned tt, mkDWorld (log ev (world s)) (settings_table s) (dtrace s ++ [DRouter ev])).
Proof.
  unfold lift, emit, modify. cbn [trace log]. rewrite skipn_own_length. reflexivity.
Qed.

Lemma lift_set_cursor (chatJid ts : string) (s : DWorld) :
  lift (set_cursor chatJid ts) s =
  (Returned tt,
   mkDWorld (with_lastAgentTimestamp (<[chatJid := ts]> (lastAgentTimestamp (world s)))
               (world s))
     (settings_table s) (dtrace s)).
Proof.
  unfold lift, set_cursor, bind, get, modify. cbn [trace with_lastAgentTimestamp].
  rewrite skipn_all, app_nil_r. reflexivity.
Qed.

Lemma lift_saveState (s : DWorld) :
  lift saveState s =
  (Returned tt,
   mkDWorld (log (EvSaveState (lastTimestamp (world s)) (lastAgentTimestamp (world s)))
               (with_router_state (lastTimestamp (world s)) (lastAgentTimestamp (world s))
                  (world s)))
     (settings_table s)
     (dtrace s ++ [DRouter (EvSaveState (lastTimestamp (world s))
                              (lastAgentTimestamp (world s)))])).
Proof.
  unfold lift. rewrite RouterFacts.saveState_run. cbn [trace log with_router_state].
  rewrite skipn_own_length. reflexivity.
Qed.

Lemma lift_recordSession (groupFolder sid : string) (s : DWorld) :
  exists w',
    lift (recordSession groupFolder sid) s =
      (Returned tt,
       mkDWorld w' (settings_table s) (dtrace s ++ [DRouter (EvSetSession groupFolder sid)])) /\
    RouterFacts.same_cursors (world s) w' /\
    db_last_agent_timestamp w' = db_last_agent_timestamp (world s) /\
    sessions w' !! groupFolder = Some sid.
Proof.
  destruct (RouterFacts.recordSession_run groupFolder sid (world s))
    as (w' & E & Ht & Hs & _ & Hd & Hsid & _).
  exists w'. unfold lift. rewrite E, Ht, skipn_own_length.
  repeat split; try assumption; apply Hs.
Qed.

Section WithConfig.
Variable cfg : Config.
Variable env : DEnv.

(** The name the chat is stored under. *)
Definition chat_name (msg : DiscordIncomingMessage) : string :=
  match truthy_opt (channelName msg) with
  | Some name => ("discord:" ++ name)%string
  | None => scopeId msg
  end.

(** The router's state once the message is stored. *)
Definition stored (msg : DiscordIncomingMessage) (w : World) : World :=
  with_db_messages (storeDiscordMessage env msg (db_messages w)) w.

(** The group the agent is run for. *)
Definition discord_group (w : World) : RegisteredGroup :=
  match registeredGroups w !! "discord" with
  | Some group => group
  | None => DISCORD_GROUP env
  end.

(** What the agent is called with. *)
Definition discord_input (msg : DiscordIncomingMessage) (w : World) : ContainerInput :=
  mkInput
    (buildPromptFromMessages cfg (stored msg w) (scopeId msg) (cursor w (scopeId msg)))
    (sessions w !! folder (discord_group w)) (folder (discord_group w)) (scopeId msg) false.

(** Everything up to and including the call of the agent. *)
Definition opening (msg : DiscordIncomingMessage) (w : World) : list DEvent :=
  [DStoreChatMetadata (scopeId msg) (msg_timestamp msg) (chat_name msg);
   DStoreMessage msg;
   DSetTyping (scopeId msg) true] ++
  match registeredGroups w !! "discord" with
  | Some _ => []
  | None => [DRegisterGroup "discord" (DISCORD_GROUP env)]
  end ++
  [DRouter (EvWriteTasksSnapshot (folder (discord_group w)) false);
   DRouter (EvRunAgent (folder (discord_group w)) (discord_input msg w))].

(** The agent came back with a result to send. *)
Definition reply (agent : AgentRun) : option string :=
  match final agent with
  | Some output => truthy_opt (result output)
  | None => None
  end.

(** The cursors after the call. *)
Definition cursors_after (msg : DiscordIncomingMessage) (agent : AgentRun) (w : World)
    : gmap string string :=
  match reply agent with
  | Some _ => <[scopeId msg := msg_timestamp msg]> (lastAgentTimestamp w)
  | None => lastAgentTimestamp w
  end.

(** What follows the call of the agent. *)
Definition closing (msg : DiscordIncomingMessage) (agent : AgentRun) (w : World)
    : list DEvent :=
  DSetTyping (scopeId msg) false ::
  match final agent with
  | None => []
  | Some output =>
      match truthy_opt (newSessionId output) with
      | Some sid => [DRouter (EvSetSession (folder (discord_group w)) sid)]
      | None => []
      end ++
      match truthy_opt (result output) with
      | Some text =>
          [DRouter (EvSaveState (lastTimestamp w) (cursors_after msg agent w));
           DSendMessage (scopeId msg) text]
      | None => []
      end
  end.

Ltac discord_tidy :=
  cbn [world settings_table dtrace log with_router_state with_lastAgentTimestamp
       lastTimestamp lastAgentTimestamp db_last_agent_timestamp db_last_timestamp
       registeredGroups db_messages sessions db_sessions trace].

Lemma process_message_run (msg : DiscordIncomingMessage) (agent : AgentRun) (s : DWorld) :
  match_runtime_command (msg_content msg) = None ->
  exists s',
    processDiscordIncoming cfg env msg agent s = (Returned tt, s') /\
    dtrace s' = dtrace s ++ opening msg (world s) ++ closing msg agent (world s) /\
    settings_table s' = settings_table s /\
    lastAgentTimestamp (world s') = cursors_after msg agent (world s) /\
    (reply agent <> None ->
     db_last_agent_timestamp (world s')
     = <[scopeId msg := msg_timestamp msg]> (lastAgentTimestamp (world s))) /\
    (reply agent = None ->
     db_last_agent_timestamp (world s') = db_last_agent_timestamp (world s)) /\
    lastTimestamp (world s') = lastTimestamp (world s) /\
    registeredGroups (world s') !! "discord" = Some (discord_group (world s)) /\
    db_messages (world s') = storeDiscordMessage env msg (db_messages (world s)).
Proof.
  intros Hcmd. unfold processDiscordIncoming. rewrite Hcmd.
  unfold dbind at 1, demit at 1. cbn beta iota.
  unfold dbind at 1, with_world at 1. cbn beta iota. cbn [world settings_table dtrace].
  unfold dbind at 1, demit at 1. cbn beta iota. cbn [world settings_table dtrace].
  unfold dbind at 1, dget at 1. cbn beta iota. cbn [world settings_table dtrace].
  unfold buildPromptFromMessages at 1. rewrite prompt_of_truthy. cbn [negb].
  unfold dbind at 1, demit at 1. cbn beta iota. cbn [world settings_table dtrace].
  unfold opening, closing, cursors_after, reply, discord_input, discord_group.
  fold (stored msg (world s)). fold (chat_name msg).
  change (registeredGroups (stored msg (world s))) with (registeredGroups (world s)).
  change (cursor (stored msg (world s)) (scopeId msg)) with (cursor (world s) (scopeId msg)).
  set (prompt := buildPromptFromMessages cfg (stored msg (world s)) (scopeId msg)
                   (cursor (world s) (scopeId msg))).
  assert (Hreg : forall (base : list DEvent) (w : World) (group : RegisteredGroup),
            registeredGroups w !! "discord" = Some group ->
            lastAgentTimestamp w = lastAgentTimestamp (world s) ->
            db_last_agent_timestamp w = db_last_agent_timestamp (world s) ->
            lastTimestamp w = lastTimestamp (world s) ->
            db_messages w = storeDiscordMessage env msg (db_messages (world s)) ->
            sessions w = sessions (world s) ->
            exists s',
              (s1 <- dget ;;
               match registeredGroups (world s1) !! "discord" with
               | None => dthrow
               | Some group =>
                   let sessionId := sessions (world s1) !! folder group in
                   lift (emit (EvWriteTasksSnapshot (folder group) false)) ;;;
                   dtry
                     (lift (emit (EvRunAgent (folder group)
                                    (mkInput prompt sessionId (folder group) (scopeId msg)
                                       false))) ;;;
                      output <- match final agent with
                                | Some output => dret output
                                | None => dthrow
                                end ;;
                      demit (DSetTyping (scopeId msg) false) ;;;
                      match truthy_opt (newSessionId output) with
                      | Some sid => lift (recordSession (folder group) sid)
                      | None => dret tt
                      end ;;;
                      match truthy_opt (result output) with
                      | Some text =>
                          lift (set_cursor (scopeId msg) (msg_timestamp msg)) ;;;
                          lift saveState ;;;
                          demit (DSendMessage (scopeId msg) text)
                      | None => dret tt
                      end)
                     (demit (DSetTyping (scopeId msg) false))
               end)%discord (mkDWorld w (settings_table s) base)
              = (Returned tt, s') /\
              dtrace s' =
                base ++
                [DRouter (EvWriteTasksSnapshot (folder group) false);
                 DRouter (EvRunAgent (folder group)
                            (mkInput prompt (sessions (world s) !! folder group)
                               (folder group) (scopeId msg) false))] ++
                DSetTyping (scopeId msg) false ::
                match final agent with
                | None => []
                | Some output =>
                    match truthy_opt (newSessionId output) with
                    | Some sid => [DRouter (EvSetSession (folder group) sid)]
                    | None => []
                    end ++
                    match truthy_opt (result output) with
                    | Some text =>
                        [DRouter (EvSaveState (lastTimestamp (world s))
                                    match match final agent with
                                          | Some output => truthy_opt (result output)
                                          | None => None
                                          end with
                                    | Some _ => <[scopeId msg := msg_timestamp msg]>
                                                  (lastAgentTimestamp (world s))
                                    | None => lastAgentTimestamp (world s)
                                    end);
                         DSendMessage (scopeId msg) text]
                    | None => []
                    end
                end /\
              settings_table s' = settings_table s /\
              lastAgentTimestamp (world s') =
                match match final agent with
                      | Some output => truthy_opt (result output)
                      | None => None
                      end with
                | Some _ => <[scopeId msg := msg_timestamp msg]> (lastAgentTimestamp (world s))
                | None => lastAgentTimestamp (world s)
                end /\
              (match final agent with
               | Some output => truthy_opt (result output)
               | None => None
               end <> None ->
               db_last_agent_timestamp (world s') =
                 <[scopeId msg := msg_timestamp msg]> (lastAgentTimestamp (world s))) /\
              (match final agent with
               | Some output => truthy_opt (result output)
               | None => None
               end = None ->
               db_last_agent_timestamp (world s') = db_last_agent_timestamp (world s)) /\
              lastTimestamp (world s') = lastTimestamp (world s) /\
              registeredGroups (world s') !! "discord" = Some group /\
              db_messages (world s') = storeDiscordMessage env msg (db_messages (world s))).
  { intros base w group Hg Hc Hd Hl Hm Hsess.
    unfold dbind at 1, dget at 1. cbn beta iota. cbn [world settings_table dtrace].
    rewrite Hg. cbn zeta. rewrite Hsess.
    unfold dbind at 1. rewrite lift_emit. cbn beta iota.
    unfold dtry. unfold dbind at 1. rewrite lift_emit. cbn beta iota.
    cbn [world settings_table dtrace].
    destruct (final agent) as [output|].
    - unfold dbind at 1, dret at 1. cbn beta iota.
      unfold dbind at 1, demit at 1. cbn beta iota. cbn [world settings_table dtrace].
      unfold dbind at 1.
      destruct (truthy_opt (newSessionId output)) as [sid|].
      + match goal with
        | |- context [lift (recordSession ?f ?i) ?st] =>
            destruct (lift_recordSession f i st) as (w3 & -> & (S1 & S2 & S3 & S4) & S5 & _)
        end.
        cbn [world settings_table dtrace log lastTimestamp lastAgentTimestamp
             db_last_agent_timestamp registeredGroups db_messages] in S1, S2, S3, S4, S5 |- *.
        destruct (truthy_opt (result output)) as [text|].
        * unfold dbind at 1. rewrite lift_set_cursor. cbn beta iota.
          unfold dbind at 1. rewrite lift_saveState. cbn beta iota.
          unfold demit. eexists. split; [reflexivity|]. discord_tidy.
          rewrite ?S1, ?S2, ?S3, ?S4, ?Hc, ?Hl, ?Hm, ?Hg, <- ?app_assoc.
          repeat split; try reflexivity; intros; congruence.
        * unfold dret. eexists. split; [reflexivity|]. discord_tidy.
          rewrite ?S1, ?S2, ?S3, ?S4, ?S5, ?Hc, ?Hl, ?Hm, ?Hg, ?Hd, <- ?app_assoc.
          repeat split; try reflexivity; intros; congruence.
      + unfold dret at 1. cbn beta iota.
        destruct (truthy_opt (result output)) as [text|].
        * unfold dbind at 1. rewrite lift_set_cursor. cbn beta iota.
          unfold dbind at 1. rewrite lift_saveState. cbn beta iota.
          unfold demit. eexists. split; [reflexivity|]. discord_tidy.
          rewrite ?Hc, ?Hl, ?Hm, ?Hg, <- ?app_assoc.
          repeat split; try reflexivity; intros; congruence.
        * unfold dret. eexists. split; [reflexivity|]. discord_tidy.
          rewrite ?Hc, ?Hl, ?Hm, ?Hg, ?Hd, <- ?app_assoc.
          repeat split; try reflexivity; intros; congruence.
    - unfold dbind at 1, dthrow at 1. cbn beta iota. unfold demit.
      eexists. split; [reflexivity|]. discord_tidy.
      rewrite ?Hc, ?Hl, ?Hm, ?Hg, ?Hd, <- ?app_assoc.
      repeat split; try reflexivity; intros; congruence. }
  destruct (registeredGroups (world s) !! "discord") as [group|] eqn:Eg.
  - unfold dbind at 1, dret at 1. cbn beta iota.
    destruct (Hreg (dtrace s ++
                    [DStoreChatMetadata (scopeId msg) (msg_timestamp msg) (chat_name msg)] ++
                    [DStoreMessage msg] ++ [DSetTyping (scopeId msg) true])
                (stored msg (world s)) group Eg eq_refl eq_refl eq_refl eq_refl eq_refl)
      as (s' & E & Ht & Hrest).
    exists s'. split.
    + rewrite <- E. rewrite <- !app_assoc. reflexivity.
    + split; [|exact Hrest]. rewrite Ht, <- !app_assoc. reflexivity.
  - unfold dbind at 1, registerGroup at 1, dbind at 1, with_world at 1, demit at 1.
    cbn beta iota. cbn [world settings_table dtrace].
    match goal with
    | |- context [mkDWorld ?w _ _] =>
        match w with
        | mkWorld _ _ _ _ _ _ _ _ _ =>
            destruct (Hreg (dtrace s ++
                            [DStoreChatMetadata (scopeId msg) (msg_timestamp msg)
                               (chat_name msg)] ++
                            [DStoreMessage msg] ++ [DSetTyping (scopeId msg) true] ++
                            [DRegisterGroup "discord" (DISCORD_GROUP env)])
                        w (DISCORD_GROUP env) (lookup_insert_eq _ _ _)
                        eq_refl eq_refl eq_refl eq_refl eq_refl)
              as (s' & E & Ht & Hrest)
        end
    end.
    exists s'. split.
    + rewrite <- E. rewrite <- !app_assoc. reflexivity.
    + split; [|exact Hrest]. rewrite Ht, <- !app_assoc. reflexivity.
Qed.

End WithConfig.

Section Theorems.
Variable cfg : Config.
Variable env : DEnv.

(** A message that is not the admin command always reaches the agent:
    the prompt is never empty (it is the pair of [<messages>] tags also
    when no row is pending), so the guard on it never returns.  The
    message is stored first, the typing indicator is switched on, the
    group [discord] is registered if it was not, and the agent is called
    once, for that group, with the prompt made of the rows after the
    chat's cursor. *)
Theorem discord_message_always_reaches_agent (msg : DiscordIncomingMessage)
    (agent : AgentRun) (s : DWorld) :
  match_runtime_command (msg_content msg) = None ->
  exists s' later,
    processDiscordIncoming cfg env msg agent s = (Returned tt, s') /\
    dtrace s' =
      dtrace s ++
      [DStoreChatMetadata (scopeId msg) (msg_timestamp msg) (chat_name msg);
       DStoreMessage msg;
       DSetTyping (scopeId msg) true] ++
      match registeredGroups (world s) !! "discord" with
      | Some _ => []
      | None => [DRegisterGroup "discord" (DISCORD_GROUP env)]
      end ++
      [DRouter (EvWriteTasksSnapshot (folder (discord_group env (world s))) false);
       DRouter (EvRunAgent (folder (discord_group env (world s)))
                  (discord_input cfg env msg (world s)))] ++
      later /\
    (forall g i, ~ In (DRouter (EvRunAgent g i)) later) /\
    prompt (discord_input cfg env msg (world s)) =
      prompt_of (getMessagesSince (storeDiscordMessage env msg (db_messages (world s)))
                   (scopeId msg) (cursor (world s) (scopeId msg)) (ASSISTANT_NAME cfg)) /\
    prompt (discord_input cfg env msg (world s)) <> EmptyString /\
    prompt_of [] = ("<messages>" ++ LF ++ LF ++ "</messages>")%string /\
    registeredGroups (world s') !! "discord" = Some (discord_group env (world s)) /\
    db_messages (world s') = storeDiscordMessage env msg (db_messages (world s)).
Proof.
  intros Hcmd.
  destruct (process_message_run cfg env msg agent s Hcmd)
    as (s' & E & Ht & _ & _ & _ & _ & _ & Hg & Hm).
  exists s', (closing env msg agent (world s)).
  split; [exact E|]. split.
  { rewrite Ht. unfold opening. rewrite <- !app_assoc. reflexivity. }
  split.
  { intros g i. unfold closing. cbn [In]. intros [H|H]; [discriminate H|].
    destruct (final agent) as [output|]; [|destruct H].
    apply in_app_iff in H as [H|H].
    - destruct (truthy_opt (newSessionId output)); cbn [In] in H; [|destruct H].
      destruct H as [H|[]]. discriminate H.
    - destruct (truthy_opt (result output)); cbn [In] in H; [|destruct H].
      destruct H as [H|[H|[]]]; discriminate H. }
  split; [reflexivity|]. split; [|split; [reflexivity|split; assumption]].
  apply JsFacts.truthy_true. reflexivity.
Qed.

(** The cursor of a Discord chat moves only with a reply, and the whole
    trace of the handler is this: the message is stored, the typing
    indicator goes on, the group is registered if it was not, the tasks
    snapshot is written, the agent is called, and the typing indicator
    goes off right after, once, whether the agent came back or threw.
    When the agent came back, a session id that is not empty is recorded
    next; a result that is not empty then has the chat's cursor set to
    the time stamp of the message at hand and written to the store, and
    only then is sent.  Nothing else happens: when the agent throws or
    has nothing to say, nothing is sent and the cursors in memory and in
    the store stay as they were, so the message is part of the next
    prompt.  The watermark and the settings are left alone on every
    path. *)
Theorem discord_cursor_moves_only_with_reply (msg : DiscordIncomingMessage)
    (agent : AgentRun) (s : DWorld) :
  match_runtime_command (msg_content msg) = None ->
  exists s',
    processDiscordIncoming cfg env msg agent s = (Returned tt, s') /\
    dtrace s' =
      dtrace s ++
      [DStoreChatMetadata (scopeId msg) (msg_timestamp msg) (chat_name msg);
       DStoreMessage msg;
       DSetTyping (scopeId msg) true] ++
      match registeredGroups (world s) !! "discord" with
      | Some _ => []
      | None => [DRegisterGroup "discord" (DISCORD_GROUP env)]
      end ++
      [DRouter (EvWriteTasksSnapshot (folder (discord_group env (world s))) false);
       DRouter (EvRunAgent (folder (discord_group env (world s)))
                  (discord_input cfg env msg (world s)));
       DSetTyping (scopeId msg) false] ++
      match final agent with
      | None => []
      | Some output =>
          match truthy_opt (newSessionId output) with
          | Some sid => [DRouter (EvSetSession (folder (discord_group env (world s))) sid)]
          | None => []
          end ++
          match truthy_opt (result output) with
          | Some text =>
              [DRouter (EvSaveState (lastTimestamp (world s))
                          (<[scopeId msg := msg_timestamp msg]>
                             (lastAgentTimestamp (world s))));
               DSendMessage (scopeId msg) text]
          | None => []
          end
      end /\
    lastTimestamp (world s') = lastTimestamp (world s) /\
    settings_table s' = settings_table s /\
    match final agent with
    | Some output =>
        match truthy_opt (result output) with
        | Some _ =>
            lastAgentTimestamp (world s')
              = <[scopeId msg := msg_timestamp msg]> (lastAgentTimestamp (world s)) /\
            db_last_agent_timestamp (world s') = lastAgentTimestamp (world s')
        | None =>
            lastAgentTimestamp (world s') = lastAgentTimestamp (world s) /\
            db_last_agent_timestamp (world s') = db_last_agent_timestamp (world s)
        end
    | None =>
        lastAgentTimestamp (world s') = lastAgentTimestamp (world s) /\
        db_last_agent_timestamp (world s') = db_last_agent_timestamp (world s)
    end.
Proof.
  intros Hcmd.
  destruct (process_message_run cfg env msg agent s Hcmd)
    as (s' & E & Ht & Hs & Hc & Hd1 & Hd2 & Hl & _ & _).
  exists s'. split; [exact E|]. split.
  { rewrite Ht. unfold opening, closing, cursors_after, reply. rewrite <- !app_assoc.
    cbn [app]. do 4 f_equal.
    destruct (registeredGroups (world s) !! "discord"); cbn [app]; do 3 f_equal;
      (destruct (final agent) as [output|]; [|reflexivity]);
      destruct (truthy_opt (result output)); reflexivity. }
  split; [exact Hl|]. split; [exact Hs|].
  unfold cursors_after, reply in *.
  destruct (final agent) as [output|].
  - destruct (truthy_opt (result output)) as [text|].
    + split; [exact Hc|]. rewrite Hc. apply Hd1. discriminate.
    + split; [exact Hc|]. apply Hd2. reflexivity.
  - split; [exact Hc|]. apply Hd2. reflexivity.
Qed.

End Theorems.

(** ** Two messages in a Discord channel *)

Lemma admin_command_witness :
  settings_table (snd (processDiscordIncoming cfg0 discord_env dmsg_switch agent_ok dworld0))
    = <["agent_runtime" := "codex"]> (settings_table dworld0) /\
  world (snd (processDiscordIncoming cfg0 discord_env dmsg_switch agent_ok dworld0))
    = world dworld0.
Proof.
  destruct (admin_command_only_switches_runtime cfg0 discord_env dmsg_switch agent_ok
              dworld0 "codex" eq_refl) as (_ & Hw & _ & Hs).
  split; [|exact Hw]. apply Hs. discriminate.
Defined.

Lemma discord_message_witness :
  exists s' later,
    processDiscordIncoming cfg0 discord_env dmsg_hello agent_ok dworld0 = (Returned tt, s') /\
    dtrace s' =
      dtrace dworld0 ++
      [DStoreChatMetadata "discord:42" "2024-01-03T09:00:00.000Z" "discord:general";
       DStoreMessage dmsg_hello;
       DSetTyping "discord:42" true;
       DRegisterGroup "discord" (DISCORD_GROUP discord_env);
       DRouter (EvWriteTasksSnapshot "discord" false);
       DRouter (EvRunAgent "discord" (discord_input cfg0 discord_env dmsg_hello world0))] ++
      later.
Proof.
  destruct (discord_message_always_reaches_agent cfg0 discord_env dmsg_hello agent_ok
              dworld0 eq_refl) as (s' & later & E & Ht & _).
  exists s', later. split; [exact E|exact Ht].
Defined.

Lemma discord_cursor_witness :
  exists s',
    processDiscordIncoming cfg0 discord_env dmsg_hello agent_reasoning dworld0
      = (Returned tt, s') /\
    dtrace s' =
      [DStoreChatMetadata "discord:42" "2024-01-03T09:00:00.000Z" "discord:general";
       DStoreMessage dmsg_hello;
       DSetTyping "discord:42" true;
       DRegisterGroup "discord" (DISCORD_GROUP discord_env);
       DRouter (EvWriteTasksSnapshot "discord" false);
       DRouter (EvRunAgent "discord" (discord_input cfg0 discord_env dmsg_hello world0));
       DSetTyping "discord:42" false;
       DRouter (EvSetSession "discord" "S1");
       DRouter (EvSaveState EmptyString
                  (<["discord:42" := "2024-01-03T09:00:00.000Z"]> (lastAgentTimestamp world0)));
       DSendMessage "discord:42" "<internal>thinking</internal> hello "] /\
    lastAgentTimestamp (world s')
      = <["discord:42" := "2024-01-03T09:00:00.000Z"]> (lastAgentTimestamp world0).
Proof.
  destruct (discord_cursor_moves_only_with_reply cfg0 discord_env dmsg_hello agent_reasoning
              dworld0 eq_refl) as (s' & E & Ht & _ & _ & Hc & _).
  exists s'. split; [exact E|]. split; [exact Ht|exact Hc].
Defined.

(** ** A reply with a block of internal reasoning *)

(** C8, at the failing input.  The agent's output for a Discord message
    holds a block of internal reasoning; the handler sends the result as
    it is, block included.  The same output as a streamed frame of
    [processGroupMessages] goes to the channel with the block cut out. *)
Theorem C8_discord_sends_internal_block :
  result frame_hello = Some "<internal>thinking</internal> hello " /\
  dtrace (snd (processDiscordIncoming cfg0 discord_env dmsg_hello agent_reasoning dworld0)) =
    [DStoreChatMetadata "discord:42" "2024-01-03T09:00:00.000Z" "discord:general";
     DStoreMessage dmsg_hello;
     DSetTyping "discord:42" true;
     DRegisterGroup "discord" (DISCORD_GROUP discord_env);
     DRouter (EvWriteTasksSnapshot "discord" false);
     DRouter (EvRunAgent "discord" (discord_input cfg0 discord_env dmsg_hello world0));
     DSetTyping "discord:42" false;
     DRouter (EvSetSession "discord" "S1");
     DRouter (EvSaveState EmptyString
                (<["discord:42" := "2024-01-03T09:00:00.000Z"]> (lastAgentTimestamp world0)));
     DSendMessage "discord:42" "<internal>thinking</internal> hello "] /\
  Js.includes "<internal>thinking</internal> hello " "<internal>thinking</internal>" = true /\
  Js.trim (Js.strip_internal "<internal>thinking</internal> hello ") = "hello" /\
  sent (events_of (processGroupMessages cfg0 "G1@g.us" (mkAgentRun [frame_hello] None)) world0)
  = [("G1@g.us", "hello")].
Proof. vm_compute. repeat split; reflexivity. Qed.

End DiscordFacts.
